(** * A shallow embedding of the MFA core (basis evaluation, knot insertion,
      decoding, error analysis) and the properties of its specification.

    Sources embedded: [include/mfa/mfa_data.hpp], [include/mfa/decode.hpp],
    [include/mfa/encode.hpp].

    Conventions of the embedding.
    - The scalar type [T] of the templates ("float or double") is instantiated
      by the exact rationals [Qc]. What is proved about comparisons, signs,
      indices and the flow of data does not depend on rounding. Sums,
      products and quotients are exact in [Qc] and rounded in the program:
      a statement that depends on it says "in exact arithmetic", and module
      [Binary64] evaluates the code in IEEE-754 binary64 where the
      difference shows. A division whose divisor is zero has no exact value
      (IEEE arithmetic yields an infinity or a NaN there); it is the failure
      [NonFinite].
    - C++ [int] and [size_t] values are [Z]; [int] division is [Z.quot].
    - [std::vector] and Eigen vectors are lists; an access through
      [operator[]] or [operator()] outside the bounds is undefined behaviour
      in the source and the failure [Undefined] here; [vector::at] throws
      [std::out_of_range], the failure [OutOfRange].
    - [exit(n)] is the failure [Exit n]; text written to [stderr] is appended
      to the log carried by the monad [M].
    - The binary search of [FindSpan] is the only unbounded loop; it takes a
      fuel argument and fails with [Timeout] when the fuel is exhausted. *)

From Stdlib Require Import String.
From Stdlib Require Import ZArith List Lia QArith Qcanon Lqa Field Bool.
From Stdlib Require SpecFloat.
Import ListNotations.

Open Scope Z_scope.

(** ** Scalars *)

(** The scalar type is a notation, so that [ring] and [field] see [Qc]. *)
Abbreviation T := Qc (only parsing).

Definition Tltb (x y : T) : bool := if Qclt_le_dec x y then true else false.
Definition Tleb (x y : T) : bool := if Qclt_le_dec y x then false else true.
Definition Teqb (x y : T) : bool := if Qc_eq_dec x y then true else false.

Abbreviation T0 := (Q2Qc 0) (only parsing).
Abbreviation T1 := (Q2Qc 1) (only parsing).
Abbreviation T2 := (Q2Qc 2) (only parsing).

(** [fabs] *)
Definition Tabs (x : T) : T := if Tltb x T0 then (- x)%Qc else x.

(** ** Outcomes, diagnostics and the monad of the embedding *)

Inductive failure : Type :=
| Exit (status : Z)      (* the process was terminated by exit(status) *)
| OutOfRange             (* std::out_of_range thrown by vector::at *)
| Undefined              (* out-of-bounds operator[] / operator() *)
| NonFinite              (* division by zero *)
| Timeout.               (* fuel exhausted *)

Inductive outcome (A : Type) : Type :=
| Ret (a : A)
| Fail (f : failure).

Arguments Ret {A} a.
Arguments Fail {A} f.

(** A computation yields the text it wrote to stderr and its outcome. *)
Definition M (A : Type) : Type := (list string * outcome A)%type.

Definition ret {A} (a : A) : M A := ([], Ret a).
Definition fail {A} (f : failure) : M A := ([], Fail f).
Definition warn (msg : string) : M unit := ([msg], Ret tt).

Definition bind {A B} (m : M A) (k : A -> M B) : M B :=
  match snd m with
  | Ret a => (fst m ++ fst (k a), snd (k a))
  | Fail f => (fst m, Fail f)
  end.

Notation "x <- m ;; k" := (bind m (fun x => k))
  (at level 61, m at next level, right associativity).
Notation "m ;;; k" := (bind m (fun _ => k))
  (at level 61, right associativity).

Definition exit_with {A} (msg : string) (status : Z) : M A :=
  warn msg ;;; fail (Exit status).

(** ** Vectors *)

Definition Zlength' {A} (v : list A) : Z := Z.of_nat (length v).

(** [v[i]] *)
Definition vget {A} (v : list A) (i : Z) : M A :=
  if i <? 0 then fail Undefined
  else match nth_error v (Z.to_nat i) with
       | Some a => ret a
       | None => fail Undefined
       end.

(** [v.at(i)] *)
Definition vat {A} (v : list A) (i : Z) : M A :=
  if i <? 0 then fail OutOfRange
  else match nth_error v (Z.to_nat i) with
       | Some a => ret a
       | None => fail OutOfRange
       end.

Fixpoint replace_nth {A} (n : nat) (v : list A) (a : A) : list A :=
  match v, n with
  | [], _ => []
  | _ :: v', O => a :: v'
  | x :: v', S n' => x :: replace_nth n' v' a
  end.

(** [v[i] = a] *)
Definition vset {A} (v : list A) (i : Z) (a : A) : M (list A) :=
  if (0 <=? i) && (i <? Zlength' v) then ret (replace_nth (Z.to_nat i) v a)
  else fail Undefined.

(** Total readers used in statements only. *)
Definition zth (v : list T) (i : Z) : T := nth (Z.to_nat i) v T0.
Definition zthZ (v : list Z) (i : Z) : Z := nth (Z.to_nat i) v 0.

(** ** Data model (the parts of [TensorProduct], [Tmesh] and [MFA_Data] the
       embedded functions read or write) *)

Record TensorProduct : Type := mkTensor {
  knot_mins : list Z;
  knot_maxs : list Z;
  nctrl_pts : list Z;
  ctrl_pts  : list (list T);     (* one row per control point *)
  weights   : list T;
  level     : Z
}.

Record Tmesh : Type := mkTmesh {
  all_knots           : list (list T);
  all_knot_levels     : list (list Z);
  all_knot_param_idxs : list (list Z);
  tensor_prods        : list TensorProduct
}.

Record MFA_Data : Type := mkMFA {
  dom_dim : Z;
  min_dim : Z;
  max_dim : Z;
  p       : list Z;
  tmesh   : Tmesh
}.

(** ** [MFA_Data::FindSpan] (mfa_data.hpp 189-211) *)

(** The loop
    [while (u < knots[mid] || u >= knots[mid + 1]) { ... mid = (low + high) / 2; }];
    [||] evaluates [knots[mid + 1]] only when its left operand is false. *)
Fixpoint FindSpan_loop (fuel : nat) (knots : list T) (u : T)
         (low high mid : Z) : M Z :=
  match fuel with
  | O => fail Timeout
  | S fuel' =>
      km <- vget knots mid ;;
      if Tltb u km then
        FindSpan_loop fuel' knots u low mid ((low + mid) ÷ 2)
      else
        km1 <- vget knots (mid + 1) ;;
        if Tleb km1 u then
          FindSpan_loop fuel' knots u mid high ((mid + high) ÷ 2)
        else ret mid
  end.

Definition FindSpan (fuel : nat) (mfa : MFA_Data) (cur_dim : Z) (u : T)
           (nctrl : Z) : M Z :=
  knots <- vget (all_knots (tmesh mfa)) cur_dim ;;
  kn <- vget knots nctrl ;;
  if Teqb u kn then ret (nctrl - 1)
  else
    low <- vget (p mfa) cur_dim ;;
    FindSpan_loop fuel knots u low nctrl ((low + nctrl) ÷ 2).

(** ** Well-formed knot vectors (statement side, decidable) *)

Fixpoint nondecreasing (v : list T) : bool :=
  match v with
  | a :: (b :: _) as v' => Tleb a b && nondecreasing v'
  | _ => true
  end.

(** [pk + 1] equal knots at each end of a vector of [nctrl + pk + 1] knots,
    for at least [pk + 1] control points. *)
Definition clamped (pk nctrl : Z) (knots : list T) : bool :=
  (0 <=? pk) && (pk <? nctrl) && (Zlength' knots =? nctrl + pk + 1) &&
  forallb (fun k => Teqb k (zth knots 0)) (firstn (Z.to_nat (pk + 1)) knots) &&
  forallb (fun k => Teqb k (zth knots nctrl)) (skipn (Z.to_nat nctrl) knots).

(** Example: degree 3, 7 control points, the knot vector of the source's
    comment {0,0,0,0,0.25,0.5,0.75,1,1,1,1}. *)
Definition ex_knots7 : list T :=
  map Q2Qc [0; 0; 0; 0; 1 # 4; 1 # 2; 3 # 4; 1; 1; 1; 1]%Q.

Definition ex_levels7 : list Z := repeat 0 11.

Definition ex_mfa7 : MFA_Data :=
  mkMFA 1 0 0 [3] (mkTmesh [ex_knots7] [ex_levels7] [[]] []).

(** ** Loops and scalar division *)

Notation "' pat <- m ;; k" :=
  (bind m (fun x => match x with pat => k end))
  (at level 61, pat pattern, m at next level, right associativity).

(** [for (i = i0; i < i0 + n; i++) body] *)
Fixpoint for_n {St : Type} (n : nat) (i : Z) (body : Z -> St -> M St) (s : St)
  : M St :=
  match n with
  | O => ret s
  | S n' => s' <- body i s ;; for_n n' (i + 1) body s'
  end.

(** [for (i = lo; i < hi; i++) body] *)
Definition for_range {St : Type} (lo hi : Z) (body : Z -> St -> M St) (s : St)
  : M St :=
  for_n (Z.to_nat (hi - lo)) lo body s.

(** [x / y] *)
Definition Tdiv (x y : T) : M T :=
  if Teqb y T0 then fail NonFinite else ret (x / y)%Qc.

(** [vector<T> v(n)], value-initialised *)
Definition zeros (n : Z) : list T := repeat T0 (Z.to_nat n).

(** ** [MFA_Data::OrigBasisFuns] (mfa_data.hpp 325-369) and
       [MFA_Data::FastBasisFuns] (378-422) *)

(** The loop nest [for (j = 1; j <= p; j++) { left[j] = ...; right[j] = ...;
    for (r = 0; r < j; r++) { ... } scratch[j] = saved; }], which the two
    functions share word for word; they differ in the vectors it runs on. *)
Definition basis_recurrence (knots : list T) (u : T) (span pk : Z)
           (scratch left right : list T)
  : M (list T * list T * list T) :=
  for_range 1 (pk + 1)
    (fun j '(scratch, left, right) =>
       kl <- vget knots (span + 1 - j) ;;
       left <- vset left j (u - kl)%Qc ;;
       kr <- vget knots (span + j) ;;
       right <- vset right j (kr - u)%Qc ;;
       ' (scratch, saved) <-
         for_range 0 j
           (fun r '(scratch, saved) =>
              sr <- vget scratch r ;;
              rr <- vget right (r + 1) ;;
              lj <- vget left (j - r) ;;
              temp <- Tdiv sr (rr + lj)%Qc ;;
              scratch <- vset scratch r (saved + rr * temp)%Qc ;;
              ret (scratch, (lj * temp)%Qc))
           (scratch, T0) ;;
       scratch <- vset scratch j saved ;;
       ret (scratch, left, right))
    (scratch, left, right).

Definition OrigBasisFuns (mfa : MFA_Data) (cur_dim : Z) (u : T) (span : Z)
           (N : list (list T)) (row : Z) : M (list (list T)) :=
  Nrow <- vget N row ;;
  let Nrow := map (fun _ => T0) Nrow in                (* N.row(row).setZero() *)
  pk <- vget (p mfa) cur_dim ;;
  scratch <- vset (zeros (pk + 1)) 0 T1 ;;
  knots <- vget (all_knots (tmesh mfa)) cur_dim ;;
  ' (scratch, _, _) <-
    basis_recurrence knots u span pk scratch (zeros (pk + 1)) (zeros (pk + 1)) ;;
  Nrow <- for_range 0 (pk + 1)
            (fun j Nrow =>
               sj <- vget scratch j ;;
               vset Nrow (span - pk + j) sj)
            Nrow ;;
  vset N row Nrow.

(** [BasisFunInfo]: the scratch vectors [FastBasisFuns] uses. *)
Record BasisFunInfo : Type := mkBFI {
  right : list T;
  left  : list T;
  qmax  : Z
}.

(** [BasisFunInfo(q)]: [qmax] is the largest entry of [q]. *)
Definition BasisFunInfo_new (q : list Z) : BasisFunInfo :=
  let qm := fold_left (fun m qi => if m <? qi then qi else m) q 0 in
  mkBFI (zeros qm) (zeros qm) qm.

(** The values written to [std::cout] are not recorded; the reads that
    produce them are: [N[1]], [N[2]] through [operator[]] and
    [bfi.right.at(0..2)] through the checked [at]. *)
Definition FastBasisFuns_prints (N : list T) (bfi : BasisFunInfo) : M unit :=
  vget N 0 ;;; vget N 1 ;;; vget N 2 ;;;
  vat (right bfi) 0 ;;; vat (right bfi) 1 ;;; vat (right bfi) 2 ;;; ret tt.

Definition FastBasisFuns (mfa : MFA_Data) (cur_dim : Z) (u : T) (span : Z)
           (N : list T) (bfi : BasisFunInfo) : M (list T * BasisFunInfo) :=
  N <- vset N 0 T1 ;;
  pk <- vget (p mfa) cur_dim ;;
  FastBasisFuns_prints N bfi ;;;
  knots <- vget (all_knots (tmesh mfa)) cur_dim ;;
  ' (N, l, r) <- basis_recurrence knots u span pk N (left bfi) (right bfi) ;;
  let bfi := mkBFI r l (qmax bfi) in
  FastBasisFuns_prints N bfi ;;;
  ret (N, bfi).

(** ** The Cox-de Boor recurrence as a function (statement side) *)

(** One pass of the inner loop over the values [s] of the previous degree:
    [R i] stands for [right[i]] and [L i] for [left[i]]. *)
Fixpoint raise (R L : Z -> T) (j r : Z) (saved : T) (s : list T) : list T :=
  match s with
  | [] => [saved]
  | sr :: s' =>
      let rr := R (r + 1) in
      let lj := L (j - r) in
      let temp := (sr / (rr + lj))%Qc in
      (saved + rr * temp)%Qc :: raise R L j (r + 1) (lj * temp)%Qc s'
  end.

Fixpoint basis (R L : Z -> T) (n : nat) : list T :=
  match n with
  | O => [T1]
  | S n' => raise R L (Z.of_nat n) 0 T0 (basis R L n')
  end.

Definition knot_right (knots : list T) (u : T) (span i : Z) : T :=
  (zth knots (span + i) - u)%Qc.
Definition knot_left (knots : list T) (u : T) (span i : Z) : T :=
  (u - zth knots (span + 1 - i))%Qc.

(** The [p + 1] basis values at [u] in span [span]. *)
Definition basis_values (knots : list T) (u : T) (span pk : Z) : list T :=
  basis (knot_right knots u span) (knot_left knots u span) (Z.to_nat pk).

Definition Tsum (v : list T) : T := fold_right Qcplus T0 v.


(** [N.row]: zero everywhere but for [vals] from column [c0] on. *)
Definition banded_row (ncols c0 : Z) (vals : list T) : list T :=
  zeros c0 ++ vals ++ zeros (ncols - c0 - Zlength' vals).

(** Reading results in examples: the value of a computation that returned,
    and rationals without their canonicity proofs. *)
Definition value {A} (m : M A) : option A :=
  match snd m with
  | Ret a => Some a
  | Fail _ => None
  end.

Definition failure_of {A} (m : M A) : option failure :=
  match snd m with
  | Ret _ => None
  | Fail f => Some f
  end.

Definition raw (v : list T) : list Q := map this v.

(** A degree-1 vector whose last knot value occurs four times. *)
Definition ex_knots_flat : list T := map Q2Qc [0; 0; 1; 1; 1; 1]%Q.

Definition ex_mfa_flat : MFA_Data :=
  mkMFA 1 0 0 [1] (mkTmesh [ex_knots_flat] [repeat 0 6] [[]] []).

(** ** Knot insertion (mfa_data.hpp 967-1021, 1158-1235, 1309-1465,
       1640-1678) *)

(** [alpha * hi + (1.0 - alpha) * lo], row-wise *)
Definition affine_row (alpha : T) (hi lo : list T) : list T :=
  map (fun ab => (alpha * fst ab + (T1 - alpha) * snd ab)%Qc) (combine hi lo).

Definition affine (alpha hi lo : T) : T := (alpha * hi + (T1 - alpha) * lo)%Qc.

(** [MatrixX<T> m(rows, cols)] *)
Definition zero_matrix (rows cols : Z) : list (list T) :=
  repeat (zeros cols) (Z.to_nat rows).

(** [m.cols()] *)
Definition mcols (m : list (list T)) : Z :=
  match m with
  | [] => 0
  | r :: _ => Zlength' r
  end.

Definition duplicate_knot_msg : string :=
  "Error: CurveKnotIns attempting to insert duplicate knot".

(** [MFA_Data::NewCurveKnotIns]. The four outputs are returned; every entry
    of them is assigned by the function before it returns. *)
Definition NewCurveKnotIns (fuel : nat) (mfa : MFA_Data) (cur_dim : Z)
           (old_knots : list T) (old_knot_levels : list Z)
           (old_ctrl_pts : list (list T)) (old_weights : list T)
           (u : T) (lev : Z)
  : M (list T * list Z * list (list T) * list T) :=
  let rows := Zlength' old_ctrl_pts in
  let cols := mcols old_ctrl_pts in
  let new_knots := zeros (Zlength' old_knots + 1) in
  let new_knot_levels := repeat 0 (Z.to_nat (Zlength' old_knot_levels + 1)) in
  let new_ctrl_pts := zero_matrix (rows + 1) cols in
  let new_weights := zeros (Zlength' old_weights + 1) in
  pk <- vget (p mfa) cur_dim ;;
  let temp_ctrl_pts := zero_matrix (pk + 1) cols in
  let temp_weights := zeros (pk + 1) in
  (* TODO in the source: FindSpan runs on tmesh.all_knots, not on old_knots *)
  span <- FindSpan fuel mfa cur_dim u rows ;;
  knots <- vget (all_knots (tmesh mfa)) cur_dim ;;
  ks <- vget knots span ;;
  if Teqb ks u then exit_with duplicate_knot_msg 0
  else
    (* load new knot vector *)
    ' (new_knots, new_knot_levels) <-
      for_range 0 (span + 1)
        (fun i '(nk, nl) =>
           k <- vget old_knots i ;; nk <- vset nk i k ;;
           l <- vget old_knot_levels i ;; nl <- vset nl i l ;;
           ret (nk, nl))
        (new_knots, new_knot_levels) ;;
    new_knots <- vset new_knots (span + 1) u ;;
    new_knot_levels <- vset new_knot_levels (span + 1) lev ;;
    ' (new_knots, new_knot_levels) <-
      for_range (span + 1) (rows + pk + 1)
        (fun i '(nk, nl) =>
           k <- vget old_knots i ;; nk <- vset nk (i + 1) k ;;
           l <- vget old_knot_levels i ;; nl <- vset nl (i + 1) l ;;
           ret (nk, nl))
        (new_knots, new_knot_levels) ;;
    (* save unaltered control points and weights *)
    ' (new_ctrl_pts, new_weights) <-
      for_range 0 (span - pk + 1)
        (fun i '(nc, nw) =>
           c <- vget old_ctrl_pts i ;; nc <- vset nc i c ;;
           w <- vget old_weights i ;; nw <- vset nw i w ;;
           ret (nc, nw))
        (new_ctrl_pts, new_weights) ;;
    ' (new_ctrl_pts, new_weights) <-
      for_range span rows
        (fun i '(nc, nw) =>
           c <- vget old_ctrl_pts i ;; nc <- vset nc (i + 1) c ;;
           w <- vget old_weights i ;; nw <- vset nw (i + 1) w ;;
           ret (nc, nw))
        (new_ctrl_pts, new_weights) ;;
    ' (temp_ctrl_pts, temp_weights) <-
      for_range 0 (pk + 1)
        (fun i '(tc, tw) =>
           c <- vget old_ctrl_pts (span - pk + i) ;; tc <- vset tc i c ;;
           w <- vget old_weights (span - pk + i) ;; tw <- vset tw i w ;;
           ret (tc, tw))
        (temp_ctrl_pts, temp_weights) ;;
    (* insert the new control point *)
    let L := span - pk + 1 in
    ' (temp_ctrl_pts, temp_weights) <-
      for_range 0 pk
        (fun i '(tc, tw) =>
           ka <- vget old_knots (L + i) ;;
           kb <- vget old_knots (i + span + 1) ;;
           alpha <- Tdiv (u - ka)%Qc (kb - ka)%Qc ;;
           c1 <- vget tc (i + 1) ;; c0 <- vget tc i ;;
           tc <- vset tc i (affine_row alpha c1 c0) ;;
           w1 <- vget tw (i + 1) ;; w0 <- vget tw i ;;
           tw <- vset tw i (affine alpha w1 w0) ;;
           ret (tc, tw))
        (temp_ctrl_pts, temp_weights) ;;
    c <- vget temp_ctrl_pts 0 ;; new_ctrl_pts <- vset new_ctrl_pts L c ;;
    w <- vget temp_weights 0 ;; new_weights <- vset new_weights L w ;;
    c <- vget temp_ctrl_pts (pk - 1) ;; new_ctrl_pts <- vset new_ctrl_pts span c ;;
    w <- vget temp_weights (pk - 1) ;; new_weights <- vset new_weights span w ;;
    (* load remaining control points *)
    ' (new_ctrl_pts, new_weights) <-
      for_range (L + 1) span
        (fun i '(nc, nw) =>
           c <- vget temp_ctrl_pts (i - L) ;; nc <- vset nc i c ;;
           w <- vget temp_weights (i - L) ;; nw <- vset nw i w ;;
           ret (nc, nw))
        (new_ctrl_pts, new_weights) ;;
    ret (new_knots, new_knot_levels, new_ctrl_pts, new_weights).

(** A curve of degree 3 on the knots of [ex_knots7], with the scalar control
    points 0, 1, ..., 6 and unit weights (Scenario 3 of the specification). *)
Definition ex_curve7 : list (list T) :=
  map (fun q => [Q2Qc q]) [0; 1; 2; 3; 4; 5; 6]%Q.
Definition ex_weights7 : list T := repeat T1 7.

(** Row [i] of a matrix, total (statement side). *)
Definition row (m : list (list T)) (i : Z) : list T := nth (Z.to_nat i) m [].

(** The ratio [alpha] of Boehm's algorithm for the [c]-th altered point
    (statement side). *)
Definition ins_alpha (old_knots : list T) (u : T) (span pk c : Z) : T :=
  ((u - zth old_knots (span - pk + 1 + c))
   / (zth old_knots (c + span + 1) - zth old_knots (span - pk + 1 + c)))%Qc.

(** Whether the value [u] occurs in a knot vector, at any level, and at the
    level [lev] (statement side). *)
Definition knot_present (knots : list T) (u : T) : bool :=
  existsb (fun k => Teqb k u) knots.

Definition present_at_level (knots : list T) (levels : list Z) (u : T)
           (lev : Z) : bool :=
  existsb (fun kl => Teqb (fst kl) u && (snd kl =? lev)) (combine knots levels).

(** A degree-1 curve of three control points whose interior knot 1/2 was
    introduced at level 1. *)
Definition ex_knots3 : list T := map Q2Qc [0; 0; 1 # 2; 1; 1]%Q.
Definition ex_levels3 : list Z := [0; 0; 1; 0; 0].
Definition ex_curve3 : list (list T) := map (fun q => [Q2Qc q]) [0; 1; 2]%Q.
Definition ex_weights3 : list T := repeat T1 3.
Definition ex_mfa3 : MFA_Data :=
  mkMFA 1 0 0 [1] (mkTmesh [ex_knots3] [ex_levels3] [[]] []).

(** ** [MFA_Data::MFA_Data] (mfa_data.hpp 83-109) *)

(** Modelled from the spec: [Tmesh::init_knots] and the [Tmesh] constructor
    (tmesh.hpp is not among the sources). Section 4.A: "init_knots(nctrl_pts):
    creates per-dimension knot sequences of length nctrl_pts[k]+p[k]+1 with
    level 0". The knot values are left at zero; the parallel sequences of
    levels and parameter indices have the same length. *)
Definition init_knots (p_ nctrl_pts_ : list Z) (tm : Tmesh) : M Tmesh :=
  ' (ks, ls) <-
    for_range 0 (Zlength' p_)
      (fun i '(ks, ls) =>
         n <- vget nctrl_pts_ i ;;
         pi <- vget p_ i ;;
         ret (ks ++ [zeros (n + pi + 1)],
              ls ++ [repeat 0 (Z.to_nat (n + pi + 1))]))
      ([], []) ;;
  ret (mkTmesh ks ls ls (tensor_prods tm)).

Definition Tmesh_new : Tmesh := mkTmesh [] [] [] [].

(** The defaulting step of the constructor:
    [if (!nctrl_pts_.size()) { nctrl_pts_.resize(dom_dim);
       for (i = 0; i < dom_dim; i++) nctrl_pts_(i) = p(i) + 1; }] *)
Definition default_nctrl_pts (p_ nctrl_pts_ : list Z) : M (list Z) :=
  if Zlength' nctrl_pts_ =? 0 then
    for_range 0 (Zlength' p_)
      (fun i n => pi <- vget p_ i ;; vset n i (pi + 1))
      (repeat 0 (length p_))
  else ret nctrl_pts_.

Definition MFA_Data_new (p_ nctrl_pts_ : list Z) (min_dim_ max_dim_ : Z)
  : M MFA_Data :=
  let dom_dim := Zlength' p_ in
  let min_dim := if min_dim_ =? -1 then 0 else min_dim_ in
  let max_dim := if max_dim_ =? -1 then 0 else max_dim_ in
  nctrl_pts_ <- default_nctrl_pts p_ nctrl_pts_ ;;
  tm <- init_knots p_ nctrl_pts_ Tmesh_new ;;
  ret (mkMFA dom_dim min_dim max_dim p_ tm).

(** Statement side: all degrees are non-negative. *)
Definition degrees_ok (p_ : list Z) : bool := forallb (fun x => 0 <=? x) p_.

(** ** The decoder (decode.hpp)

    The embedding fixes the build configuration of the original
    single-tensor decoder: [MFA_SERIAL] defined, [MFA_TMESH] not defined.
    The remaining compile-time switches are the fields of [Config]. *)

Record Config : Type := mkConfig {
  WEIGH_ALL_DIMS  : bool;
  UNCLAMPED_KNOTS : bool;
  MFA_NO_WEIGHTS  : bool
}.

(** [int / int]; division by zero is undefined. *)
Definition Zdiv_int (a b : Z) : M Z :=
  if b =? 0 then fail Undefined else ret (a ÷ b).

(** [m.size()] of an Eigen matrix: rows times columns *)
Definition msize (m : list (list T)) : Z := Zlength' m * mcols m.

(** [v.prod()] *)
Definition Zprod (v : list Z) : Z := fold_right Z.mul 1 v.

Record Decoder : Type := mkDecoder {
  mfa_data    : MFA_Data;
  d_dom_dim   : Z;
  tot_iters   : Z;
  ct          : list (list Z);
  cs          : list Z;
  ds          : list Z;
  jumps       : list Z;
  q0          : Z;
  q           : list Z;
  verbose     : Z;
  saved_basis : bool
}.

Definition decode_before_encode_msg : string :=
  "Decoder() error: Attempting to decode before encoding.".

(** The test of the constructor (decode.hpp 262-266); [||] guards the
    accesses to [tensor_prods[0]]. *)
Definition not_encoded (m : MFA_Data) : bool :=
  (Zlength' (p m) =? 0) || (Zlength' (all_knots (tmesh m)) =? 0) ||
  match tensor_prods (tmesh m) with
  | [] => true
  | t0 :: _ => (Zlength' (nctrl_pts t0) =? 0) || (msize (ctrl_pts t0) =? 0)
  end.

(** [Decoder::Decoder] (decode.hpp 250-304). The member initialisers run
    first, [q0(mfa_data_.p(0) + 1)] among them. The loop over [j] runs
    downwards: its [k]-th round has [j = p.size() - 1 - k]. *)
Definition Decoder_new (mfa_data_ : MFA_Data) (verbose_ : Z)
           (saved_basis_ : bool) : M Decoder :=
  let dom_dim_ := dom_dim mfa_data_ in
  let pv := p mfa_data_ in
  let tot := Zprod (map (fun x => x + 1) pv) in
  p0 <- vget pv 0 ;;
  if not_encoded mfa_data_ then exit_with decode_before_encode_msg 0
  else
    t0 <- vget (tensor_prods (tmesh mfa_data_)) 0 ;;
    let cs0 := repeat 1 (Z.to_nat dom_dim_) in
    let ds0 := repeat 1 (Z.to_nat dom_dim_) in
    let q_0 := repeat 0 (Z.to_nat dom_dim_) in
    ' (cs1, ds1, q1) <-
      for_range 0 (Zlength' pv)
        (fun i '(cs, ds, q) =>
           pi <- vget pv i ;;
           q <- vset q i (pi + 1) ;;
           if 0 <? i then
             c <- vget cs (i - 1) ;;
             n <- vget (nctrl_pts t0) (i - 1) ;;
             cs <- vset cs i (c * n) ;;
             d <- vget ds (i - 1) ;;
             qi <- vget q i ;;
             ds <- vset ds i (d * qi) ;;
             ret (cs, ds, q)
           else ret (cs, ds, q))
        (cs0, ds0, q_0) ;;
    let ct0 := repeat (repeat 0 (length pv)) (Z.to_nat tot) in
    ct1 <-
      for_range 0 tot
        (fun i ct =>
           ' (ct, _, _) <-
             for_range 0 (Zlength' pv)
               (fun k '(ct, div, i_temp) =>
                  let j := Zlength' pv - 1 - k in
                  pj <- vget pv j ;;
                  div <- Zdiv_int div (pj + 1) ;;
                  c <- Zdiv_int i_temp div ;;
                  r <- vget ct i ;;
                  r <- vset r j c ;;
                  ct <- vset ct i r ;;
                  ret (ct, div, i_temp - c * div))
               (ct, tot, i) ;;
           ret ct)
        ct0 ;;
    (* jumps = ct * cs *)
    let jumps1 :=
      map (fun r => fold_right Z.add 0 (map (fun rc => fst rc * snd rc)
                                            (combine r cs1))) ct1 in
    ret (mkDecoder mfa_data_ dom_dim_ tot ct1 cs1 ds1 jumps1 (p0 + 1) q1
                   verbose_ saved_basis_).

(** ** [Encoder::Quants] (encode.hpp 735-774). The encoder's [mfa] holds the
       model together with the input: number of input points, parameters
       and strides per dimension. *)
Record MFA : Type := mkMFAenc {
  model    : MFA_Data;
  ndom_pts : list Z;
  params   : list (list T);
  mfa_ds   : list Z
}.

Definition quants_size_msg : string :=
  "Error: Encode() size of p must equal size of ndom_pts".
Definition quants_nctrl_msg : string :=
  "Error: Encode() number of control points in dimension must be at least p + 1 for dimension".
Definition quants_warn_msg : string :=
  "Warning: Encode() number of control points in dimension exceeds number of input data points in dimension.".

Definition Quants (mfa : MFA) : M (list Z * list Z) :=
  let pv := p (model mfa) in
  if negb (Zlength' pv =? Zlength' (ndom_pts mfa)) then
    exit_with quants_size_msg 1
  else
    for_range 0 (Zlength' pv)
      (fun i _ =>
         t0 <- vget (tensor_prods (tmesh (model mfa))) 0 ;;
         nc <- vget (nctrl_pts t0) i ;;
         pi <- vget pv i ;;
         if nc <=? pi then exit_with quants_nctrl_msg 1
         else
           nd <- vget (ndom_pts mfa) i ;;
           if nd <? nc then warn quants_warn_msg else ret tt)
      tt ;;;
    for_range 0 (Zlength' pv)
      (fun i '(n, m) =>
         t0 <- vget (tensor_prods (tmesh (model mfa))) 0 ;;
         nc <- vget (nctrl_pts t0) i ;;
         n <- vset n i (nc - 1) ;;
         nd <- vget (ndom_pts mfa) i ;;
         m <- vset m i (nd - 1) ;;
         ret (n, m))
      (repeat 0 (length pv), repeat 0 (length pv)).

(** The check on [derivs] that opens [Decoder::VolPt]
    (decode.hpp 1101-1112). *)
Definition derivs_size_msg : string :=
  "Error: size of derivatives vector is not the same as the number of domain dimensions".
Definition derivs_warn_msg : string :=
  "Warning: trying to take a derivative higher than the degree of the MFA will result in 0.".

Definition VolPt_check_derivs (dec : Decoder) (derivs : list Z) : M unit :=
  if negb (Zlength' derivs =? 0) then
    if negb (Zlength' derivs =? dom_dim (mfa_data dec)) then
      exit_with derivs_size_msg 0
    else
      for_range 0 (dom_dim (mfa_data dec))
        (fun i _ =>
           di <- vget derivs i ;;
           pi <- vget (p (mfa_data dec)) i ;;
           if pi <? di then warn derivs_warn_msg else ret tt)
        tt
  else ret tt.

(** [FindSpan(cur_dim, u)] (mfa_data.hpp 222-261): the number of control
    points is computed from the number of knots. *)
Definition FindSpan2 (fuel : nat) (mfa : MFA_Data) (cur_dim : Z) (u : T) : M Z :=
  knots <- vget (all_knots (tmesh mfa)) cur_dim ;;
  pk <- vget (p mfa) cur_dim ;;
  FindSpan fuel mfa cur_dim u (Zlength' knots - pk - 1).

Definition findspan_range_msg : string :=
  "FindSpan(): Asking for parameter value outside of the knot min/max of the current tensor. This should not happen.".
Definition findspan_level_msg : string :=
  "FindSpan(): level mismatch at nctrl_pts. This should not happen.".
Definition findspan_mid_msg : string :=
  "FindSpan(): level mismatch at mid. This should not happen.".

(** [while (levels[mid] > tensor.level && mid > 0) mid--;] *)
Fixpoint level_walk (n : nat) (levels : list Z) (lev mid : Z) : M Z :=
  match n with
  | O => ret mid
  | S n' =>
      l <- vget levels mid ;;
      if (lev <? l) && (0 <? mid) then level_walk n' levels lev (mid - 1)
      else ret mid
  end.

(** [FindSpan(cur_dim, u, tensor)] (mfa_data.hpp 273-318); it answers -1
    after writing a diagnostic. *)
Definition FindSpan_tensor (fuel : nat) (mfa : MFA_Data) (cur_dim : Z) (u : T)
           (tensor : TensorProduct) : M Z :=
  knots <- vget (all_knots (tmesh mfa)) cur_dim ;;
  kmin <- vget (knot_mins tensor) cur_dim ;;
  klo <- vget knots kmin ;;
  out_of_range <-
    (if Tltb u klo then ret true
     else kmax <- vget (knot_maxs tensor) cur_dim ;;
          khi <- vget knots kmax ;;
          ret (Tltb khi u)) ;;
  if out_of_range : bool then warn findspan_range_msg ;;; ret (-1)
  else
    nc <- vget (nctrl_pts tensor) cur_dim ;;
    kn <- vget knots nc ;;
    levels <- vget (all_knot_levels (tmesh mfa)) cur_dim ;;
    if Teqb u kn then
      ln <- vget levels nc ;;
      if negb (ln =? level tensor) then warn findspan_level_msg ;;; ret (-1)
      else ret (nc - 1)
    else
      low <- vget (p mfa) cur_dim ;;
      mid <- FindSpan_loop fuel knots u low nc ((low + nc) ÷ 2) ;;
      mid <- level_walk (Z.to_nat mid + 1) levels (level tensor) mid ;;
      lm <- vget levels mid ;;
      if negb (lm =? level tensor) then warn findspan_mid_msg ;;; ret (-1)
      else ret mid.

(** Modelled from the spec: [VolIterator] (util.hpp is not among the
    sources). Sections 4.F and 9: a flat iterator over a cube of [npts(k)]
    points per dimension that keeps the multi-index of the current point
    (an explicit digit-carry integer, dimension 0 fastest), the multi-index
    before the last increment, and one "done" flag per dimension, set by the
    increment that completes a row of that dimension. *)
Record VolIterator : Type := mkVolIter {
  npts_dim     : list Z;
  vi_tot_iters : Z;
  cur_iter     : Z;
  idx_dim      : list Z;
  prev_idx_dim : list Z;
  done_dim     : list bool
}.

Definition VolIterator_new (npts : list Z) : VolIterator :=
  mkVolIter npts (Zprod npts) 0 (repeat 0 (length npts))
            (repeat 0 (length npts)) (repeat false (length npts)).

Definition vi_done (vi : VolIterator) : bool := vi_tot_iters vi <=? cur_iter vi.

Fixpoint carry (npts idx : list Z) (c : bool) : list Z * list bool :=
  match npts, idx with
  | n :: npts', i :: idx' =>
      let i1 := if c then i + 1 else i in
      if c && (i1 =? n) then
        let '(r, d) := carry npts' idx' true in (0 :: r, true :: d)
      else
        let '(r, d) := carry npts' idx' false in (i1 :: r, false :: d)
  | _, _ => ([], [])
  end.

Definition incr_iter (vi : VolIterator) : VolIterator :=
  let '(idx, dn) := carry (npts_dim vi) (idx_dim vi) true in
  mkVolIter (npts_dim vi) (vi_tot_iters vi) (cur_iter vi + 1) idx
            (idx_dim vi) dn.

(** Vector arithmetic of Eigen expressions *)
Definition vadd (a b : list T) : list T :=
  map (fun xy => (fst xy + snd xy)%Qc) (combine a b).
Definition vscale (c : T) (a : list T) : list T := map (fun x => (c * x)%Qc) a.
Definition vmul (a b : list T) : list T :=
  map (fun xy => (fst xy * snd xy)%Qc) (combine a b).

(** [v / denom], coefficient by coefficient *)
Fixpoint vdiv (v : list T) (denom : T) : M (list T) :=
  match v with
  | [] => ret []
  | x :: v' => y <- Tdiv x denom ;; r <- vdiv v' denom ;; ret (y :: r)
  end.

(** [m(i, j)] *)
Definition mget (m : list (list T)) (i j : Z) : M T :=
  r <- vget m i ;; vget r j.

(** [DecodeInfo] (decode.hpp 28-92), the parts [VolPt] uses. *)
Record DecodeInfo : Type := mkDI {
  di_N          : list (list (list T));
  di_temp       : list (list T);
  di_span       : list Z;
  di_temp_denom : list T;
  di_ders       : list (list (list T))
}.

(** [derivs.size() && derivs(i)] *)
Definition deriv_wanted (derivs : list Z) (i : Z) : M bool :=
  if Zlength' derivs =? 0 then ret false
  else d <- vget derivs i ;; ret (negb (d =? 0)).

Definition DecodeInfo_new (md : MFA_Data) (derivs : list Z) : M DecodeInfo :=
  t0 <- vget (tensor_prods (tmesh md)) 0 ;;
  let d := Z.to_nat (Zlength' (p md)) in
  let cols := mcols (ctrl_pts t0) in
  for_range 0 (dom_dim md)
    (fun i di =>
       temp <- vset (di_temp di) i (zeros cols) ;;
       n <- vget (nctrl_pts t0) i ;;
       N <- vset (di_N di) i (zero_matrix 1 n) ;;
       w <- deriv_wanted derivs i ;;
       if w : bool then
         dv <- vget derivs i ;;
         ders <- vset (di_ders di) i (zero_matrix (dv + 1) n) ;;
         ret (mkDI N temp (di_span di) (di_temp_denom di) ders)
       else ret (mkDI N temp (di_span di) (di_temp_denom di) (di_ders di)))
    (mkDI (repeat [] d) (repeat [] d) (repeat 0 d) (zeros (Z.of_nat d))
          (repeat [] d)).

Definition set_zero (v : list T) : list T := map (fun _ => T0) v.

(** [DecodeInfo::Reset] *)
Definition DecodeInfo_Reset (md : MFA_Data) (derivs : list Z) (di : DecodeInfo)
  : M DecodeInfo :=
  for_range 0 (dom_dim md)
    (fun i di =>
       ti <- vget (di_temp di) i ;;
       temp <- vset (di_temp di) i (set_zero ti) ;;
       Ni <- vget (di_N di) i ;;
       N <- vset (di_N di) i (map set_zero Ni) ;;
       w <- deriv_wanted derivs i ;;
       if w : bool then
         dsi <- vget (di_ders di) i ;;
         ders <- vset (di_ders di) i (map set_zero dsi) ;;
         ret (mkDI N temp (di_span di) (di_temp_denom di) ders)
       else ret (mkDI N temp (di_span di) (di_temp_denom di) (di_ders di)))
    (mkDI (di_N di) (di_temp di) (di_span di) (set_zero (di_temp_denom di))
          (di_ders di)).

Section Decoding.

(** [MFA_Data::DerBasisFuns] (mfa_data.hpp 828-929), the evaluator of basis
    function derivatives, is a parameter of the embedding: it is reached
    only when a derivative is asked for, and no property below asks for
    one. *)
Variable DerBasisFuns :
  MFA_Data -> Z -> T -> Z -> Z -> list (list T) -> M (list (list T)).

Variable cfg : Config.

(** The basis functions of all dimensions (decode.hpp 1121-1140). *)
Definition VolPt_basis (fuel : nat) (dec : Decoder) (param : list T)
           (tensor : TensorProduct) (derivs : list Z) (di : DecodeInfo)
  : M DecodeInfo :=
  let md := mfa_data dec in
  for_range 0 (dom_dim md)
    (fun i di =>
       u <- vget param i ;;
       sp <- FindSpan_tensor fuel md i u tensor ;;
       span <- vset (di_span di) i sp ;;
       w <- deriv_wanted derivs i ;;
       if w : bool then
         dv <- vget derivs i ;;
         dsi <- vget (di_ders di) i ;;
         dsi <- DerBasisFuns md i u sp dv dsi ;;
         ders <- vset (di_ders di) i dsi ;;
         r <- vget dsi dv ;;
         Ni <- vget (di_N di) i ;;
         Ni <- vset Ni 0 r ;;
         N <- vset (di_N di) i Ni ;;
         ret (mkDI N (di_temp di) span (di_temp_denom di) ders)
       else
         Ni <- vget (di_N di) i ;;
         Ni <- OrigBasisFuns md i u sp Ni 0 ;;
         N <- vset (di_N di) i Ni ;;
         ret (mkDI N (di_temp di) span (di_temp_denom di) (di_ders di)))
    di.

(** One round of the loop [while (!vol_iter.done())] (decode.hpp 1148-1182).
    The state is the iterator, the scratch sums and [di.ctrl_idx]. *)
Definition VolPt_step (dec : Decoder) (tensor : TensorProduct)
           (last start_ctrl_idx : Z)
           (st : VolIterator * DecodeInfo * Z)
  : M (VolIterator * DecodeInfo * Z) :=
  let md := mfa_data dec in
  let '(vol_iter, di, ctrl_idx) := st in
  ctrl_pt <- vget (ctrl_pts tensor) ctrl_idx ;;
  w <- vget (weights tensor) ctrl_idx ;;
  i0 <- vget (idx_dim vol_iter) 0 ;;
  s0 <- vget (di_span di) 0 ;;
  p0 <- vget (p md) 0 ;;
  N0 <- vget (di_N di) 0 ;;
  n0 <- mget N0 0 (i0 + s0 - p0) ;;
  t0 <- vget (di_temp di) 0 ;;
  t0 <-
    (if WEIGH_ALL_DIMS cfg then
       ret (vadd t0 (map (fun c => (n0 * c * w)%Qc) ctrl_pt))
     else
       t0 <- for_range 0 last
               (fun j t0 =>
                  tj <- vget t0 j ;; cj <- vget ctrl_pt j ;;
                  vset t0 j (tj + n0 * cj)%Qc)
               t0 ;;
       tl <- vget t0 last ;; cl <- vget ctrl_pt last ;;
       vset t0 last (tl + n0 * cl * w)%Qc) ;;
  temp <- vset (di_temp di) 0 t0 ;;
  d0 <- vget (di_temp_denom di) 0 ;;
  temp_denom <- vset (di_temp_denom di) 0 (d0 + w * n0)%Qc ;;
  let vol_iter := incr_iter vol_iter in
  ' (temp, temp_denom, ctrl_idx) <-
    for_range 0 (dom_dim md)
      (fun k '(temp, temp_denom, ctrl_idx) =>
         ctrl_idx <-
           (if cur_iter vol_iter <? vi_tot_iters vol_iter then
              r <- vget (ct dec) (cur_iter vol_iter) ;;
              c <- vget r k ;;
              csk <- vget (cs dec) k ;;
              ret (ctrl_idx + c * csk)
            else ret ctrl_idx) ;;
         dk <- (if k <? dom_dim md - 1 then vget (done_dim vol_iter) k
                else ret false) ;;
         if dk : bool then
           pi <- vget (prev_idx_dim vol_iter) (k + 1) ;;
           s1 <- vget (di_span di) (k + 1) ;;
           p1 <- vget (p md) (k + 1) ;;
           N1 <- vget (di_N di) (k + 1) ;;
           n1 <- mget N1 0 (pi + s1 - p1) ;;
           tk1 <- vget temp (k + 1) ;;
           tk <- vget temp k ;;
           temp <- vset temp (k + 1) (vadd tk1 (vscale n1 tk)) ;;
           dk1 <- vget temp_denom (k + 1) ;;
           dk0 <- vget temp_denom k ;;
           temp_denom <- vset temp_denom (k + 1) (dk1 + dk0 * n1)%Qc ;;
           temp_denom <- vset temp_denom k T0 ;;
           tk <- vget temp k ;;
           temp <- vset temp k (set_zero tk) ;;
           ret (temp, temp_denom, ctrl_idx)
         else ret (temp, temp_denom, ctrl_idx))
      (temp, temp_denom, start_ctrl_idx) ;;
  ret (vol_iter,
       mkDI (di_N di) temp (di_span di) temp_denom (di_ders di),
       ctrl_idx).

(** The closing normalisation (decode.hpp 1184-1195). *)
Definition VolPt_finish (dec : Decoder) (last : Z) (derivs : list Z)
           (di : DecodeInfo) : M (list T) :=
  let md := mfa_data dec in
  denom <-
    (if negb (Zlength' derivs =? 0) && negb (fold_right Z.add 0 derivs =? 0)
     then ret T1
     else vget (di_temp_denom di) (dom_dim md - 1)) ;;
  t <- vget (di_temp di) (dom_dim md - 1) ;;
  if WEIGH_ALL_DIMS cfg then vdiv t denom
  else
    x <- vget t last ;;
    y <- Tdiv x denom ;;
    vset t last y.

(** [Decoder::VolPt(param, out_pt, di, tensor, derivs)]
    (decode.hpp 1092-1196). *)
Definition VolPt (fuel : nat) (dec : Decoder) (param : list T)
           (di : DecodeInfo) (tensor : TensorProduct) (derivs : list Z)
  : M (list T * DecodeInfo) :=
  let md := mfa_data dec in
  let last := mcols (ctrl_pts tensor) - 1 in
  VolPt_check_derivs dec derivs ;;;
  di <- DecodeInfo_Reset md derivs di ;;
  let vol_iter := VolIterator_new (map (fun x => x + 1) (p md)) in
  di <- VolPt_basis fuel dec param tensor derivs di ;;
  ctrl_idx <-
    for_range 0 (dom_dim md)
      (fun j acc =>
         sj <- vget (di_span di) j ;;
         pj <- vget (p md) j ;;
         r0 <- vget (ct dec) 0 ;;
         c <- vget r0 j ;;
         csj <- vget (cs dec) j ;;
         ret (acc + (sj - pj + c) * csj))
      0 ;;
  ' (_, di, _) <-
    for_n (Z.to_nat (vi_tot_iters vol_iter)) 0
      (fun _ st => VolPt_step dec tensor last ctrl_idx st)
      (vol_iter, di, ctrl_idx) ;;
  out_pt <- VolPt_finish dec last derivs di ;;
  ret (out_pt, di).

(** [Decoder::CurvePt] (decode.hpp 1413-1445) *)
Definition CurvePt (fuel : nat) (dec : Decoder) (cur_dim : Z) (param : T)
           (temp_ctrl : list (list T)) (temp_weights : list T)
           (tensor : TensorProduct) : M (list T) :=
  let md := mfa_data dec in
  span <- FindSpan_tensor fuel md cur_dim param tensor ;;
  N <- OrigBasisFuns md cur_dim param span [zeros (Zlength' temp_ctrl)] 0 ;;
  pk <- vget (p md) cur_dim ;;
  out_pt <-
    for_range 0 (pk + 1)
      (fun j out_pt =>
         n <- mget N 0 (j + span - pk) ;;
         c <- vget temp_ctrl (span - pk + j) ;;
         w <- vget temp_weights (span - pk + j) ;;
         ret (vadd out_pt (map (fun x => (n * x * w)%Qc) c)))
      (zeros (mcols temp_ctrl)) ;;
  N0 <- vget N 0 ;;
  vdiv out_pt (Tsum (vmul N0 temp_weights)).

End Decoding.

(** The first tensor product of [ex_mfa7] as [set_knots] lays it out: it
    spans the whole knot vector. *)
Definition ex_tensor7 : TensorProduct :=
  mkTensor [0] [10] [7] ex_curve7 ex_weights7 0.

(** ** [MFA_Data::ExistCurveKnotIns] (mfa_data.hpp 1246-1301): the control
       points of a curve for a knot that is already in [tmesh.all_knots]. *)
Definition ExistCurveKnotIns (mfa : MFA_Data) (cur_dim inserted_knot_idx : Z)
           (old_ctrl_pts : list (list T)) (old_weights : list T)
           (u : T) (lev : Z)
  : M (list (list T) * list T) :=
  let rows := Zlength' old_ctrl_pts in
  let cols := mcols old_ctrl_pts in
  let new_ctrl_pts := zero_matrix (rows + 1) cols in
  let new_weights := zeros (Zlength' old_weights + 1) in
  pk <- vget (p mfa) cur_dim ;;
  let temp_ctrl_pts := zero_matrix (pk + 1) cols in
  let temp_weights := zeros (pk + 1) in
  let span := inserted_knot_idx - 1 in
  (* save unaltered control points and weights *)
  ' (new_ctrl_pts, new_weights) <-
    for_range 0 (span - pk + 1)
      (fun i '(nc, nw) =>
         c <- vget old_ctrl_pts i ;; nc <- vset nc i c ;;
         w <- vget old_weights i ;; nw <- vset nw i w ;;
         ret (nc, nw))
      (new_ctrl_pts, new_weights) ;;
  ' (new_ctrl_pts, new_weights) <-
    for_range span rows
      (fun i '(nc, nw) =>
         c <- vget old_ctrl_pts i ;; nc <- vset nc (i + 1) c ;;
         w <- vget old_weights i ;; nw <- vset nw (i + 1) w ;;
         ret (nc, nw))
      (new_ctrl_pts, new_weights) ;;
  ' (temp_ctrl_pts, temp_weights) <-
    for_range 0 (pk + 1)
      (fun i '(tc, tw) =>
         c <- vget old_ctrl_pts (span - pk + i) ;; tc <- vset tc i c ;;
         w <- vget old_weights (span - pk + i) ;; tw <- vset tw i w ;;
         ret (tc, tw))
      (temp_ctrl_pts, temp_weights) ;;
  (* insert the new control point; the knot is already in the vector, hence
     [i + span + 2] where NewCurveKnotIns has [i + span + 1] *)
  let L := span - pk + 1 in
  ' (temp_ctrl_pts, temp_weights) <-
    for_range 0 pk
      (fun i '(tc, tw) =>
         knots <- vget (all_knots (tmesh mfa)) cur_dim ;;
         ka <- vget knots (L + i) ;;
         kb <- vget knots (i + span + 2) ;;
         alpha <- Tdiv (u - ka)%Qc (kb - ka)%Qc ;;
         c1 <- vget tc (i + 1) ;; c0 <- vget tc i ;;
         tc <- vset tc i (affine_row alpha c1 c0) ;;
         w1 <- vget tw (i + 1) ;; w0 <- vget tw i ;;
         tw <- vset tw i (affine alpha w1 w0) ;;
         ret (tc, tw))
      (temp_ctrl_pts, temp_weights) ;;
  c <- vget temp_ctrl_pts 0 ;; new_ctrl_pts <- vset new_ctrl_pts L c ;;
  w <- vget temp_weights 0 ;; new_weights <- vset new_weights L w ;;
  c <- vget temp_ctrl_pts (pk - 1) ;; new_ctrl_pts <- vset new_ctrl_pts span c ;;
  w <- vget temp_weights (pk - 1) ;; new_weights <- vset new_weights span w ;;
  (* load remaining control points *)
  ' (new_ctrl_pts, new_weights) <-
    for_range (L + 1) span
      (fun i '(nc, nw) =>
         c <- vget temp_ctrl_pts (i - L) ;; nc <- vset nc i c ;;
         w <- vget temp_weights (i - L) ;; nw <- vset nw i w ;;
         ret (nc, nw))
      (new_ctrl_pts, new_weights) ;;
  ret (new_ctrl_pts, new_weights).

(** ** [MFA_Data::CtrlPts2CtrlCurve] and [MFA_Data::CtrlCurve2CtrlPts]
       (mfa_data.hpp 1640-1678): one control curve of the tensor product,
       the points [co], [co + cs], [co + 2 cs], ... *)
Definition CtrlPts2CtrlCurve (all_ctrl_pts : list (list T))
           (all_weights : list T) (nctrl : list Z) (cur_dim co cs : Z)
  : M (list (list T) * list T) :=
  n <- vget nctrl cur_dim ;;
  for_range 0 n
    (fun i '(cc, cw) =>
       c <- vget all_ctrl_pts (co + i * cs) ;; cc <- vset cc i c ;;
       w <- vget all_weights (co + i * cs) ;; cw <- vset cw i w ;;
       ret (cc, cw))
    (zero_matrix n (mcols all_ctrl_pts), zeros n).

(** [m.row(k) = r]: the two rows have to have the same size; the matrix is
    not resized by the assignment to one of its rows. *)
Definition row_assign (m : list (list T)) (k : Z) (r : list T)
  : M (list (list T)) :=
  old <- vget m k ;;
  if Zlength' old =? Zlength' r then vset m k r else fail Undefined.

(** The full sets are not resized. *)
Definition CtrlCurve2CtrlPts (curve_ctrl_pts : list (list T))
           (curve_weights : list T) (all_ctrl_pts : list (list T))
           (all_weights : list T) (nctrl : list Z) (cur_dim co cs : Z)
  : M (list (list T) * list T) :=
  n <- vget nctrl cur_dim ;;
  for_range 0 n
    (fun i '(ac, aw) =>
       c <- vget curve_ctrl_pts i ;; ac <- row_assign ac (co + i * cs) c ;;
       w <- vget curve_weights i ;; aw <- vset aw (co + i * cs) w ;;
       ret (ac, aw))
    (all_ctrl_pts, all_weights).

(** A 3 x 2 tensor product of scalar control points 0, ..., 5 with unit
    weights; its curves in dimension 1 have stride 3. *)
Definition ex_all6 : list (list T) :=
  map (fun q => [Q2Qc q]) [0; 1; 2; 3; 4; 5]%Q.
Definition ex_allw6 : list T := repeat T1 6.
Definition ex_cc2 : list (list T) := map (fun q => [Q2Qc q]) [7; 8]%Q.
Definition ex_cw2 : list T := map Q2Qc [2; 3]%Q.

(** ** [MFA_Data::uniform_knots_impl_unstructured] (mfa_data.hpp 1821-1849) *)

(** An [int] converted to [T]. *)
Definition TofZ (z : Z) : T := Q2Qc (inject_Z z).

(** [tmesh.all_knots[k][i] = v] and [tmesh.all_knots[k][i]] *)
Definition set_knot (ak : list (list T)) (k i : Z) (v : T)
  : M (list (list T)) :=
  ks <- vget ak k ;; ks <- vset ks i v ;; vset ak k ks.

Definition get_knot (ak : list (list T)) (k i : Z) : M T :=
  ks <- vget ak k ;; vget ks i.

Definition uniform_warn1 : string :=
  "Warning: Unstable build, tmesh.all_knot_param_idxs remain uninitialized".
Definition uniform_warn2 : string :=
  "  => tmesh.insert_knot() and tmesh.domain_pts() will not be valid".
Definition uniform_warn3 : string :=
  "  => use of NewKnots class will not be valid".

(** The knot vectors are assumed allocated by the caller; [dom_dim] is
    [p.size()], never negative. *)
Definition uniform_knots_impl_unstructured (mfa : MFA_Data) (tm : Tmesh)
  : M Tmesh :=
  warn uniform_warn1 ;;; warn uniform_warn2 ;;; warn uniform_warn3 ;;;
  ak <- for_range 0 (dom_dim mfa)
          (fun k ak =>
             t0 <- vget (tensor_prods tm) 0 ;;
             nc <- vget (nctrl_pts t0) k ;;
             pk <- vget (p mfa) k ;;
             let nknots := nc + pk + 1 in
             (* set p + 1 external knots at each end *)
             ak <- for_range 0 (pk + 1)
                     (fun i ak =>
                        ak <- set_knot ak k i T0 ;;
                        set_knot ak k (nknots - 1 - i) T1)
                     ak ;;
             (* compute remaining n - p internal knots *)
             step <- Tdiv T1 (TofZ (nc - pk)) ;;
             for_range 1 (nc - pk)
               (fun j ak =>
                  prev <- get_knot ak k (pk + j - 1) ;;
                  set_knot ak k (pk + j) (prev + step)%Qc)
               ak)
          (all_knots tm) ;;
  ret (mkTmesh ak (all_knot_levels tm) (all_knot_param_idxs tm)
               (tensor_prods tm)).

(** Statement side: the [c]-th knot of the uniform clamped vector of degree
    [pk] for [nc] control points. *)
Definition uniform_knot (pk nc c : Z) : T :=
  if c <=? pk then T0
  else if nc <=? c then T1
  else (TofZ (c - pk) / TofZ (nc - pk))%Qc.

(** Statement side: one allocated knot vector of [nc + pk + 1] entries per
    dimension, for degrees [0 <= pk < nc]. *)
Definition knots_allocated (pv ncs : list Z) (ak : list (list T)) : bool :=
  (length pv =? length ncs)%nat && (length pv =? length ak)%nat &&
  forallb (fun x => (0 <=? fst (fst x)) && (fst (fst x) <? snd (fst x)) &&
                    (Zlength' (snd x) =? snd (fst x) + fst (fst x) + 1))
          (combine (combine pv ncs) ak).

(** A model of two dimensions, of degrees 3 and 1 with 7 and 3 control
    points, whose knot vectors are allocated and not yet set. *)
Definition ex_tmesh2 : Tmesh :=
  mkTmesh [zeros 11; zeros 5] [repeat 0 11; repeat 0 5] [[]; []]
          [mkTensor [0; 0] [10; 4] [7; 3] [] [] 0].
Definition ex_mfa2 : MFA_Data := mkMFA 2 0 0 [3; 1] ex_tmesh2.

(** ** Statement side of [Decoder::CurvePt] *)

(** [f 0 + f 1 + ... + f (n - 1)] *)
Definition sumn (n : nat) (f : nat -> T) : T := Tsum (map f (seq 0 n)).

(** Coordinate [k] of the weighted sum of the control points [c0],
    [c0 + 1], ... with the basis values [vals], and the matching sum of
    weights. *)
Definition curve_num (vals : list T) (ctrl : list (list T)) (w : list T)
           (c0 k : Z) : T :=
  sumn (length vals)
       (fun j => (zth vals (Z.of_nat j) * zth (row ctrl (c0 + Z.of_nat j)) k
                  * zth w (c0 + Z.of_nat j))%Qc).

Definition curve_den (vals : list T) (w : list T) (c0 : Z) : T :=
  sumn (length vals)
       (fun j => (zth vals (Z.of_nat j) * zth w (c0 + Z.of_nat j))%Qc).

(** Every row of a matrix has [cols] entries. *)
Definition rectangular (m : list (list T)) (cols : Z) : bool :=
  forallb (fun r => Zlength' r =? cols) m.


(** [ex_mfa7] with its tensor product, and the decoder constructed on it. *)
Definition ex_mfa7t : MFA_Data :=
  mkMFA 1 0 0 [3] (mkTmesh [ex_knots7] [ex_levels7] [[]] [ex_tensor7]).

Definition ex_dec7 : Decoder :=
  mkDecoder ex_mfa7t 1 4 [[0]; [1]; [2]; [3]] [1] [1] [0; 1; 2; 3] 4 [4]
            0 false.


(** Statement side of the decoder's tables. *)

(** [r . c] for integer vectors *)
Definition dotZ (r c : list Z) : Z :=
  fold_right Z.add 0 (map (fun rc => fst rc * snd rc) (combine r c)).

(** [acc; acc * v0; acc * v0 * v1; ...], as many entries as [v] has. *)
Fixpoint prefix_prods (acc : Z) (v : list Z) : list Z :=
  match v with
  | [] => []
  | x :: v' => acc :: prefix_prods (acc * x) v'
  end.

Definition rowZ (m : list (list Z)) (i : Z) : list Z := nth (Z.to_nat i) m [].

(** A model of two dimensions with its tensor product of 7 x 3 control
    points. *)
Definition ex_mfa2t : MFA_Data :=
  mkMFA 2 0 0 [3; 1]
        (mkTmesh [zeros 11; zeros 5] [repeat 0 11; repeat 0 5] [[]; []]
                 [mkTensor [0; 0] [10; 4] [7; 3] (repeat [T0] 21)
                           (repeat T1 21) 0]).


(** The encoder's view of [ex_mfa7t]: 20 input points in its one
    dimension. *)
Definition ex_enc7 : MFA := mkMFAenc ex_mfa7t [20] [[]] [1].


(** ** [MFA_Data::OneBasisFun] for a local knot vector
       (mfa_data.hpp 695-754) *)

(** The scan [for (j = 0; j < p + 1; j++) if (loc_knots[1 + j] != 1.0)
    { edge = false; break; }] *)
Fixpoint one_edge_scan (n : nat) (j : Z) (loc_knots : list T) : M bool :=
  match n with
  | O => ret true
  | S n' =>
      k <- vget loc_knots (1 + j) ;;
      if Teqb k T1 then one_edge_scan n' (j + 1) loc_knots else ret false
  end.

Definition OneBasisFun (mfa : MFA_Data) (cur_dim : Z) (u : T)
           (loc_knots : list T) : M T :=
  pk <- vget (p mfa) cur_dim ;;
  let N := zeros (pk + 1) in
  let U := loc_knots in
  (* corner case: 1 at right edge of local knot vector *)
  edge <- (if Teqb u T1 then one_edge_scan (Z.to_nat (pk + 1)) 0 loc_knots
           else ret false) ;;
  if edge : bool then ret T1
  else
    (* initialize 0-th degree functions *)
    N <- for_range 0 (pk + 1)
           (fun j N =>
              a <- vget U j ;;
              if Tleb a u then
                b <- vget U (j + 1) ;;
                if Tltb u b then vset N j T1 else vset N j T0
              else vset N j T0)
           N ;;
    (* compute triangular table *)
    N <- for_range 1 (pk + 1)
           (fun k N =>
              n0 <- vget N 0 ;;
              saved <-
                (if Teqb n0 T0 then ret T0
                 else u0 <- vget U 0 ;; uk <- vget U k ;;
                      Tdiv ((u - u0) * n0)%Qc (uk - u0)%Qc) ;;
              ' (N, _) <-
                for_range 0 (pk - k + 1)
                  (fun j '(N, saved) =>
                     uleft <- vget U (j + 1) ;;
                     uright <- vget U (j + k + 1) ;;
                     n1 <- vget N (j + 1) ;;
                     if Teqb n1 T0 then
                       N <- vset N j saved ;; ret (N, T0)
                     else
                       temp <- Tdiv n1 (uright - uleft)%Qc ;;
                       N <- vset N j (saved + (uright - u) * temp)%Qc ;;
                       ret (N, ((u - uleft) * temp)%Qc))
                  (N, saved) ;;
              ret N)
           N ;;
    vget N 0.


(** The local knots of the second basis function of [ex_knots7]. *)
Definition ex_loc7 : list T := map Q2Qc [0; 0; 0; 1 # 4; 1 # 2]%Q.


(** A curve of degree 0 (one constant piece): the knots 0 and 1 and one
    control point. *)
Definition ex_knots0 : list T := map Q2Qc [0; 1]%Q.
Definition ex_levels0 : list Z := [0; 0].
Definition ex_curve0 : list (list T) := [[T1]].
Definition ex_weights0 : list T := [T1].
Definition ex_mfa0 : MFA_Data :=
  mkMFA 1 0 0 [0] (mkTmesh [ex_knots0] [ex_levels0] [[]] []).

(** A computation that writes nothing to stderr and does not terminate the
    process (statement side). *)
Definition quiet {A} (m : M A) : Prop :=
  fst m = [] /\ forall status, snd m <> Fail (Exit status).

(** * The recurrence in IEEE-754 binary64

    [OrigBasisFuns] once more, with the scalar type [double]: the
    operations are those of the Standard Library's executable specification
    of IEEE-754 arithmetic (round to nearest, ties to even), and a division
    by zero yields an infinity or a NaN instead of failing. *)
Module Binary64.

Definition F : Type := SpecFloat.spec_float.
Definition prec : Z := 53.
Definition emax : Z := 1024.

Definition Fadd : F -> F -> F := SpecFloat.SFadd prec emax.
Definition Fsub : F -> F -> F := SpecFloat.SFsub prec emax.
Definition Fmul : F -> F -> F := SpecFloat.SFmul prec emax.
Definition Fdiv : F -> F -> F := SpecFloat.SFdiv prec emax.

(** The double of an integer, and of a decimal literal [n / d]: the double
    nearest to the quotient. *)
Definition of_Z (z : Z) : F := SpecFloat.binary_normalize prec emax z 0 false.
Definition lit (n d : Z) : F := Fdiv (of_Z n) (of_Z d).


Definition F0 : F := SpecFloat.S754_zero false.
Definition F1 : F := of_Z 1.


(** The rational number a finite double stands for. *)
Definition exact (x : F) : option Q :=
  match x with
  | SpecFloat.S754_zero _ => Some 0%Q
  | SpecFloat.S754_finite s m e =>
      let v := if 0 <=? e then inject_Z (Zpos m * 2 ^ e)
               else (Zpos m # Pos.pow 2 (Z.to_pos (- e)))%Q in
      Some (if s then Qopp v else v)
  | _ => None
  end.


Definition zeros (n : Z) : list F := repeat F0 (Z.to_nat n).

Definition basis_recurrence (knots : list F) (u : F) (span pk : Z)
           (scratch left right : list F)
  : M (list F * list F * list F) :=
  for_range 1 (pk + 1)
    (fun j '(scratch, left, right) =>
       kl <- vget knots (span + 1 - j) ;;
       left <- vset left j (Fsub u kl) ;;
       kr <- vget knots (span + j) ;;
       right <- vset right j (Fsub kr u) ;;
       ' (scratch, saved) <-
         for_range 0 j
           (fun r '(scratch, saved) =>
              sr <- vget scratch r ;;
              rr <- vget right (r + 1) ;;
              lj <- vget left (j - r) ;;
              let temp := Fdiv sr (Fadd rr lj) in
              scratch <- vset scratch r (Fadd saved (Fmul rr temp)) ;;
              ret (scratch, Fmul lj temp))
           (scratch, F0) ;;
       scratch <- vset scratch j saved ;;
       ret (scratch, left, right))
    (scratch, left, right).

(** [MFA_Data::OrigBasisFuns] (mfa_data.hpp 325-369); [p] and [all_knots]
    are the members [p] and [tmesh.all_knots] it reads. *)
Definition OrigBasisFuns (p : list Z) (all_knots : list (list F))
           (cur_dim : Z) (u : F) (span : Z)
           (N : list (list F)) (row : Z) : M (list (list F)) :=
  Nrow <- vget N row ;;
  let Nrow := map (fun _ => F0) Nrow in                (* N.row(row).setZero() *)
  pk <- vget p cur_dim ;;
  scratch <- vset (zeros (pk + 1)) 0 F1 ;;
  knots <- vget all_knots cur_dim ;;
  ' (scratch, _, _) <-
    basis_recurrence knots u span pk scratch (zeros (pk + 1)) (zeros (pk + 1)) ;;
  Nrow <- for_range 0 (pk + 1)
            (fun j Nrow =>
               sj <- vget scratch j ;;
               vset Nrow (span - pk + j) sj)
            Nrow ;;
  vset N row Nrow.

(** The knots of [ex_knots7] and of [ex_knots_flat] as doubles; all of them
    are represented exactly. *)
Definition ex_knots7 : list F :=
  [F0; F0; F0; F0; lit 1 4; lit 1 2; lit 3 4; F1; F1; F1; F1].
Definition ex_knots_flat : list F := [F0; F0; F1; F1; F1; F1].

End Binary64.


(** A curve of degree 1 with three control points whose weights are all
    zero, the decoder constructed on it and its freshly allocated
    [DecodeInfo]. *)
Definition ex_tensor3z : TensorProduct :=
  mkTensor [0] [4] [3] ex_curve3 (zeros 3) 0.
Definition ex_mfa3z : MFA_Data :=
  mkMFA 1 0 0 [1] (mkTmesh [ex_knots3] [repeat 0 5] [[]] [ex_tensor3z]).
Definition ex_dec3z : Decoder :=
  mkDecoder ex_mfa3z 1 2 [[0]; [1]] [1] [1] [0; 1] 2 [2] 0 false.
Definition ex_di3z : DecodeInfo := mkDI [[zeros 3]] [[T0]] [0] [T0] [[]].

(** ** [FastDecodeInfo] and [Decoder::FastVolPt]
       (decode.hpp 96-146 and 1341-1407) *)

(** [FastDecodeInfo], the parts [FastVolPt] uses: the scratch vectors of the
    basis functions, one vector of basis values per dimension, the
    intermediate sums [t] and the spans. *)
Record FastDecodeInfo : Type := mkFDI {
  fdi_bfi  : BasisFunInfo;
  fdi_N    : list (list T);
  fdi_t    : list (list T);
  fdi_span : list Z
}.

(** [FastDecodeInfo(decoder)]: [N[i]] has [q[i]] entries, [t[i]] has
    [tot_iters / ds[i+1]] entries and the last [t] has one. *)
Definition FastDecodeInfo_new (dec : Decoder) : M FastDecodeInfo :=
  let d := d_dom_dim dec in
  N <- for_range 0 d
         (fun i N => qi <- vget (q dec) i ;; vset N i (zeros qi))
         (repeat [] (Z.to_nat d)) ;;
  t <- for_range 0 (d - 1)
         (fun i t =>
            dsi <- vget (ds dec) (i + 1) ;;
            n <- Zdiv_int (tot_iters dec) dsi ;;
            vset t i (zeros n))
         (repeat [] (Z.to_nat d)) ;;
  t <- vset t (d - 1) (zeros 1) ;;
  ret (mkFDI (BasisFunInfo_new (q dec)) N t (repeat 0 (Z.to_nat d))).

(** [m(i)] on a matrix: the coefficient of linear index [i] in column-major
    storage. *)
Definition mlin (m : list (list T)) (i : Z) : M T :=
  let rows := Zlength' m in
  if (0 <=? i) && (i <? rows * mcols m) then mget m (i mod rows) (i / rows)
  else fail Undefined.

(** [for (m = 0, id = 0; m < n; m += step, id++)]; with a step that is not
    positive the loop does not end. *)
Definition for_stride {St : Type} (n step : Z) (body : Z -> Z -> St -> M St)
           (s : St) : M St :=
  if step <=? 0 then (if 0 <? n then fail Timeout else ret s)
  else for_range 0 ((n + step - 1) / step)
                 (fun id s => body (id * step) id s) s.

Definition fastvolpt_weights_msg : string :=
  "ERROR: Must define MFA_NO_WEIGHTS to use FastVolPt".

Definition FastVolPt (cfg : Config) (fuel : nat) (dec : Decoder)
           (param out_pt : list T) (di : FastDecodeInfo)
           (tensor : TensorProduct) : M (list T * FastDecodeInfo) :=
  let md := mfa_data dec in
  if negb (MFA_NO_WEIGHTS cfg) then exit_with fastvolpt_weights_msg 1
  else
    (* spans and basis functions *)
    ' (span, N, bfi) <-
      for_range 0 (d_dom_dim dec)
        (fun i '(span, N, bfi) =>
           u <- vget param i ;;
           sp <- FindSpan2 fuel md i u ;;
           span <- vset span i sp ;;
           Ni <- vget N i ;;
           ' (Ni, bfi) <- FastBasisFuns md i u sp Ni bfi ;;
           N <- vset N i Ni ;;
           ret (span, N, bfi))
        (fdi_span di, fdi_N di, fdi_bfi di) ;;
    (* linear index of the first control point *)
    start_ctrl_idx <-
      for_range 0 (dom_dim md)
        (fun j acc =>
           sj <- vget span j ;;
           pj <- vget (p md) j ;;
           csj <- vget (cs dec) j ;;
           ret (acc + (sj - pj) * csj))
        0 ;;
    (* first dimension: basis functions times control points *)
    t <-
      for_stride (tot_iters dec) (q0 dec)
        (fun m id t =>
           jm <- vget (jumps dec) m ;;
           let ctrl_idx := start_ctrl_idx + jm in
           N0 <- vget N 0 ;;
           n00 <- vget N0 0 ;;
           c <- mlin (ctrl_pts tensor) ctrl_idx ;;
           t0 <- vget t 0 ;;
           t0 <- vset t0 id (n00 * c)%Qc ;;
           t0 <- for_range 1 (q0 dec)
                   (fun a t0 =>
                      n0a <- vget N0 a ;;
                      c <- mlin (ctrl_pts tensor) (ctrl_idx + a) ;;
                      x <- vget t0 id ;;
                      vset t0 id (x + n0a * c)%Qc)
                   t0 ;;
           vset t 0 t0)
        (fdi_t di) ;;
    (* the other dimensions: basis functions times the sums before *)
    t <-
      for_range 1 (dom_dim md)
        (fun k t =>
           qcur <- vget (q dec) k ;;
           tprev <- vget t (k - 1) ;;
           for_stride (Zlength' tprev) qcur
             (fun m id t =>
                Nk <- vget N k ;;
                nk0 <- vget Nk 0 ;;
                tprev <- vget t (k - 1) ;;
                x <- vget tprev m ;;
                tk <- vget t k ;;
                tk <- vset tk id (nk0 * x)%Qc ;;
                tk <- for_range 1 qcur
                        (fun l tk =>
                           nkl <- vget Nk l ;;
                           y <- vget tprev (m + l) ;;
                           x <- vget tk id ;;
                           vset tk id (x + nkl * y)%Qc)
                        tk ;;
                vset t k tk)
             t)
        t ;;
    tl <- vget t (dom_dim md - 1) ;;
    v <- vget tl 0 ;;
    out_pt <- vset out_pt 0 v ;;
    ret (out_pt, mkFDI bfi N t span).

(** The curve of [ex_mfa3] as a decoded model: degree 1, unit weights, all
    knots of level 0; the decoder constructed on it and its freshly
    allocated scratch structures. *)
Definition ex_tensor3 : TensorProduct :=
  mkTensor [0] [4] [3] ex_curve3 ex_weights3 0.
Definition ex_mfa3t : MFA_Data :=
  mkMFA 1 0 0 [1] (mkTmesh [ex_knots3] [repeat 0 5] [[]] [ex_tensor3]).
Definition ex_dec3 : Decoder :=
  mkDecoder ex_mfa3t 1 2 [[0]; [1]] [1] [1] [0; 1] 2 [2] 0 false.
Definition ex_fdi3 : FastDecodeInfo :=
  mkFDI (BasisFunInfo_new [2]) [zeros 2] [zeros 1] [0].

(* ================================================================== *)
(** * Properties *)
(* ================================================================== *)

(** ** Scalars: the bridge from [Qc] to linear arithmetic over [Q] *)

Lemma this_plus (x y : Qc) : (this (x + y) == this x + this y)%Q.
Proof. unfold Qcplus. cbn [this Q2Qc]. apply Qred_correct. Qed.

Lemma this_mult (x y : Qc) : (this (x * y) == this x * this y)%Q.
Proof. unfold Qcmult. cbn [this Q2Qc]. apply Qred_correct. Qed.

Lemma this_opp (x : Qc) : (this (- x) == - this x)%Q.
Proof. unfold Qcopp. cbn [this Q2Qc]. apply Qred_correct. Qed.

Lemma this_minus (x y : Qc) : (this (x - y) == this x - this y)%Q.
Proof. unfold Qcminus. rewrite this_plus, this_opp. reflexivity. Qed.

Lemma this_inv (x : Qc) : (this (/ x) == / this x)%Q.
Proof. unfold Qcinv. cbn [this Q2Qc]. apply Qred_correct. Qed.

Lemma this_div (x y : Qc) : (this (x / y) == this x / this y)%Q.
Proof. unfold Qcdiv. rewrite this_mult, this_inv. reflexivity. Qed.

Lemma Qc_eq_this (x y : Qc) : x = y <-> (this x == this y)%Q.
Proof. split; [intros ->; reflexivity | apply Qc_is_canon]. Qed.

Lemma this_inj (x y : Qc) : this x = this y -> x = y.
Proof. intros H. apply Qc_is_canon. rewrite H. reflexivity. Qed.

Ltac qc_push :=
  repeat match goal with
  | |- context [this (Qcminus ?a ?b)] => rewrite (this_minus a b)
  | |- context [this (Qcdiv ?a ?b)] => rewrite (this_div a b)
  | |- context [this (Qcplus ?a ?b)] => rewrite (this_plus a b)
  | |- context [this (Qcmult ?a ?b)] => rewrite (this_mult a b)
  | |- context [this (Qcopp ?a)] => rewrite (this_opp a)
  | |- context [this (Qcinv ?a)] => rewrite (this_inv a)
  | H : context [this (Qcminus ?a ?b)] |- _ => rewrite (this_minus a b) in H
  | H : context [this (Qcdiv ?a ?b)] |- _ => rewrite (this_div a b) in H
  | H : context [this (Qcplus ?a ?b)] |- _ => rewrite (this_plus a b) in H
  | H : context [this (Qcmult ?a ?b)] |- _ => rewrite (this_mult a b) in H
  | H : context [this (Qcopp ?a)] |- _ => rewrite (this_opp a) in H
  | H : context [this (Qcinv ?a)] |- _ => rewrite (this_inv a) in H
  end.

Ltac qc_prep :=
  repeat match goal with
  | H : @eq Qc _ _ |- _ => apply Qc_eq_this in H
  | H : ~ @eq Qc _ _ |- _ => rewrite Qc_eq_this in H
  | |- @eq Qc _ _ => apply Qc_eq_this
  | |- ~ @eq Qc _ _ => rewrite Qc_eq_this
  end;
  unfold Qcle, Qclt in *; qc_push;
  change (this (Q2Qc 0)) with 0%Q in *;
  change (this (Q2Qc 1)) with 1%Q in *;
  change (this (Q2Qc 2)) with 2%Q in *.

Ltac qc_lra := qc_prep; lra.
Ltac qc_nra := qc_prep; nra.

Lemma Tltb_true (x y : T) : Tltb x y = true <-> (x < y)%Qc.
Proof.
  unfold Tltb. destruct (Qclt_le_dec x y) as [H | H]; split; intros; auto.
  - discriminate.
  - exfalso. eapply Qcle_not_lt; eauto.
Qed.

Lemma Tltb_false (x y : T) : Tltb x y = false <-> (y <= x)%Qc.
Proof.
  unfold Tltb. destruct (Qclt_le_dec x y) as [H | H]; split; intros; auto.
  - discriminate.
  - exfalso. eapply Qcle_not_lt; eauto.
Qed.

Lemma Tleb_true (x y : T) : Tleb x y = true <-> (x <= y)%Qc.
Proof.
  unfold Tleb. destruct (Qclt_le_dec y x) as [H | H]; split; intros; auto.
  - discriminate.
  - exfalso. eapply Qcle_not_lt; eauto.
Qed.

Lemma Tleb_false (x y : T) : Tleb x y = false <-> (y < x)%Qc.
Proof.
  unfold Tleb. destruct (Qclt_le_dec y x) as [H | H]; split; intros; auto.
  - discriminate.
  - exfalso. eapply Qcle_not_lt; eauto.
Qed.

Lemma Teqb_true (x y : T) : Teqb x y = true <-> x = y.
Proof. unfold Teqb. destruct (Qc_eq_dec x y); split; intros; congruence. Qed.

Lemma Teqb_false (x y : T) : Teqb x y = false <-> x <> y.
Proof. unfold Teqb. destruct (Qc_eq_dec x y); split; intros; congruence. Qed.

(** ** The monad *)

Lemma bind_ret_l {A B} (a : A) (k : A -> M B) : bind (ret a) k = k a.
Proof. unfold bind, ret. simpl. destruct (k a); reflexivity. Qed.

Lemma bind_fail_l {A B} (f : failure) (k : A -> M B) :
  bind (fail f) k = fail f.
Proof. reflexivity. Qed.

Lemma bind_ret_r {A} (m : M A) : bind m ret = m.
Proof.
  destruct m as [l [a | f]]; unfold bind, ret; simpl; auto.
  now rewrite app_nil_r.
Qed.

Lemma bind_assoc {A B C} (m : M A) (k : A -> M B) (h : B -> M C) :
  bind (bind m k) h = bind m (fun a => bind (k a) h).
Proof.
  destruct m as [l [a | f]]; unfold bind; simpl; auto.
  destruct (k a) as [l' [b | f]]; simpl; auto.
  now rewrite app_assoc.
Qed.

(** ** Vectors *)

Lemma vget_zth (v : list T) (i : Z) :
  0 <= i < Zlength' v -> vget v i = ret (zth v i).
Proof.
  intros [H0 H1]. unfold vget, zth, Zlength' in *.
  destruct (i <? 0) eqn:E; [apply Z.ltb_lt in E; lia |].
  destruct (nth_error v (Z.to_nat i)) eqn:E1.
  - now rewrite (nth_error_nth _ _ _ E1).
  - apply nth_error_None in E1. lia.
Qed.

Lemma vget_nth_error {A} (v : list A) (i : Z) (a : A) :
  vget v i = ret a <-> 0 <= i /\ nth_error v (Z.to_nat i) = Some a.
Proof.
  unfold vget. destruct (i <? 0) eqn:E.
  - apply Z.ltb_lt in E. split; [discriminate | lia].
  - apply Z.ltb_ge in E. destruct (nth_error v (Z.to_nat i)).
    + split; [intros [= ->]; auto | intros [_ [= ->]]; auto].
    + split; [discriminate | intros [_ ?]; discriminate].
Qed.

Lemma nondecreasing_zth (v : list T) :
  nondecreasing v = true ->
  forall i j, 0 <= i <= j -> j < Zlength' v -> (zth v i <= zth v j)%Qc.
Proof.
  unfold zth, Zlength'. intros H i j Hij Hj.
  assert (G : forall (n m : nat) (l : list T), nondecreasing l = true ->
            (n <= m < length l)%nat -> (nth n l T0 <= nth m l T0)%Qc).
  { clear. intros n m. revert n. induction m as [| m IH]; intros n l Hl Hn.
    - assert (n = 0%nat) by lia. subst. apply Qcle_refl.
    - destruct l as [| a [| b l']]; simpl in Hn; try lia.
      simpl in Hl. apply andb_prop in Hl as [Hab Hl].
      apply Tleb_true in Hab.
      destruct n as [| n].
      + apply Qcle_trans with (y := nth 0 (b :: l') T0).
        * exact Hab.
        * change (nth (S m) (a :: b :: l') T0) with (nth m (b :: l') T0).
          apply IH; auto. simpl. lia.
      + change (nth (S n) (a :: b :: l') T0) with (nth n (b :: l') T0).
        change (nth (S m) (a :: b :: l') T0) with (nth m (b :: l') T0).
        apply IH; auto. simpl. lia. }
  apply G; auto. lia.
Qed.

(** ** C2: span location *)

Lemma FindSpan_loop_spec (knots : list T) (u : T) (lo hi0 : Z) :
  forall (n : nat) (low high : Z),
    lo <= low -> low < high -> high <= hi0 -> 0 <= lo ->
    hi0 < Zlength' knots ->
    (zth knots low <= u)%Qc -> (u < zth knots high)%Qc ->
    (Z.to_nat (high - low) <= n)%nat ->
    exists i,
      (forall fuel, (n <= fuel)%nat ->
         FindSpan_loop fuel knots u low high ((low + high) ÷ 2) = ret i) /\
      lo <= i < hi0 /\
      (zth knots i <= u)%Qc /\ (u < zth knots (i + 1))%Qc.
Proof.
  induction n as [| n IH]; intros low high Hlo Hlt Hhi Hlo0 Hlen Hl Hh Hf.
  - lia.
  - assert (Hq : (low + high) ÷ 2 = (low + high) / 2)
      by (apply Z.quot_div_nonneg; lia).
    rewrite Hq. set (mid := (low + high) / 2).
    assert (Hmid : low <= mid < high).
    { unfold mid. Z.div_mod_to_equations. lia. }
    destruct (Tltb u (zth knots mid)) eqn:E1.
    + apply Tltb_true in E1.
      assert (mid <> low).
      { intros ->. eapply Qcle_not_lt; eauto. }
      destruct (IH low mid) as (i & Hi & Hr); auto; try lia.
      exists i. split; auto.
      intros [| fuel] Hfuel; [lia |]. cbn [FindSpan_loop].
      rewrite (vget_zth knots mid) by lia. rewrite bind_ret_l.
      apply Tltb_true in E1. rewrite E1. apply Hi. lia.
    + apply Tltb_false in E1.
      destruct (Tleb (zth knots (mid + 1)) u) eqn:E2.
      * apply Tleb_true in E2.
        assert (mid + 1 <> high).
        { intros Heq. rewrite Heq in E2. eapply Qcle_not_lt; eauto. }
        assert (mid <> low).
        { unfold mid in *. Z.div_mod_to_equations. lia. }
        destruct (IH mid high) as (i & Hi & Hr); auto; try lia.
        exists i. split; auto.
        intros [| fuel] Hfuel; [lia |]. cbn [FindSpan_loop].
        rewrite (vget_zth knots mid) by lia. rewrite bind_ret_l.
        apply Tltb_false in E1. rewrite E1.
        rewrite (vget_zth knots (mid + 1)) by lia. rewrite bind_ret_l.
        apply Tleb_true in E2. rewrite E2. apply Hi. lia.
      * exists mid. split; [| apply Tleb_false in E2; repeat split; auto; lia].
        intros [| fuel] Hfuel; [lia |]. cbn [FindSpan_loop].
        rewrite (vget_zth knots mid) by lia. rewrite bind_ret_l.
        apply Tltb_false in E1. rewrite E1.
        rewrite (vget_zth knots (mid + 1)) by lia. rewrite bind_ret_l.
        now rewrite E2.
Qed.

Lemma clamped_facts (pk nctrl : Z) (knots : list T) :
  clamped pk nctrl knots = true ->
  0 <= pk /\ pk < nctrl /\ Zlength' knots = nctrl + pk + 1.
Proof.
  unfold clamped. intros H.
  repeat (apply andb_prop in H as [H ?]).
  apply Z.leb_le in H. apply Z.ltb_lt in H3. apply Z.eqb_eq in H2. auto.
Qed.

(** Closed comparisons between literal rationals. *)
Ltac qc_dec :=
  vm_compute; try reflexivity; try discriminate; try (intro; discriminate).

(** C2. On a non-decreasing clamped knot vector and for [u] in
    [[knots[p], knots[nctrl]]], [FindSpan] terminates (any fuel of at least
    [nctrl - p] suffices) and returns an index [i] of [[p, nctrl - 1]] with
    [knots[i] <= u]; at the boundary [u == knots[nctrl]] the index is
    [nctrl - 1], everywhere else [u < knots[i + 1]]. *)
Theorem FindSpan_in_span (mfa : MFA_Data) (cur_dim : Z) (knots : list T)
        (pk nctrl : Z) (u : T) :
  vget (all_knots (tmesh mfa)) cur_dim = ret knots ->
  vget (p mfa) cur_dim = ret pk ->
  nondecreasing knots = true ->
  clamped pk nctrl knots = true ->
  (zth knots pk <= u)%Qc -> (u <= zth knots nctrl)%Qc ->
  exists i,
    (forall fuel, (Z.to_nat (nctrl - pk) <= fuel)%nat ->
                  FindSpan fuel mfa cur_dim u nctrl = ret i) /\
    pk <= i <= nctrl - 1 /\
    (zth knots i <= u)%Qc /\
    (u = zth knots nctrl -> i = nctrl - 1) /\
    (u <> zth knots nctrl -> (u < zth knots (i + 1))%Qc).
Proof.
  intros Hk Hp Hs Hc Hlo Hhi.
  destruct (clamped_facts _ _ _ Hc) as (Hp0 & Hpn & Hlen).
  destruct (Qc_eq_dec u (zth knots nctrl)) as [Heq | Hne].
  - exists (nctrl - 1). repeat split; try lia.
    + intros fuel _. unfold FindSpan. rewrite Hk, bind_ret_l.
      rewrite (vget_zth knots nctrl) by lia. rewrite bind_ret_l.
      apply Teqb_true in Heq. now rewrite Heq.
    + rewrite Heq. apply nondecreasing_zth; auto; lia.
    + intros; contradiction.
  - assert (Hlt : (u < zth knots nctrl)%Qc).
    { destruct (Qcle_lt_or_eq _ _ Hhi); auto. contradiction. }
    destruct (FindSpan_loop_spec knots u pk nctrl
                (Z.to_nat (nctrl - pk)) pk nctrl) as (i & Hi & Hr & Hl & Hu);
      auto; try lia.
    exists i. repeat split; auto; try lia; try (intros; contradiction).
    intros fuel Hf. unfold FindSpan. rewrite Hk, bind_ret_l.
    rewrite (vget_zth knots nctrl) by lia. rewrite bind_ret_l.
    apply Teqb_false in Hne. rewrite Hne.
    rewrite Hp, bind_ret_l. apply Hi; auto.
Qed.

Lemma FindSpan_in_span_witness :
  nondecreasing ex_knots7 = true /\ clamped 3 7 ex_knots7 = true /\
  exists i,
    (forall fuel, (Z.to_nat (7 - 3) <= fuel)%nat ->
                  FindSpan fuel ex_mfa7 0 (Q2Qc (3 # 10)) 7 = ret i) /\
    3 <= i <= 7 - 1 /\
    (zth ex_knots7 i <= Q2Qc (3 # 10))%Qc /\
    (Q2Qc (3 # 10) = zth ex_knots7 7 -> i = 7 - 1) /\
    (Q2Qc (3 # 10) <> zth ex_knots7 7 ->
     (Q2Qc (3 # 10) < zth ex_knots7 (i + 1))%Qc).
Proof.
  split; [reflexivity | split; [reflexivity |]].
  apply (FindSpan_in_span ex_mfa7 0 ex_knots7 3 7 (Q2Qc (3 # 10)));
    try reflexivity; qc_dec.
Defined.

Example FindSpan_ex7 : FindSpan 4 ex_mfa7 0 (Q2Qc (3 # 10)) 7 = ret 4.
Proof. reflexivity. Qed.

Example FindSpan_ex7_end : FindSpan 0 ex_mfa7 0 (Q2Qc 1) 7 = ret 6.
Proof. reflexivity. Qed.

(** ** Loops, vector updates, exact division *)

Lemma for_n_inv {St : Type} (P : Z -> St -> Prop) (body : Z -> St -> M St) :
  forall (n : nat) (i : Z) (s : St),
    P i s ->
    (forall k s0, i <= k < i + Z.of_nat n -> P k s0 ->
                  exists s1, body k s0 = ret s1 /\ P (k + 1) s1) ->
    exists s', for_n n i body s = ret s' /\ P (i + Z.of_nat n) s'.
Proof.
  induction n as [| n IH]; intros i s HP Hstep.
  - exists s. split; [reflexivity |]. now replace (i + Z.of_nat 0) with i by lia.
  - destruct (Hstep i s) as (s1 & Hb & HP1); [lia | auto |].
    destruct (IH (i + 1) s1 HP1) as (s' & Hf & HP').
    { intros k s0 Hk. apply Hstep. lia. }
    exists s'. split.
    + cbn [for_n]. now rewrite Hb, bind_ret_l.
    + now replace (i + Z.of_nat (S n)) with (i + 1 + Z.of_nat n) by lia.
Qed.

Lemma for_range_inv {St : Type} (P : Z -> St -> Prop) (body : Z -> St -> M St)
      (lo hi : Z) (s : St) :
  lo <= hi -> P lo s ->
  (forall k s0, lo <= k < hi -> P k s0 ->
                exists s1, body k s0 = ret s1 /\ P (k + 1) s1) ->
  exists s', for_range lo hi body s = ret s' /\ P hi s'.
Proof.
  intros Hle HP Hstep. unfold for_range.
  destruct (for_n_inv P body (Z.to_nat (hi - lo)) lo s HP) as (s' & H1 & H2).
  - intros k s0 Hk. apply Hstep. lia.
  - exists s'. split; auto.
    now replace (lo + Z.of_nat (Z.to_nat (hi - lo))) with hi in H2 by lia.
Qed.

Lemma vset_ok {A} (v : list A) (i : Z) (a : A) :
  0 <= i < Zlength' v -> vset v i a = ret (replace_nth (Z.to_nat i) v a).
Proof.
  intros [H0 H1]. unfold vset.
  apply Z.leb_le in H0. apply Z.ltb_lt in H1. now rewrite H0, H1.
Qed.

Lemma Tdiv_ok (x y : T) : y <> T0 -> Tdiv x y = ret (x / y)%Qc.
Proof. intros H. unfold Tdiv. apply Teqb_false in H. now rewrite H. Qed.

Lemma replace_nth_length {A} (n : nat) (v : list A) (a : A) :
  length (replace_nth n v a) = length v.
Proof.
  revert n. induction v as [| x v IH]; intros [| n]; simpl; auto.
Qed.

Lemma Zlength_replace_nth {A} (n : nat) (v : list A) (a : A) :
  Zlength' (replace_nth n v a) = Zlength' v.
Proof. unfold Zlength'. now rewrite replace_nth_length. Qed.

Lemma nth_replace_nth_eq {A} (n : nat) (v : list A) (a d : A) :
  (n < length v)%nat -> nth n (replace_nth n v a) d = a.
Proof.
  revert n. induction v as [| x v IH]; intros [| n] H; simpl in *; try lia; auto.
  apply IH. lia.
Qed.

Lemma nth_replace_nth_neq {A} (n m : nat) (v : list A) (a d : A) :
  n <> m -> nth m (replace_nth n v a) d = nth m v d.
Proof.
  revert n m. induction v as [| x v IH]; intros [| n] [| m] H; simpl; auto;
    try lia.
Qed.

Lemma firstn_replace_nth_ge {A} (k n : nat) (v : list A) (a : A) :
  (k <= n)%nat -> firstn k (replace_nth n v a) = firstn k v.
Proof.
  revert k n. induction v as [| x v IH]; intros [| k] [| n] H; simpl; auto.
  - lia.
  - f_equal. apply IH. lia.
Qed.

Lemma skipn_replace_nth_lt {A} (k n : nat) (v : list A) (a : A) :
  (n < k)%nat -> skipn k (replace_nth n v a) = skipn k v.
Proof.
  revert k n. induction v as [| x v IH]; intros [| k] [| n] H; simpl; auto;
    try lia.
  apply IH. lia.
Qed.

Lemma firstn_S_replace_nth {A} (n : nat) (v : list A) (a : A) :
  (n < length v)%nat ->
  firstn (S n) (replace_nth n v a) = firstn n v ++ [a].
Proof.
  revert n. induction v as [| x v IH]; intros [| n] H; simpl in *; try lia; auto.
  f_equal. apply IH. lia.
Qed.

Lemma skipn_nth_cons {A} (n : nat) (v : list A) (d : A) :
  (n < length v)%nat -> skipn n v = nth n v d :: skipn (S n) v.
Proof.
  revert n. induction v as [| x v IH]; intros [| n] H; simpl in *; try lia; auto.
  apply IH. lia.
Qed.

Lemma zeros_length (n : Z) : Zlength' (zeros n) = Z.max 0 n.
Proof. unfold Zlength', zeros. rewrite repeat_length. lia. Qed.

(** ** The Cox-de Boor recurrence: partition of unity and sign *)

Lemma Tsum_app (v w : list T) : Tsum (v ++ w) = (Tsum v + Tsum w)%Qc.
Proof.
  induction v as [| x v IH]; simpl.
  - ring.
  - rewrite IH. ring.
Qed.

Lemma raise_length (R L : Z -> T) (j : Z) (s : list T) :
  forall r saved, length (raise R L j r saved s) = S (length s).
Proof. induction s as [| x s IH]; intros; simpl; auto. Qed.


Lemma Qc_div_nonneg (x y : Qc) : (0 <= x -> 0 < y -> 0 <= x / y)%Qc.
Proof.
  intros. qc_prep. apply Qmult_le_0_compat; auto.
  apply Qinv_le_0_compat. lra.
Qed.




(** The side condition of the recurrence up to degree [n]: the knot
    differences are non-negative and every denominator is positive. *)
Definition good_span (R L : Z -> T) (n : Z) : Prop :=
  forall a b, 1 <= a <= n -> 1 <= b <= n ->
              (T0 <= R a /\ T0 <= L b /\ T0 < R a + L b)%Qc.

Lemma basis_length (R L : Z -> T) (n : nat) : length (basis R L n) = S n.
Proof.
  induction n as [| n IH]; [reflexivity |].
  cbn [basis]. now rewrite raise_length, IH.
Qed.


(** ** The loop nest computes the recurrence *)

Lemma skipn_succ_eq {A} (n : nat) (v w : list A) :
  skipn n v = skipn n w -> skipn (S n) v = skipn (S n) w.
Proof.
  intros H. change (S n) with (1 + n)%nat.
  now rewrite <- !skipn_skipn, H.
Qed.

Lemma skipn_le_eq {A} (n m : nat) (v w : list A) :
  (n <= m)%nat -> skipn n v = skipn n w -> skipn m v = skipn m w.
Proof.
  intros Hle H. replace m with ((m - n) + n)%nat by lia.
  now rewrite <- !skipn_skipn, H.
Qed.

Lemma nth_of_firstn {A} (n k : nat) (v s : list A) (d : A) :
  firstn n v = s -> (k < n)%nat -> nth k v d = nth k s d.
Proof.
  intros <- Hk. rewrite nth_firstn.
  destruct (Nat.ltb_spec k n); auto. lia.
Qed.

Ltac mret := rewrite ?bind_ret_l; cbv beta iota.

Lemma basis_inner_spec (R L : Z -> T) (j : Z) (s sc l r : list T) :
  1 <= j ->
  Z.of_nat (length s) = j ->
  firstn (Z.to_nat j) sc = s ->
  j < Zlength' l -> j < Zlength' r ->
  (forall i, 1 <= i <= j -> zth l i = L i /\ zth r i = R i) ->
  good_span R L j ->
  exists sc' saved,
    for_range 0 j
      (fun r0 '(scratch, saved) =>
         sr <- vget scratch r0 ;;
         rr <- vget r (r0 + 1) ;;
         lj <- vget l (j - r0) ;;
         temp <- Tdiv sr (rr + lj)%Qc ;;
         scratch <- vset scratch r0 (saved + rr * temp)%Qc ;;
         ret (scratch, (lj * temp)%Qc))
      (sc, T0) = ret (sc', saved) /\
    length sc' = length sc /\
    firstn (Z.to_nat j) sc' ++ [saved] = raise R L j 0 T0 s /\
    skipn (Z.to_nat j) sc' = skipn (Z.to_nat j) sc.
Proof.
  intros Hj Hs Hf Hl Hr Hlr Hg.
  assert (Hlen : (Z.to_nat j <= length sc)%nat).
  { rewrite <- Hf in Hs. rewrite length_firstn in Hs. lia. }
  set (Q := fun (r0 : Z) (st : list T * T) =>
              length (fst st) = length sc /\
              firstn (Z.to_nat r0) (fst st)
                ++ raise R L j r0 (snd st) (skipn (Z.to_nat r0) s)
              = raise R L j 0 T0 s /\
              skipn (Z.to_nat r0) (fst st) = skipn (Z.to_nat r0) sc).
  match goal with
  | |- exists sc' saved, for_range 0 j ?body _ = _ /\ _ =>
      destruct (for_range_inv Q body 0 j (sc, T0)) as ([sc' saved] & He & HQ)
  end.
  - lia.
  - unfold Q. cbn [fst snd]. repeat split; auto.
  - intros k [sc0 saved0] Hk (Q1 & Q2 & Q3). cbn [fst snd] in *.
    assert (Hk' : (Z.to_nat k < length s)%nat) by lia.
    assert (Hsr : zth sc0 k = nth (Z.to_nat k) s T0).
    { unfold zth.
      rewrite (skipn_nth_cons (Z.to_nat k) sc0 T0) in Q3 by lia.
      rewrite (skipn_nth_cons (Z.to_nat k) sc T0) in Q3 by lia.
      injection Q3 as Q3 _. rewrite Q3.
      apply nth_of_firstn with (n := Z.to_nat j); auto. lia. }
    destruct (Hlr (k + 1)) as [_ HR]; [lia |].
    destruct (Hlr (j - k)) as [HL _]; [lia |].
    destruct (Hg (k + 1) (j - k)) as (_ & _ & Hd); try lia.
    rewrite (vget_zth sc0 k) by (unfold Zlength'; lia). mret.
    rewrite (vget_zth r (k + 1)) by lia. mret.
    rewrite (vget_zth l (j - k)) by lia. mret.
    rewrite HR, HL, Hsr.
    rewrite Tdiv_ok.
    2:{ intros E. rewrite E in Hd. revert Hd. clear. qc_dec. }
    mret. rewrite vset_ok by (unfold Zlength'; lia). mret.
    eexists. split; [reflexivity |]. unfold Q. cbn [fst snd].
    replace (Z.to_nat (k + 1)) with (S (Z.to_nat k)) by lia.
    split; [now rewrite replace_nth_length |]. split.
    + rewrite firstn_S_replace_nth by lia.
      rewrite <- Q2, <- app_assoc. f_equal.
      rewrite (skipn_nth_cons (Z.to_nat k) s T0) by lia.
      reflexivity.
    + rewrite skipn_replace_nth_lt by lia. now apply skipn_succ_eq.
  - destruct HQ as (Q1 & Q2 & Q3). cbn [fst snd] in *.
    exists sc', saved. repeat split; auto.
    rewrite <- Q2. f_equal.
    rewrite skipn_all2 by lia. reflexivity.
Qed.

Lemma zth_replace_nth_eq (v : list T) (i : Z) (a : T) :
  0 <= i < Zlength' v -> zth (replace_nth (Z.to_nat i) v a) i = a.
Proof.
  intros H. unfold zth. apply nth_replace_nth_eq. unfold Zlength' in H. lia.
Qed.

Lemma zth_replace_nth_neq (v : list T) (i k : Z) (a : T) :
  0 <= i -> 0 <= k -> i <> k -> zth (replace_nth (Z.to_nat i) v a) k = zth v k.
Proof. intros. unfold zth. apply nth_replace_nth_neq. lia. Qed.

Lemma basis_recurrence_spec (knots : list T) (u : T) (span pk : Z)
      (scratch l r : list T) :
  0 <= pk ->
  (forall j, 1 <= j <= pk -> 0 <= span + 1 - j /\ span + j < Zlength' knots) ->
  pk < Zlength' scratch -> pk < Zlength' l -> pk < Zlength' r ->
  zth scratch 0 = T1 ->
  good_span (knot_right knots u span) (knot_left knots u span) pk ->
  exists scratch' l' r',
    basis_recurrence knots u span pk scratch l r = ret (scratch', l', r') /\
    firstn (Z.to_nat (pk + 1)) scratch' = basis_values knots u span pk /\
    skipn (Z.to_nat (pk + 1)) scratch' = skipn (Z.to_nat (pk + 1)) scratch /\
    length scratch' = length scratch /\
    length l' = length l /\ length r' = length r.
Proof.
  intros Hp Hidx Hsc Hl Hr H0 Hg.
  set (R := knot_right knots u span) in *.
  set (L := knot_left knots u span) in *.
  unfold Zlength' in Hsc, Hl, Hr.
  set (P := fun (j : Z) (st : list T * list T * list T) =>
              let '(sc, l0, r0) := st in
              length sc = length scratch /\ length l0 = length l /\
              length r0 = length r /\
              firstn (Z.to_nat j) sc = basis R L (Z.to_nat (j - 1)) /\
              skipn (Z.to_nat (pk + 1)) sc = skipn (Z.to_nat (pk + 1)) scratch /\
              (forall i, 1 <= i < j -> zth l0 i = L i /\ zth r0 i = R i)).
  unfold basis_recurrence.
  match goal with
  | |- exists a b c, for_range 1 _ ?body _ = _ /\ _ =>
      destruct (for_range_inv P body 1 (pk + 1) (scratch, l, r))
        as ([[sc' l'] r'] & He & HP)
  end.
  - lia.
  - unfold P. repeat split; auto.
    + change (Z.to_nat 1) with 1%nat. change (Z.to_nat (1 - 1)) with 0%nat.
      cbn [basis]. destruct scratch as [| x sc]; [simpl in Hsc; lia |].
      unfold zth in H0. simpl in H0. subst x. reflexivity.
    + lia.
    + lia.
  - intros j [[sc l0] r0] Hj (P1 & P2 & P3 & P4 & P5 & P6).
    destruct (Hidx j) as [Hi1 Hi2]; [lia |].
    rewrite (vget_zth knots (span + 1 - j)) by lia. mret.
    rewrite vset_ok by (unfold Zlength'; lia). mret.
    rewrite (vget_zth knots (span + j)) by lia. mret.
    rewrite vset_ok by (unfold Zlength'; lia). mret.
    set (l1 := replace_nth (Z.to_nat j) l0 (u - zth knots (span + 1 - j))%Qc).
    set (r1 := replace_nth (Z.to_nat j) r0 (zth knots (span + j) - u)%Qc).
    destruct (basis_inner_spec R L j (basis R L (Z.to_nat (j - 1))) sc l1 r1)
      as (sc1 & saved & Hin & I1 & I2 & I3); auto; try lia.
    + rewrite basis_length. lia.
    + unfold l1, Zlength'. rewrite replace_nth_length. lia.
    + unfold r1, Zlength'. rewrite replace_nth_length. lia.
    + intros i Hi. destruct (Z.eq_dec i j) as [-> | Hne].
      * unfold l1, r1. rewrite !zth_replace_nth_eq by (unfold Zlength'; lia).
        split; reflexivity.
      * unfold l1, r1. rewrite !zth_replace_nth_neq by lia. apply P6. lia.
    + intros a b Ha Hb. apply Hg; lia.
    + rewrite Hin. mret.
      rewrite vset_ok by (unfold Zlength'; lia). mret.
      eexists. split; [reflexivity |]. unfold P.
      assert (Hl1 : length l1 = length l)
        by (unfold l1; rewrite replace_nth_length; congruence).
      assert (Hr1 : length r1 = length r)
        by (unfold r1; rewrite replace_nth_length; congruence).
      rewrite !replace_nth_length.
      repeat split; auto; try lia; try congruence.
      * replace (Z.to_nat (j + 1)) with (S (Z.to_nat j)) by lia.
        rewrite firstn_S_replace_nth by lia. rewrite I2.
        replace (Z.to_nat (j + 1 - 1)) with (S (Z.to_nat (j - 1))) by lia.
        cbn [basis]. do 2 f_equal. lia.
      * rewrite skipn_replace_nth_lt by lia. rewrite <- P5.
        apply skipn_le_eq with (n := Z.to_nat j); auto. lia.
      * fold l1. destruct (Z.eq_dec i j) as [-> | Hne].
        -- unfold l1. now rewrite zth_replace_nth_eq by (unfold Zlength'; lia).
        -- unfold l1. rewrite zth_replace_nth_neq by lia. apply P6. lia.
      * fold r1. destruct (Z.eq_dec i j) as [-> | Hne].
        -- unfold r1. now rewrite zth_replace_nth_eq by (unfold Zlength'; lia).
        -- unfold r1. rewrite zth_replace_nth_neq by lia. apply P6. lia.
  - destruct HP as (P1 & P2 & P3 & P4 & P5 & P6).
    exists sc', l', r'. repeat split; auto.
    rewrite P4. unfold basis_values. do 2 f_equal. lia.
Qed.

Lemma good_span_of_knots (knots : list T) (u : T) (span pk : Z) :
  nondecreasing knots = true ->
  0 <= span - pk + 1 -> span + pk < Zlength' knots -> 0 <= pk ->
  (zth knots span <= u)%Qc -> (u <= zth knots (span + 1))%Qc ->
  (zth knots span < zth knots (span + 1))%Qc ->
  good_span (knot_right knots u span) (knot_left knots u span) pk.
Proof.
  intros Hs H0 H1 Hp Hlo Hhi Hlt a b Ha Hb.
  unfold knot_right, knot_left.
  assert (Ha1 : (zth knots (span + 1) <= zth knots (span + a))%Qc)
    by (apply nondecreasing_zth; auto; lia).
  assert (Hb1 : (zth knots (span + 1 - b) <= zth knots span)%Qc)
    by (apply nondecreasing_zth; auto; lia).
  repeat split; qc_lra.
Qed.





Lemma banded_row_length (ncols c0 : Z) (vals : list T) :
  0 <= c0 -> c0 + Zlength' vals <= ncols ->
  Zlength' (banded_row ncols c0 vals) = ncols.
Proof.
  intros H0 H1. unfold banded_row, Zlength' in *.
  rewrite !length_app. unfold zeros. rewrite !repeat_length. lia.
Qed.

Lemma zth_banded_row (ncols c0 : Z) (vals : list T) (c : Z) :
  0 <= c0 -> 0 <= c ->
  zth (banded_row ncols c0 vals) c =
  if (c0 <=? c) && (c <? c0 + Zlength' vals) then zth vals (c - c0) else T0.
Proof.
  intros H0 Hc. unfold zth, banded_row, Zlength'.
  destruct (Z.leb_spec c0 c) as [H1 | H1]; cbn [andb].
  - rewrite app_nth2 by (unfold zeros; rewrite repeat_length; lia).
    unfold zeros at 1. rewrite repeat_length.
    replace (Z.to_nat c - Z.to_nat c0)%nat with (Z.to_nat (c - c0)) by lia.
    destruct (Z.ltb_spec c (c0 + Z.of_nat (length vals))) as [H2 | H2].
    + now rewrite app_nth1 by lia.
    + rewrite app_nth2 by lia. unfold zeros.
      apply nth_repeat.
  - rewrite app_nth1 by (unfold zeros; rewrite repeat_length; lia).
    unfold zeros. apply nth_repeat.
Qed.

Lemma list_eq_zth (v w : list T) :
  length v = length w ->
  (forall c, 0 <= c < Zlength' v -> zth v c = zth w c) -> v = w.
Proof.
  intros Hl H. apply nth_ext with (d := T0) (d' := T0); auto.
  intros n Hn. specialize (H (Z.of_nat n)). unfold zth, Zlength' in H.
  rewrite Nat2Z.id in H. apply H. lia.
Qed.

Lemma copy_band_spec (scratch : list T) (c0 pk : Z) (Nrow : list T) :
  0 <= pk -> 0 <= c0 -> c0 + pk < Zlength' Nrow ->
  pk < Zlength' scratch ->
  exists Nrow',
    for_range 0 (pk + 1)
      (fun j Nrow => sj <- vget scratch j ;; vset Nrow (c0 + j) sj)
      (map (fun _ => T0) Nrow) = ret Nrow' /\
    Nrow' = banded_row (Zlength' Nrow) c0 (firstn (Z.to_nat (pk + 1)) scratch).
Proof.
  intros Hp Hc Hn Hs.
  set (P := fun (j : Z) (row : list T) =>
              length row = length Nrow /\
              forall c, 0 <= c < Zlength' Nrow ->
                zth row c = if (c0 <=? c) && (c <? c0 + j)
                            then zth scratch (c - c0) else T0).
  match goal with
  | |- exists r, for_range 0 _ ?body _ = _ /\ _ =>
      destruct (for_range_inv P body 0 (pk + 1) (map (fun _ => T0) Nrow))
        as (row & He & HP)
  end.
  - lia.
  - unfold P. split; [apply length_map |].
    intros c Hc0.
    replace ((c0 <=? c) && (c <? c0 + 0)) with false
      by (destruct (Z.leb_spec c0 c), (Z.ltb_spec c (c0 + 0)); auto; lia).
    unfold zth.
    exact (map_nth (fun _ : Qc => T0) Nrow T0 (Z.to_nat c)).
  - intros j row Hj [P1 P2].
    rewrite (vget_zth scratch j) by lia. mret.
    rewrite vset_ok by (unfold Zlength' in *; lia).
    eexists. split; [reflexivity |]. unfold P. split.
    + now rewrite replace_nth_length.
    + intros c Hc0. destruct (Z.eq_dec c (c0 + j)) as [-> | Hne].
      * rewrite zth_replace_nth_eq by (unfold Zlength' in *; lia).
        replace (c0 <=? c0 + j) with true by (symmetry; apply Z.leb_le; lia).
        replace (c0 + j <? c0 + (j + 1)) with true
          by (symmetry; apply Z.ltb_lt; lia).
        cbn [andb]. f_equal. lia.
      * rewrite zth_replace_nth_neq by lia. rewrite P2 by auto.
        destruct (Z.leb_spec c0 c); cbn [andb]; auto.
        destruct (Z.ltb_spec c (c0 + j)), (Z.ltb_spec c (c0 + (j + 1)));
          auto; lia.
  - destruct HP as [P1 P2]. exists row. split; auto.
    assert (Hfl : Zlength' (firstn (Z.to_nat (pk + 1)) scratch) = pk + 1).
    { unfold Zlength' in *. rewrite length_firstn. lia. }
    apply list_eq_zth.
    + pose proof (banded_row_length (Zlength' Nrow) c0
                    (firstn (Z.to_nat (pk + 1)) scratch)) as Hb.
      unfold Zlength' in *. lia.
    + intros c Hc0. assert (Hc1 : 0 <= c < Zlength' Nrow)
        by (unfold Zlength' in *; lia).
      rewrite P2 by auto. rewrite zth_banded_row by lia. rewrite Hfl.
      destruct ((c0 <=? c) && (c <? c0 + (pk + 1))) eqn:E; auto.
      apply andb_prop in E as [E1 E2].
      apply Z.leb_le in E1. apply Z.ltb_lt in E2.
      unfold zth. rewrite nth_firstn.
      destruct (Nat.ltb_spec (Z.to_nat (c - c0)) (Z.to_nat (pk + 1))); auto.
      lia.
Qed.

Lemma vget_bounds {A} (v : list A) (i : Z) (a : A) :
  vget v i = ret a -> 0 <= i < Zlength' v.
Proof.
  intros H. apply vget_nth_error in H as [H0 H1]. split; auto.
  assert (nth_error v (Z.to_nat i) <> None) by congruence.
  apply nth_error_Some in H. unfold Zlength'. lia.
Qed.

Lemma vget_replace_nth {A} (v : list A) (i : Z) (a : A) :
  0 <= i < Zlength' v -> vget (replace_nth (Z.to_nat i) v a) i = ret a.
Proof.
  intros H. apply vget_nth_error. split; [lia |].
  unfold Zlength' in H.
  assert (G : forall (n : nat) (l : list A),
             (n < length l)%nat -> nth_error (replace_nth n l a) n = Some a).
  { clear. induction n; intros [| x l] Hn; simpl in *; try lia; auto.
    apply IHn. lia. }
  apply G. lia.
Qed.

(** What [OrigBasisFuns] writes, for any span clear of the ends of the knot
    vector with [knots[span] <= u <= knots[span + 1]] and
    [knots[span] < knots[span + 1]]. *)
Lemma OrigBasisFuns_spec (mfa : MFA_Data) (cur_dim : Z) (knots : list T)
      (pk : Z) (u : T) (span : Z) (N : list (list T)) (row : Z)
      (Nrow : list T) :
  vget (all_knots (tmesh mfa)) cur_dim = ret knots ->
  vget (p mfa) cur_dim = ret pk ->
  vget N row = ret Nrow ->
  nondecreasing knots = true ->
  0 <= pk <= span -> span < Zlength' Nrow -> span + pk < Zlength' knots ->
  (zth knots span <= u)%Qc -> (u <= zth knots (span + 1))%Qc ->
  (zth knots span < zth knots (span + 1))%Qc ->
  OrigBasisFuns mfa cur_dim u span N row =
  ret (replace_nth (Z.to_nat row) N
         (banded_row (Zlength' Nrow) (span - pk)
                     (basis_values knots u span pk))).
Proof.
  intros Hk Hp HN Hs Hpk Hsp Hlen Hlo Hhi Hlt.
  unfold OrigBasisFuns. rewrite HN. mret. rewrite Hp. mret.
  rewrite vset_ok by (rewrite zeros_length; lia). mret.
  rewrite Hk. mret.
  destruct (basis_recurrence_spec knots u span pk
              (replace_nth (Z.to_nat 0) (zeros (pk + 1)) T1)
              (zeros (pk + 1)) (zeros (pk + 1)))
    as (sc & l & r & Hrec & Hf & _ & Hl & _); try lia.
  - rewrite Zlength_replace_nth, zeros_length. lia.
  - rewrite zeros_length. lia.
  - rewrite zeros_length. lia.
  - apply zth_replace_nth_eq. rewrite zeros_length. lia.
  - apply good_span_of_knots; auto; lia.
  - rewrite Hrec. mret.
    destruct (copy_band_spec sc (span - pk) pk Nrow) as (Nrow' & Hc & Hrow);
      try lia.
    + unfold Zlength'. rewrite Hl. rewrite replace_nth_length.
      fold (Zlength' (zeros (pk + 1))). rewrite zeros_length. lia.
    + rewrite Hc. mret. rewrite vset_ok by (eapply vget_bounds; eauto).
      now rewrite Hrow, Hf.
Qed.


(** The span of a value strictly below the last knot, on a non-decreasing
    clamped vector. *)
Lemma FindSpan_interior (mfa : MFA_Data) (cur_dim : Z) (knots : list T)
      (pk nctrl : Z) (u : T) :
  vget (all_knots (tmesh mfa)) cur_dim = ret knots ->
  vget (p mfa) cur_dim = ret pk ->
  nondecreasing knots = true ->
  clamped pk nctrl knots = true ->
  (zth knots pk <= u)%Qc -> (u < zth knots nctrl)%Qc ->
  exists span,
    (forall fuel, (Z.to_nat (nctrl - pk) <= fuel)%nat ->
                  FindSpan fuel mfa cur_dim u nctrl = ret span) /\
    pk <= span <= nctrl - 1 /\
    (zth knots span <= u)%Qc /\ (u < zth knots (span + 1))%Qc.
Proof.
  intros Hk Hp Hs Hc Hlo Hhi.
  destruct (clamped_facts _ _ _ Hc) as (Hp0 & Hpn & Hlen).
  destruct (FindSpan_loop_spec knots u pk nctrl
              (Z.to_nat (nctrl - pk)) pk nctrl) as (i & Hi & Hr & Hl & Hu);
    auto; try lia.
  exists i. repeat split; auto; try lia.
  intros fuel Hf. unfold FindSpan. rewrite Hk, bind_ret_l.
  rewrite (vget_zth knots nctrl) by lia. rewrite bind_ret_l.
  assert (E : Teqb u (zth knots nctrl) = false).
  { apply Teqb_false. intros E. rewrite E in Hhi.
    exact (Qcle_not_lt _ _ (Qcle_refl _) Hhi). }
  rewrite E, Hp, bind_ret_l. apply Hi; auto.
Qed.



Example OrigBasisFuns_ex7 :
  option_map (map raw) (value (OrigBasisFuns ex_mfa7 0 (Q2Qc (3 # 10)) 4 [zeros 7] 0))
  = Some [[0; 16 # 125; 147 # 250; 106 # 375; 1 # 750; 0; 0]%Q].
Proof. vm_compute. reflexivity. Qed.

(** Where the last knot value also fills the interior, the span [FindSpan]
    returns at [u = knots[nctrl]] is empty and the recurrence divides by
    zero. *)
Example OrigBasisFuns_flat_end :
  clamped 1 4 ex_knots_flat = true /\
  FindSpan 0 ex_mfa_flat 0 T1 4 = ret 3 /\
  OrigBasisFuns ex_mfa_flat 0 T1 3 [zeros 4] 0 = fail NonFinite.
Proof. repeat split; reflexivity. Qed.


(** ** Curve knot insertion *)

Example NewCurveKnotIns_ex7 :
  option_map (fun r => let '(nk, nl, nc, nw) := r in (raw nk, nl, map raw nc, raw nw))
    (value (NewCurveKnotIns 4 ex_mfa7 0 ex_knots7 ex_levels7 ex_curve7
                            ex_weights7 (Q2Qc (3 # 10)) 1))
  = Some ([0; 0; 0; 0; 1 # 4; 3 # 10; 1 # 2; 3 # 4; 1; 1; 1; 1]%Q,
          repeat 0 5 ++ [1] ++ repeat 0 6,
          [[0]; [1]; [8 # 5]; [12 # 5]; [46 # 15]; [4]; [5]; [6]]%Q,
          repeat 1%Q 8).
Proof.
  match goal with |- _ = ?r => vm_cast_no_check (@eq_refl _ r) end.
Qed.

Lemma vget_nth {A} (d : A) (v : list A) (i : Z) :
  0 <= i < Zlength' v -> vget v i = ret (nth (Z.to_nat i) v d).
Proof.
  intros [H0 H1]. unfold vget, Zlength' in *.
  destruct (i <? 0) eqn:E; [apply Z.ltb_lt in E; lia |].
  destruct (nth_error v (Z.to_nat i)) eqn:E1.
  - now rewrite (nth_error_nth _ _ _ E1).
  - apply nth_error_None in E1. lia.
Qed.

Lemma bind_ext {A B} (m : M A) (f g : A -> M B) :
  (forall a, f a = g a) -> bind m f = bind m g.
Proof.
  intros H. unfold bind. destruct (snd m); auto. now rewrite H.
Qed.

Lemma for_n_ext {St : Type} (b1 b2 : Z -> St -> M St) :
  forall (n : nat) (i : Z) (s : St),
    (forall k s0, i <= k < i + Z.of_nat n -> b1 k s0 = b2 k s0) ->
    for_n n i b1 s = for_n n i b2 s.
Proof.
  induction n as [| n IH]; intros i s H; [reflexivity |].
  cbn [for_n]. rewrite H by lia. apply bind_ext.
  intros s'. apply IH. intros k s0 Hk. apply H. lia.
Qed.

(** The copy loops of the source: two vectors are filled in step,
    [dst[g i] = src[f i]] with [g i = i + b]. *)
Lemma copy2_spec {A B} (dA : A) (dB : B) (srcA : list A) (srcB : list B)
      (f g : Z -> Z) (b lo hi : Z) (dstA : list A) (dstB : list B) :
  (forall i, g i = i + b) ->
  (forall i, lo <= i < hi ->
             0 <= f i < Zlength' srcA /\ 0 <= f i < Zlength' srcB /\
             0 <= i + b < Zlength' dstA /\ 0 <= i + b < Zlength' dstB) ->
  exists rA rB,
    for_range lo hi
      (fun i '(x, y) =>
         c <- vget srcA (f i) ;; x <- vset x (g i) c ;;
         w <- vget srcB (f i) ;; y <- vset y (g i) w ;;
         ret (x, y))
      (dstA, dstB) = ret (rA, rB) /\
    length rA = length dstA /\ length rB = length dstB /\
    (forall c, 0 <= c ->
       nth (Z.to_nat c) rA dA =
       if (lo + b <=? c) && (c <? hi + b)
       then nth (Z.to_nat (f (c - b))) srcA dA else nth (Z.to_nat c) dstA dA) /\
    (forall c, 0 <= c ->
       nth (Z.to_nat c) rB dB =
       if (lo + b <=? c) && (c <? hi + b)
       then nth (Z.to_nat (f (c - b))) srcB dB else nth (Z.to_nat c) dstB dB).
Proof.
  intros Hg Hb.
  destruct (Z.le_gt_cases lo hi) as [Hle | Hgt].
  2:{ exists dstA, dstB. unfold for_range.
      replace (Z.to_nat (hi - lo)) with 0%nat by lia.
      repeat split; auto; intros c Hc;
        destruct (Z.leb_spec (lo + b) c), (Z.ltb_spec c (hi + b)); auto; lia. }
  set (P := fun (k : Z) (st : list A * list B) =>
              length (fst st) = length dstA /\ length (snd st) = length dstB /\
              (forall c, 0 <= c ->
                 nth (Z.to_nat c) (fst st) dA =
                 if (lo + b <=? c) && (c <? k + b)
                 then nth (Z.to_nat (f (c - b))) srcA dA
                 else nth (Z.to_nat c) dstA dA) /\
              (forall c, 0 <= c ->
                 nth (Z.to_nat c) (snd st) dB =
                 if (lo + b <=? c) && (c <? k + b)
                 then nth (Z.to_nat (f (c - b))) srcB dB
                 else nth (Z.to_nat c) dstB dB)).
  match goal with
  | |- exists rA rB, for_range _ _ ?body _ = _ /\ _ =>
      destruct (for_range_inv P body lo hi (dstA, dstB)) as ([rA rB] & He & HP)
  end; auto.
  - unfold P. cbn [fst snd]. repeat split; auto; intros c Hc;
      destruct (Z.leb_spec (lo + b) c), (Z.ltb_spec c (lo + b)); auto; lia.
  - intros k [x y] Hk (P1 & P2 & P3 & P4). cbn [fst snd] in *.
    destruct (Hb k Hk) as (B1 & B2 & B3 & B4). rewrite Hg.
    rewrite (vget_nth dA srcA) by lia. mret.
    rewrite vset_ok by (unfold Zlength' in *; lia). mret.
    rewrite (vget_nth dB srcB) by lia. mret.
    rewrite vset_ok by (unfold Zlength' in *; lia). mret.
    eexists. split; [reflexivity |]. unfold P. cbn [fst snd].
    rewrite !replace_nth_length. repeat split; auto; intros c Hc.
    + destruct (Z.eq_dec c (k + b)) as [-> | Hne].
      * rewrite nth_replace_nth_eq by (unfold Zlength' in *; lia).
        replace (k + b - b) with k by lia.
        destruct (Z.leb_spec (lo + b) (k + b)), (Z.ltb_spec (k + b) (k + 1 + b));
          auto; lia.
      * rewrite nth_replace_nth_neq by lia. rewrite P3 by auto.
        destruct (Z.leb_spec (lo + b) c), (Z.ltb_spec c (k + b)),
          (Z.ltb_spec c (k + 1 + b)); auto; lia.
    + destruct (Z.eq_dec c (k + b)) as [-> | Hne].
      * rewrite nth_replace_nth_eq by (unfold Zlength' in *; lia).
        replace (k + b - b) with k by lia.
        destruct (Z.leb_spec (lo + b) (k + b)), (Z.ltb_spec (k + b) (k + 1 + b));
          auto; lia.
      * rewrite nth_replace_nth_neq by lia. rewrite P4 by auto.
        destruct (Z.leb_spec (lo + b) c), (Z.ltb_spec c (k + b)),
          (Z.ltb_spec c (k + 1 + b)); auto; lia.
  - destruct HP as (P1 & P2 & P3 & P4). cbn [fst snd] in *.
    exists rA, rB. repeat split; auto.
Qed.

Lemma alpha_loop_spec (old_knots : list T) (u : T) (span pk : Z)
      (tc0 : list (list T)) (tw0 : list T) :
  0 <= pk -> pk < Zlength' tc0 -> pk < Zlength' tw0 ->
  (forall i, 0 <= i < pk ->
     0 <= span - pk + 1 + i < Zlength' old_knots /\
     0 <= i + span + 1 < Zlength' old_knots /\
     (zth old_knots (i + span + 1) - zth old_knots (span - pk + 1 + i))%Qc
       <> T0) ->
  exists tc tw,
    for_range 0 pk
      (fun i '(tc, tw) =>
         ka <- vget old_knots (span - pk + 1 + i) ;;
         kb <- vget old_knots (i + span + 1) ;;
         alpha <- Tdiv (u - ka)%Qc (kb - ka)%Qc ;;
         c1 <- vget tc (i + 1) ;; c0 <- vget tc i ;;
         tc <- vset tc i (affine_row alpha c1 c0) ;;
         w1 <- vget tw (i + 1) ;; w0 <- vget tw i ;;
         tw <- vset tw i (affine alpha w1 w0) ;;
         ret (tc, tw))
      (tc0, tw0) = ret (tc, tw) /\
    length tc = length tc0 /\ length tw = length tw0 /\
    (forall c, 0 <= c ->
       row tc c = if c <? pk
                  then affine_row (ins_alpha old_knots u span pk c)
                                  (row tc0 (c + 1)) (row tc0 c)
                  else row tc0 c) /\
    (forall c, 0 <= c ->
       zth tw c = if c <? pk
                  then affine (ins_alpha old_knots u span pk c)
                              (zth tw0 (c + 1)) (zth tw0 c)
                  else zth tw0 c).
Proof.
  intros Hp Htc Htw Hk.
  set (P := fun (k : Z) (st : list (list T) * list T) =>
              length (fst st) = length tc0 /\ length (snd st) = length tw0 /\
              (forall c, 0 <= c ->
                 row (fst st) c =
                 if c <? k
                 then affine_row (ins_alpha old_knots u span pk c)
                                 (row tc0 (c + 1)) (row tc0 c)
                 else row tc0 c) /\
              (forall c, 0 <= c ->
                 zth (snd st) c =
                 if c <? k
                 then affine (ins_alpha old_knots u span pk c)
                             (zth tw0 (c + 1)) (zth tw0 c)
                 else zth tw0 c)).
  match goal with
  | |- exists tc tw, for_range _ _ ?body _ = _ /\ _ =>
      destruct (for_range_inv P body 0 pk (tc0, tw0)) as ([tc tw] & He & HP)
  end; auto.
  - unfold P. cbn [fst snd]. repeat split; auto; intros c Hc;
      destruct (Z.ltb_spec c 0); auto; lia.
  - intros k [tc tw] Hk0 (P1 & P2 & P3 & P4). cbn [fst snd] in *.
    destruct (Hk k Hk0) as (B1 & B2 & B3).
    unfold Zlength' in Htc, Htw.
    rewrite (vget_zth old_knots (span - pk + 1 + k)) by lia. mret.
    rewrite (vget_zth old_knots (k + span + 1)) by lia. mret.
    rewrite Tdiv_ok by auto. mret.
    rewrite (vget_nth [] tc (k + 1)) by (unfold Zlength'; lia). mret.
    rewrite (vget_nth [] tc k) by (unfold Zlength'; lia). mret.
    rewrite vset_ok by (unfold Zlength'; lia). mret.
    rewrite (vget_zth tw (k + 1)) by (unfold Zlength'; lia). mret.
    rewrite (vget_zth tw k) by (unfold Zlength'; lia). mret.
    rewrite vset_ok by (unfold Zlength'; lia). mret.
    eexists. split; [reflexivity |]. unfold P. cbn [fst snd].
    rewrite !replace_nth_length. repeat split; auto; intros c Hc.
    + destruct (Z.eq_dec c k) as [-> | Hne].
      * unfold row at 1. rewrite nth_replace_nth_eq by lia.
        fold (row tc (k + 1)). fold (row tc k).
        rewrite (P3 (k + 1)), (P3 k) by lia.
        destruct (Z.ltb_spec (k + 1) k), (Z.ltb_spec k k),
          (Z.ltb_spec k (k + 1)); try lia.
        reflexivity.
      * unfold row at 1. rewrite nth_replace_nth_neq by lia.
        fold (row tc c). rewrite P3 by auto.
        destruct (Z.ltb_spec c k), (Z.ltb_spec c (k + 1)); auto; lia.
    + destruct (Z.eq_dec c k) as [-> | Hne].
      * rewrite zth_replace_nth_eq by (unfold Zlength'; lia).
        rewrite (P4 (k + 1)), (P4 k) by lia.
        destruct (Z.ltb_spec (k + 1) k), (Z.ltb_spec k k),
          (Z.ltb_spec k (k + 1)); try lia.
        reflexivity.
      * rewrite zth_replace_nth_neq by lia. rewrite P4 by auto.
        destruct (Z.ltb_spec c k), (Z.ltb_spec c (k + 1)); auto; lia.
  - destruct HP as (P1 & P2 & P3 & P4). cbn [fst snd] in *.
    exists tc, tw. repeat split; auto.
Qed.

Lemma Zlength_repeat {A} (a : A) (n : nat) : Zlength' (repeat a n) = Z.of_nat n.
Proof. unfold Zlength'. now rewrite repeat_length. Qed.

Lemma zero_matrix_length (rows cols : Z) :
  Zlength' (zero_matrix rows cols) = Z.max 0 rows.
Proof. unfold zero_matrix. rewrite Zlength_repeat. lia. Qed.

(** Case analysis on every integer comparison of the goal. *)
Ltac zcase_leb :=
  match goal with |- context [(?x <=? ?y)] => destruct (Z.leb_spec x y) end.
Ltac zcase_ltb :=
  match goal with |- context [(?x <? ?y)] => destruct (Z.ltb_spec x y) end.
Ltac zcase_eqb :=
  match goal with |- context [(?x =? ?y)] => destruct (Z.eqb_spec x y) end.
Ltac zcases :=
  repeat (first [zcase_leb | zcase_ltb | zcase_eqb]);
  cbn [andb orb negb]; try lia; try reflexivity;
  try (f_equal; lia); try (f_equal; f_equal; lia).

Ltac zlen :=
  unfold Zlength' in *;
  rewrite ?replace_nth_length, ?repeat_length in *;
  unfold zeros, zero_matrix in *;
  rewrite ?repeat_length in *; try lia.

(** What [NewCurveKnotIns] returns when it is handed the knot vector of the
    T-mesh (its only caller does so) and the new value is not rejected. *)
Lemma NewCurveKnotIns_spec (fuel : nat) (mfa : MFA_Data) (cur_dim : Z)
      (knots : list T) (klev : list Z) (old : list (list T)) (oldw : list T)
      (u : T) (lev pk span : Z) :
  let n := Zlength' old in
  vget (all_knots (tmesh mfa)) cur_dim = ret knots ->
  vget (p mfa) cur_dim = ret pk ->
  FindSpan fuel mfa cur_dim u n = ret span ->
  1 <= pk -> pk <= span <= n - 1 ->
  Zlength' knots = n + pk + 1 -> Zlength' klev = n + pk + 1 ->
  Zlength' oldw = n ->
  zth knots span <> u ->
  (forall i, 0 <= i < pk ->
     (zth knots (i + span + 1) - zth knots (span - pk + 1 + i))%Qc <> T0) ->
  exists nk nl nc nw,
    NewCurveKnotIns fuel mfa cur_dim knots klev old oldw u lev
    = ret (nk, nl, nc, nw) /\
    Zlength' nk = n + pk + 2 /\ Zlength' nl = n + pk + 2 /\
    Zlength' nc = n + 1 /\ Zlength' nw = n + 1 /\
    (forall c, 0 <= c <= n + pk + 1 ->
       zth nk c = if c <=? span then zth knots c
                  else if c =? span + 1 then u else zth knots (c - 1)) /\
    (forall c, 0 <= c <= n + pk + 1 ->
       zthZ nl c = if c <=? span then zthZ klev c
                   else if c =? span + 1 then lev else zthZ klev (c - 1)) /\
    (forall c, 0 <= c <= n ->
       row nc c = if c <=? span - pk then row old c
                  else if c <=? span
                       then affine_row
                              (ins_alpha knots u span pk (c - (span - pk + 1)))
                              (row old c) (row old (c - 1))
                       else row old (c - 1)) /\
    (forall c, 0 <= c <= n ->
       zth nw c = if c <=? span - pk then zth oldw c
                  else if c <=? span
                       then affine
                              (ins_alpha knots u span pk (c - (span - pk + 1)))
                              (zth oldw c) (zth oldw (c - 1))
                       else zth oldw (c - 1)).
Proof.
  intros n Hk Hp Hfs Hp1 Hsp Hlk Hll Hlw Hne Hden.
  unfold NewCurveKnotIns. cbv zeta. fold n.
  rewrite Hp. mret. rewrite Hfs. mret. rewrite Hk. mret.
  rewrite (vget_zth knots span) by lia. mret.
  apply Teqb_false in Hne. rewrite Hne.
  rewrite Hlk, Hll, Hlw.
  (* new knot vector, first part *)
  destruct (copy2_spec T0 0 knots klev (fun i => i) (fun i => i) 0 0 (span + 1)
              (zeros (n + pk + 1 + 1))
              (repeat 0 (Z.to_nat (n + pk + 1 + 1))))
    as (nk1 & nl1 & E1 & Lk1 & Ll1 & Pk1 & Pl1);
    [intros; lia | intros i Hi; zlen |].
  cbv beta in E1. rewrite E1. mret.
  rewrite vset_ok by zlen. mret. rewrite vset_ok by zlen. mret.
  (* new knot vector, second part *)
  destruct (copy2_spec T0 0 knots klev (fun i => i) (fun i => i + 1) 1
              (span + 1) (n + pk + 1)
              (replace_nth (Z.to_nat (span + 1)) nk1 u)
              (replace_nth (Z.to_nat (span + 1)) nl1 lev))
    as (nk2 & nl2 & E2 & Lk2 & Ll2 & Pk2 & Pl2);
    [intros; lia | intros i Hi; zlen |].
  cbv beta in E2. rewrite E2. mret.
  (* unaltered control points *)
  destruct (copy2_spec [] T0 old oldw (fun i => i) (fun i => i) 0
              0 (span - pk + 1)
              (zero_matrix (n + 1) (mcols old)) (zeros (n + 1)))
    as (nc1 & nw1 & E3 & Lc1 & Lw1 & Pc1 & Pw1);
    [intros; lia | intros i Hi; unfold n in *; zlen |].
  cbv beta in E3. rewrite E3. mret.
  destruct (copy2_spec [] T0 old oldw (fun i => i) (fun i => i + 1) 1
              span n nc1 nw1)
    as (nc2 & nw2 & E4 & Lc2 & Lw2 & Pc2 & Pw2);
    [intros; lia | intros i Hi; unfold n in *; zlen |].
  cbv beta in E4. rewrite E4. mret.
  (* the window *)
  destruct (copy2_spec [] T0 old oldw (fun i => span - pk + i) (fun i => i) 0
              0 (pk + 1)
              (zero_matrix (pk + 1) (mcols old)) (zeros (pk + 1)))
    as (tc1 & tw1 & E5 & Ltc1 & Ltw1 & Ptc1 & Ptw1);
    [intros; lia | intros i Hi; unfold n in *; zlen |].
  cbv beta in E5. rewrite E5. mret.
  destruct (alpha_loop_spec knots u span pk tc1 tw1)
    as (tc2 & tw2 & E6 & Ltc2 & Ltw2 & Ptc2 & Ptw2);
    [lia | zlen | zlen | intros i Hi; repeat split; auto; lia |].
  rewrite E6. mret.
  rewrite (vget_nth [] tc2 0) by zlen. mret.
  rewrite vset_ok by (unfold n in *; zlen). mret.
  rewrite (vget_zth tw2 0) by zlen. mret.
  rewrite vset_ok by (unfold n in *; zlen). mret.
  rewrite (vget_nth [] tc2 (pk - 1)) by zlen. mret.
  rewrite vset_ok by (unfold n in *; zlen). mret.
  rewrite (vget_zth tw2 (pk - 1)) by zlen. mret.
  rewrite vset_ok by (unfold n in *; zlen). mret.
  (* remaining control points *)
  set (nc3 := replace_nth (Z.to_nat (span - pk + 1)) nc2 (nth (Z.to_nat 0) tc2 [])).
  set (nw3 := replace_nth (Z.to_nat (span - pk + 1)) nw2 (zth tw2 0)).
  set (nc4 := replace_nth (Z.to_nat span) nc3 (nth (Z.to_nat (pk - 1)) tc2 [])).
  set (nw4 := replace_nth (Z.to_nat span) nw3 (zth tw2 (pk - 1))).
  assert (Lc4 : length nc4 = length nc2)
    by (unfold nc4, nc3; now rewrite !replace_nth_length).
  assert (Lw4 : length nw4 = length nw2)
    by (unfold nw4, nw3; now rewrite !replace_nth_length).
  destruct (copy2_spec [] T0 tc2 tw2 (fun i => i - (span - pk + 1))
              (fun i => i) 0 (span - pk + 1 + 1) span nc4 nw4)
    as (nc5 & nw5 & E7 & Lc5 & Lw5 & Pc5 & Pw5);
    [intros; lia | intros i Hi; unfold n in *; zlen |].
  cbv beta in E7. rewrite E7. mret.
  exists nk2, nl2, nc5, nw5. split; [reflexivity |].
  assert (Hn : 0 <= n) by (unfold n, Zlength'; lia).
  split; [zlen |]. split; [zlen |].
  split; [unfold n in *; zlen |]. split; [unfold n in *; zlen |].
  split; [| split; [| split]].
  - intros c Hc. unfold zth in *. rewrite Pk2 by lia.
    destruct (Z.eq_dec c (span + 1)) as [-> | Hc1].
    + rewrite nth_replace_nth_eq by zlen. zcases.
    + rewrite nth_replace_nth_neq by lia. rewrite Pk1 by lia. zcases.
  - intros c Hc. unfold zthZ in *. rewrite Pl2 by lia.
    destruct (Z.eq_dec c (span + 1)) as [-> | Hc1].
    + rewrite nth_replace_nth_eq by zlen. zcases.
    + rewrite nth_replace_nth_neq by lia. rewrite Pl1 by lia. zcases.
  - assert (Htc2 : forall k, 0 <= k < pk ->
              nth (Z.to_nat k) tc2 [] =
              affine_row (ins_alpha knots u span pk k)
                         (nth (Z.to_nat (span - pk + 1 + k)) old [])
                         (nth (Z.to_nat (span - pk + k)) old [])).
    { intros k Hk0. unfold row in Ptc2. rewrite Ptc2 by lia.
      rewrite !Ptc1 by lia. zcases. }
    intros c Hc. unfold row. rewrite Pc5 by lia.
    destruct (Z_le_gt_dec c (span - pk)) as [HA | HA].
    { replace ((span - pk + 1 + 1 + 0 <=? c) && (c <? span + 0)) with false
        by zcases.
      unfold nc4, nc3. rewrite !nth_replace_nth_neq by lia.
      rewrite Pc2, Pc1 by lia. zcases. }
    destruct (Z_le_gt_dec c span) as [HB | HB].
    2:{ replace ((span - pk + 1 + 1 + 0 <=? c) && (c <? span + 0)) with false
          by zcases.
        unfold nc4, nc3. rewrite !nth_replace_nth_neq by lia.
        rewrite Pc2 by lia. zcases. }
    replace (c <=? span - pk) with false by zcases.
    replace (c <=? span) with true by zcases.
    destruct (Z.eq_dec c span) as [-> | Hs].
    { replace ((span - pk + 1 + 1 + 0 <=? span) && (span <? span + 0))
        with false by zcases.
      unfold nc4. rewrite nth_replace_nth_eq by (unfold nc3, n in *; zlen).
      rewrite Htc2 by lia. f_equal; f_equal; lia. }
    destruct (Z.eq_dec c (span - pk + 1)) as [-> | HL].
    { replace ((span - pk + 1 + 1 + 0 <=? span - pk + 1)
               && (span - pk + 1 <? span + 0)) with false by zcases.
      unfold nc4. rewrite nth_replace_nth_neq by lia.
      unfold nc3. rewrite nth_replace_nth_eq by (unfold n in *; zlen).
      rewrite Htc2 by lia. f_equal; f_equal; lia. }
    replace ((span - pk + 1 + 1 + 0 <=? c) && (c <? span + 0)) with true
      by zcases.
    rewrite Htc2 by lia. f_equal; f_equal; lia.
  - assert (Htw2 : forall k, 0 <= k < pk ->
              nth (Z.to_nat k) tw2 T0 =
              affine (ins_alpha knots u span pk k)
                     (nth (Z.to_nat (span - pk + 1 + k)) oldw T0)
                     (nth (Z.to_nat (span - pk + k)) oldw T0)).
    { intros k Hk0. unfold zth in Ptw2. rewrite Ptw2 by lia.
      rewrite !Ptw1 by lia. zcases. }
    intros c Hc. unfold zth. rewrite Pw5 by lia.
    destruct (Z_le_gt_dec c (span - pk)) as [HA | HA].
    { replace ((span - pk + 1 + 1 + 0 <=? c) && (c <? span + 0)) with false
        by zcases.
      unfold nw4, nw3. rewrite !nth_replace_nth_neq by lia.
      rewrite Pw2, Pw1 by lia. zcases. }
    destruct (Z_le_gt_dec c span) as [HB | HB].
    2:{ replace ((span - pk + 1 + 1 + 0 <=? c) && (c <? span + 0)) with false
          by zcases.
        unfold nw4, nw3. rewrite !nth_replace_nth_neq by lia.
        rewrite Pw2 by lia. zcases. }
    replace (c <=? span - pk) with false by zcases.
    replace (c <=? span) with true by zcases.
    destruct (Z.eq_dec c span) as [-> | Hs].
    { replace ((span - pk + 1 + 1 + 0 <=? span) && (span <? span + 0))
        with false by zcases.
      unfold nw4. rewrite nth_replace_nth_eq by (unfold nw3, n in *; zlen).
      unfold zth. rewrite Htw2 by lia. f_equal; f_equal; lia. }
    destruct (Z.eq_dec c (span - pk + 1)) as [-> | HL].
    { replace ((span - pk + 1 + 1 + 0 <=? span - pk + 1)
               && (span - pk + 1 <? span + 0)) with false by zcases.
      unfold nw4. rewrite nth_replace_nth_neq by lia.
      unfold nw3. rewrite nth_replace_nth_eq by (unfold n in *; zlen).
      unfold zth. rewrite Htw2 by lia. f_equal; f_equal; lia. }
    replace ((span - pk + 1 + 1 + 0 <=? c) && (c <? span + 0)) with true
      by zcases.
    rewrite Htw2 by lia. f_equal; f_equal; lia.
Qed.

Lemma knot_present_false (knots : list T) (u : T) :
  knot_present knots u = false ->
  forall i, 0 <= i < Zlength' knots -> zth knots i <> u.
Proof.
  unfold knot_present, zth, Zlength'. intros H i Hi E.
  assert (Hin : In (nth (Z.to_nat i) knots T0) knots) by (apply nth_In; lia).
  assert (existsb (fun k => Teqb k u) knots = true).
  { apply existsb_exists. eexists. split; [exact Hin |]. now apply Teqb_true. }
  congruence.
Qed.

Lemma knot_present_true (knots : list T) (u : T) :
  knot_present knots u = true ->
  exists i, 0 <= i < Zlength' knots /\ zth knots i = u.
Proof.
  unfold knot_present. intros H. apply existsb_exists in H as (k & Hin & Hk).
  apply Teqb_true in Hk. subst.
  destruct (In_nth _ _ T0 Hin) as (m & Hm & Hnth).
  exists (Z.of_nat m). unfold zth, Zlength'. rewrite Nat2Z.id. split; auto. lia.
Qed.

Lemma alpha_denominators (knots : list T) (u : T) (span pk n : Z) :
  nondecreasing knots = true ->
  Zlength' knots = n + pk + 1 -> pk <= span <= n - 1 ->
  (zth knots span <= u)%Qc -> (u < zth knots (span + 1))%Qc ->
  forall i, 0 <= i < pk ->
    (zth knots (i + span + 1) - zth knots (span - pk + 1 + i))%Qc <> T0.
Proof.
  intros Hs Hl Hsp Hlo Hhi i Hi.
  assert (H1 : (zth knots (span + 1) <= zth knots (i + span + 1))%Qc)
    by (apply nondecreasing_zth; auto; lia).
  assert (H2 : (zth knots (span - pk + 1 + i) <= zth knots span)%Qc)
    by (apply nondecreasing_zth; auto; lia).
  qc_lra.
Qed.

(** The fuel matters to [NewCurveKnotIns] through [FindSpan] only. *)
Lemma NewCurveKnotIns_fuel (f1 f2 : nat) (mfa : MFA_Data) (cur_dim : Z)
      (knots : list T) (klev : list Z) (old : list (list T)) (oldw : list T)
      (u : T) (lev span : Z) :
  FindSpan f1 mfa cur_dim u (Zlength' old) = ret span ->
  FindSpan f2 mfa cur_dim u (Zlength' old) = ret span ->
  NewCurveKnotIns f1 mfa cur_dim knots klev old oldw u lev
  = NewCurveKnotIns f2 mfa cur_dim knots klev old oldw u lev.
Proof.
  intros H1 H2. unfold NewCurveKnotIns. cbv zeta.
  apply bind_ext. intros pk. now rewrite H1, H2.
Qed.

Lemma rectangular_row (m : list (list T)) (cols i : Z) :
  rectangular m cols = true -> 0 <= i < Zlength' m ->
  Zlength' (row m i) = cols.
Proof.
  unfold rectangular, row, Zlength'. intros H Hi.
  rewrite forallb_forall in H. apply Z.eqb_eq, H, nth_In. lia.
Qed.

Lemma zth_affine_row (alpha : T) (hi lo : list T) (d : Z) :
  length hi = length lo ->
  zth (affine_row alpha hi lo) d
  = (alpha * zth hi d + (T1 - alpha) * zth lo d)%Qc.
Proof.
  unfold zth. generalize (Z.to_nat d) as k. revert lo.
  induction hi as [| x hi IH]; intros [| y lo] k Hl; try discriminate.
  - cbn. destruct k; cbn; ring.
  - destruct k as [| k]; [reflexivity |].
    cbn [affine_row combine map nth]. apply IH. now injection Hl.
Qed.

Lemma affine_row_length (alpha : T) (hi lo : list T) :
  length hi = length lo -> length (affine_row alpha hi lo) = length hi.
Proof.
  intros H. unfold affine_row. rewrite length_map, length_combine. lia.
Qed.

(** C4 (amended). For a curve of degree [p >= 1]: inserting a value [u]
    that is not yet a knot into a curve of [n] control points, with [span]
    the span of [u] and [L = span - p + 1], gives [n + 1] control points and
    weights. Every coordinate of the points [L + j], [0 <= j < p], is
    [alpha * old[L + j] + (1 - alpha) * old[L + j - 1]] with
    [alpha = (u - knots[L + j]) / (knots[span + j + 1] - knots[L + j])], and
    so are their weights; the points before [L] are copied unchanged and the
    points after [span] are the old ones moved up by one. *)
Theorem NewCurveKnotIns_affine (mfa : MFA_Data) (cur_dim : Z)
        (knots : list T) (klev : list Z) (old : list (list T))
        (oldw : list T) (u : T) (lev pk cols : Z) :
  let n := Zlength' old in
  vget (all_knots (tmesh mfa)) cur_dim = ret knots ->
  vget (p mfa) cur_dim = ret pk ->
  1 <= pk ->
  nondecreasing knots = true ->
  clamped pk n knots = true ->
  Zlength' klev = n + pk + 1 -> Zlength' oldw = n ->
  rectangular old cols = true ->
  (zth knots pk <= u)%Qc -> (u <= zth knots n)%Qc ->
  knot_present knots u = false ->
  exists span nk nl nc nw,
    pk <= span <= n - 1 /\
    (zth knots span < u)%Qc /\ (u < zth knots (span + 1))%Qc /\
    (forall fuel, (Z.to_nat (n - pk) <= fuel)%nat ->
       FindSpan fuel mfa cur_dim u n = ret span /\
       NewCurveKnotIns fuel mfa cur_dim knots klev old oldw u lev
       = ret (nk, nl, nc, nw)) /\
    Zlength' nc = n + 1 /\ Zlength' nw = n + 1 /\
    (forall j, 0 <= j < pk ->
       let L := span - pk + 1 in
       let alpha := ((u - zth knots (L + j))
                     / (zth knots (span + j + 1) - zth knots (L + j)))%Qc in
       Zlength' (row nc (L + j)) = cols /\
       (forall d, 0 <= d < cols ->
          zth (row nc (L + j)) d
          = (alpha * zth (row old (L + j)) d
             + (T1 - alpha) * zth (row old (L + j - 1)) d)%Qc) /\
       zth nw (L + j) = (alpha * zth oldw (L + j)
                         + (T1 - alpha) * zth oldw (L + j - 1))%Qc) /\
    (forall c, 0 <= c < span - pk + 1 ->
       row nc c = row old c /\ zth nw c = zth oldw c) /\
    (forall c, span < c <= n ->
       row nc c = row old (c - 1) /\ zth nw c = zth oldw (c - 1)).
Proof.
  intros n Hk Hp Hp1 Hs Hc Hll Hlw Hrect Hlo Hhi Hnew.
  destruct (clamped_facts _ _ _ Hc) as (Hp0 & Hpn & Hlen).
  pose proof (knot_present_false _ _ Hnew) as Hnk.
  assert (Hhi' : (u < zth knots n)%Qc).
  { destruct (Qcle_lt_or_eq _ _ Hhi) as [? | E]; auto.
    exfalso. apply (Hnk n); auto. lia. }
  destruct (FindSpan_interior mfa cur_dim knots pk n u)
    as (span & Hfs & Hr & Hl & Hu); auto.
  assert (Hl' : (zth knots span < u)%Qc).
  { destruct (Qcle_lt_or_eq _ _ Hl) as [? | E]; auto.
    exfalso. apply (Hnk span); auto. lia. }
  destruct (NewCurveKnotIns_spec (Z.to_nat (n - pk)) mfa cur_dim knots klev
              old oldw u lev pk span)
    as (nk & nl & nc & nw & He & L1 & L2 & L3 & L4 & _ & _ & Pc & Pw);
    auto; try lia.
  { apply Hnk. lia. }
  { apply alpha_denominators with (n := n) (u := u); auto. }
  assert (Hrow : forall c, 0 <= c < n -> length (row old c) = Z.to_nat cols).
  { intros c Hc0. pose proof (rectangular_row old cols c Hrect Hc0) as R.
    unfold Zlength' in R. lia. }
  exists span, nk, nl, nc, nw.
  split; [lia |]. split; [auto |]. split; [auto |]. split.
  { intros fuel Hf. split; [now apply Hfs |].
    rewrite <- He. apply NewCurveKnotIns_fuel with (span := span);
      apply Hfs; lia. }
  split; [auto |]. split; [auto |]. split; [| split].
  - intros j Hj. cbv zeta. unfold n in *.
    assert (E : row nc (span - pk + 1 + j)
                = affine_row
                    ((u - zth knots (span - pk + 1 + j))
                     / (zth knots (span + j + 1)
                        - zth knots (span - pk + 1 + j)))%Qc
                    (row old (span - pk + 1 + j))
                    (row old (span - pk + 1 + j - 1))).
    { rewrite Pc by lia. zcases.
      replace (span - pk + 1 + j - (span - pk + 1)) with j by lia.
      unfold ins_alpha. now replace (j + span + 1) with (span + j + 1) by lia. }
    assert (Hw : length (row old (span - pk + 1 + j))
                 = length (row old (span - pk + 1 + j - 1)))
      by (rewrite !Hrow by lia; reflexivity).
    split; [| split].
    + rewrite E. unfold Zlength'. rewrite affine_row_length by exact Hw.
      rewrite Hrow by lia.
      pose proof (rectangular_row old cols 0 Hrect ltac:(lia)) as R.
      unfold Zlength' in R. lia.
    + intros d Hd. rewrite E. now apply zth_affine_row.
    + rewrite Pw by lia. zcases.
      replace (span - pk + 1 + j - (span - pk + 1)) with j by lia.
      unfold affine, ins_alpha.
      now replace (j + span + 1) with (span + j + 1) by lia.
  - intros c Hc0. unfold n in *.
    split; [rewrite Pc by lia | rewrite Pw by lia]; zcases.
  - intros c Hc0. unfold n in *.
    split; [rewrite Pc by lia | rewrite Pw by lia]; zcases.
Qed.

Lemma NewCurveKnotIns_affine_witness :
  clamped 3 7 ex_knots7 = true /\
  knot_present ex_knots7 (Q2Qc (3 # 10)) = false /\
  exists span nk nl nc nw,
    3 <= span <= 7 - 1 /\
    (zth ex_knots7 span < Q2Qc (3 # 10))%Qc /\
    (Q2Qc (3 # 10) < zth ex_knots7 (span + 1))%Qc /\
    (forall fuel, (Z.to_nat (7 - 3) <= fuel)%nat ->
       FindSpan fuel ex_mfa7 0 (Q2Qc (3 # 10)) 7 = ret span /\
       NewCurveKnotIns fuel ex_mfa7 0 ex_knots7 ex_levels7 ex_curve7
                       ex_weights7 (Q2Qc (3 # 10)) 1
       = ret (nk, nl, nc, nw)) /\
    Zlength' nc = 7 + 1 /\ Zlength' nw = 7 + 1 /\
    (forall j, 0 <= j < 3 ->
       let L := span - 3 + 1 in
       let alpha := ((Q2Qc (3 # 10) - zth ex_knots7 (L + j))
                     / (zth ex_knots7 (span + j + 1) - zth ex_knots7 (L + j)))%Qc in
       Zlength' (row nc (L + j)) = 1 /\
       (forall d, 0 <= d < 1 ->
          zth (row nc (L + j)) d
          = (alpha * zth (row ex_curve7 (L + j)) d
             + (T1 - alpha) * zth (row ex_curve7 (L + j - 1)) d)%Qc) /\
       zth nw (L + j) = (alpha * zth ex_weights7 (L + j)
                         + (T1 - alpha) * zth ex_weights7 (L + j - 1))%Qc) /\
    (forall c, 0 <= c < span - 3 + 1 ->
       row nc c = row ex_curve7 c /\ zth nw c = zth ex_weights7 c) /\
    (forall c, span < c <= 7 ->
       row nc c = row ex_curve7 (c - 1) /\ zth nw c = zth ex_weights7 (c - 1)).
Proof.
  split; [reflexivity | split; [reflexivity |]].
  apply (NewCurveKnotIns_affine ex_mfa7 0 ex_knots7 ex_levels7 ex_curve7
           ex_weights7 (Q2Qc (3 # 10)) 1 3 1);
    try reflexivity; try lia; qc_dec.
Defined.

(** On a curve of degree 0 the routine reads row [p - 1 = -1] of its
    temporary control points: no value that is not yet a knot can be
    inserted. *)
Lemma NewCurveKnotIns_degree0 :
  nondecreasing ex_knots0 = true /\ clamped 0 1 ex_knots0 = true /\
  knot_present ex_knots0 (Q2Qc (1 # 4)) = false /\
  forall fuel, (1 <= fuel)%nat ->
    FindSpan fuel ex_mfa0 0 (Q2Qc (1 # 4)) 1 = ret 0 /\
    NewCurveKnotIns fuel ex_mfa0 0 ex_knots0 ex_levels0 ex_curve0 ex_weights0
                    (Q2Qc (1 # 4)) 1
    = fail Undefined.
Proof.
  split; [reflexivity |]. split; [reflexivity |]. split; [reflexivity |].
  intros [| fuel] H; [lia |]. split; reflexivity.
Qed.

(** ** C7: which insertions are rejected *)

(** The value 1/2 is a knot of level 1 only; inserting it at level 0 is
    rejected all the same: the test compares knot values and never reads
    the levels. *)
Lemma NewCurveKnotIns_rejects_other_level :
  present_at_level ex_knots3 ex_levels3 (Q2Qc (1 # 2)) 0 = false /\
  forall fuel, (1 <= fuel)%nat ->
    NewCurveKnotIns fuel ex_mfa3 0 ex_knots3 ex_levels3 ex_curve3 ex_weights3
                    (Q2Qc (1 # 2)) 0
    = exit_with duplicate_knot_msg 0.
Proof.
  split; [reflexivity |].
  intros [| fuel] H; [lia |]. reflexivity.
Qed.

(** The value of the last knot is not rejected: [FindSpan] answers
    [nctrl - 1] there, whose knot is smaller. *)
Example NewCurveKnotIns_accepts_last_knot :
  knot_present ex_knots3 T1 = true /\
  option_map (fun r => raw (fst (fst (fst r))))
    (value (NewCurveKnotIns 0 ex_mfa3 0 ex_knots3 ex_levels3 ex_curve3
                            ex_weights3 T1 0))
  = Some [0; 0; 1 # 2; 1; 1; 1]%Q.
Proof. split; vm_compute; reflexivity. Qed.

Lemma quiet_ret {A} (a : A) : quiet (ret a).
Proof. split; [reflexivity | discriminate]. Qed.

Lemma quiet_bind {A B} (m : M A) (k : A -> M B) :
  quiet m -> (forall a, quiet (k a)) -> quiet (bind m k).
Proof.
  intros [Hm1 Hm2] Hk. unfold quiet, bind in *.
  destruct m as [l [a | f]]; cbn [fst snd] in *.
  - destruct (Hk a) as [K1 K2]. subst l. split; [exact K1 | exact K2].
  - split; [exact Hm1 |]. intros status E. apply (Hm2 status).
    injection E as E. now rewrite E.
Qed.

Lemma quiet_vget {A} (v : list A) (i : Z) : quiet (vget v i).
Proof.
  unfold vget. destruct (i <? 0); [split; [reflexivity | discriminate] |].
  destruct (nth_error v (Z.to_nat i)); split;
    try reflexivity; discriminate.
Qed.

Lemma quiet_vset {A} (v : list A) (i : Z) (a : A) : quiet (vset v i a).
Proof.
  unfold vset. destruct ((0 <=? i) && (i <? Zlength' v)); split;
    try reflexivity; discriminate.
Qed.

Lemma quiet_Tdiv (x y : T) : quiet (Tdiv x y).
Proof.
  unfold Tdiv. destruct (Teqb y T0); split; try reflexivity; discriminate.
Qed.

Lemma quiet_for_n {St} (body : Z -> St -> M St) :
  (forall i s, quiet (body i s)) ->
  forall (n : nat) (i : Z) (s : St), quiet (for_n n i body s).
Proof.
  intros Hb. induction n as [| n IH]; intros i s; cbn [for_n].
  - apply quiet_ret.
  - apply quiet_bind; [apply Hb | intros s'; apply IH].
Qed.

Lemma quiet_for_range {St} (lo hi : Z) (body : Z -> St -> M St) (s : St) :
  (forall i s', quiet (body i s')) -> quiet (for_range lo hi body s).
Proof. intros Hb. unfold for_range. now apply quiet_for_n. Qed.

(** The steps of the source behind its duplicate test are reads, writes and
    divisions. *)
Ltac quiet_steps :=
  repeat first
    [ apply quiet_ret | apply quiet_vget | apply quiet_vset
    | apply quiet_Tdiv
    | apply quiet_for_range; intros ? ?; cbv beta
    | apply quiet_bind; [| intros ?; cbv beta]
    | match goal with
      | |- quiet (match ?x with _ => _ end) => destruct x
      end ].

(** C7 (amended). On a non-decreasing clamped knot vector and for [u] in
    [[knots[p], knots[nctrl])], [NewCurveKnotIns] rejects the insertion, by
    writing an error to stderr and calling [exit(0)], exactly when [u] equals
    an existing knot value, whatever the level of that knot. For every other
    [u] the insertion is not rejected: nothing is written and [exit] is not
    called; for a degree [p >= 1] the insertion completes and returns the
    new curve. *)
Theorem NewCurveKnotIns_rejects_iff_present (mfa : MFA_Data) (cur_dim : Z)
        (knots : list T) (klev : list Z) (old : list (list T))
        (oldw : list T) (u : T) (lev pk : Z) (fuel : nat) :
  let n := Zlength' old in
  vget (all_knots (tmesh mfa)) cur_dim = ret knots ->
  vget (p mfa) cur_dim = ret pk ->
  nondecreasing knots = true ->
  clamped pk n knots = true ->
  Zlength' klev = n + pk + 1 -> Zlength' oldw = n ->
  (zth knots pk <= u)%Qc -> (u < zth knots n)%Qc ->
  (Z.to_nat (n - pk) <= fuel)%nat ->
  (knot_present knots u = true ->
   NewCurveKnotIns fuel mfa cur_dim knots klev old oldw u lev
   = exit_with duplicate_knot_msg 0) /\
  (knot_present knots u = false ->
   quiet (NewCurveKnotIns fuel mfa cur_dim knots klev old oldw u lev) /\
   (1 <= pk ->
    exists r, NewCurveKnotIns fuel mfa cur_dim knots klev old oldw u lev
              = ret r)).
Proof.
  intros n Hk Hp Hs Hc Hll Hlw Hlo Hhi Hf.
  destruct (clamped_facts _ _ _ Hc) as (Hp0 & Hpn & Hlen).
  destruct (FindSpan_interior mfa cur_dim knots pk n u)
    as (span & Hfs & Hr & Hl & Hu); auto.
  split.
  - intros Hpres. apply knot_present_true in Hpres as (i & Hi & Hiu).
    assert (Heq : zth knots span = u).
    { destruct (Qcle_lt_or_eq _ _ Hl) as [Hlt | E]; auto. exfalso.
      destruct (Z_le_gt_dec i span) as [Hle | Hgt].
      - assert ((zth knots i <= zth knots span)%Qc)
          by (apply nondecreasing_zth; auto; lia).
        rewrite Hiu in *. eapply Qcle_not_lt; eauto.
      - assert ((zth knots (span + 1) <= zth knots i)%Qc)
          by (apply nondecreasing_zth; auto; lia).
        rewrite Hiu in *. eapply Qcle_not_lt; eauto. }
    unfold NewCurveKnotIns. cbv zeta. rewrite Hp. mret.
    fold n. rewrite (Hfs fuel Hf). mret. rewrite Hk. mret.
    rewrite (vget_zth knots span) by lia. mret.
    apply Teqb_true in Heq. now rewrite Heq.
  - intros Hnew. pose proof (knot_present_false _ _ Hnew) as Hnk.
    assert (Hne : zth knots span <> u) by (apply Hnk; lia).
    split.
    + unfold NewCurveKnotIns. cbv zeta. rewrite Hp. mret.
      fold n. rewrite (Hfs fuel Hf). mret. rewrite Hk. mret.
      rewrite (vget_zth knots span) by lia. mret.
      apply Teqb_false in Hne. rewrite Hne.
      quiet_steps.
    + intros Hp1.
      destruct (NewCurveKnotIns_spec fuel mfa cur_dim knots klev
                  old oldw u lev pk span)
        as (nk & nl & nc & nw & He & _); auto; try lia.
      { apply alpha_denominators with (n := n) (u := u); auto. }
      exists (nk, nl, nc, nw). exact He.
Qed.

Lemma NewCurveKnotIns_rejects_iff_present_witness :
  clamped 3 7 ex_knots7 = true /\
  (knot_present ex_knots7 (Q2Qc (1 # 2)) = true ->
   NewCurveKnotIns 4 ex_mfa7 0 ex_knots7 ex_levels7 ex_curve7 ex_weights7
                   (Q2Qc (1 # 2)) 1
   = exit_with duplicate_knot_msg 0) /\
  (knot_present ex_knots7 (Q2Qc (1 # 2)) = false ->
   quiet (NewCurveKnotIns 4 ex_mfa7 0 ex_knots7 ex_levels7 ex_curve7
                          ex_weights7 (Q2Qc (1 # 2)) 1) /\
   (1 <= 3 ->
    exists r, NewCurveKnotIns 4 ex_mfa7 0 ex_knots7 ex_levels7 ex_curve7
                              ex_weights7 (Q2Qc (1 # 2)) 1
              = ret r)).
Proof.
  split; [reflexivity |].
  apply (NewCurveKnotIns_rejects_iff_present ex_mfa7 0 ex_knots7 ex_levels7
           ex_curve7 ex_weights7 (Q2Qc (1 # 2)) 1 3 4%nat);
    try reflexivity; try lia; qc_dec.
Defined.

(** ** C10: the constructor's default number of control points *)

Lemma firstn_S_nth {A} (k : nat) (l : list A) (d : A) :
  (k < length l)%nat -> firstn (S k) l = firstn k l ++ [nth k l d].
Proof.
  revert k. induction l as [| x l IH]; intros [| k] H; simpl in *; try lia; auto.
  f_equal. apply IH. lia.
Qed.

Lemma default_nctrl_pts_empty (p_ : list Z) :
  default_nctrl_pts p_ [] = ret (map (fun x => x + 1) p_).
Proof.
  unfold default_nctrl_pts. change (Zlength' [] =? 0) with true. cbv iota.
  set (P := fun (k : Z) (n : list Z) =>
              length n = length p_ /\
              firstn (Z.to_nat k) n
              = map (fun x => x + 1) (firstn (Z.to_nat k) p_)).
  match goal with
  | |- for_range _ _ ?body _ = _ =>
      destruct (for_range_inv P body 0 (Zlength' p_) (repeat 0 (length p_)))
        as (n & He & P1 & P2)
  end.
  - unfold Zlength'. lia.
  - unfold P. split; [apply repeat_length | reflexivity].
  - intros k n Hk [P1 P2]. unfold Zlength' in Hk.
    rewrite (vget_nth 0 p_ k) by (unfold Zlength'; lia). mret.
    rewrite vset_ok by (unfold Zlength'; lia).
    eexists. split; [reflexivity |]. unfold P.
    rewrite replace_nth_length. split; auto.
    replace (Z.to_nat (k + 1)) with (S (Z.to_nat k)) by lia.
    rewrite firstn_S_replace_nth by lia. rewrite P2.
    rewrite (firstn_S_nth (Z.to_nat k) p_ 0) by lia.
    now rewrite map_app.
  - rewrite He. f_equal. unfold Zlength' in P2.
    rewrite Nat2Z.id in P2. rewrite firstn_all2 in P2 by lia.
    now rewrite firstn_all in P2.
Qed.

Lemma nth_map_in {A B} (f : A -> B) (l : list A) (i : nat) (d : B) (d' : A) :
  (i < length l)%nat -> nth i (map f l) d = f (nth i l d').
Proof.
  intros H. rewrite nth_indep with (d' := f d') by (rewrite length_map; lia).
  apply map_nth.
Qed.

Lemma init_knots_spec (p_ n : list Z) (tm : Tmesh) :
  length n = length p_ ->
  init_knots p_ n tm =
  ret (mkTmesh
         (map (fun i => zeros (nth i n 0 + nth i p_ 0 + 1)) (seq 0 (length p_)))
         (map (fun i => repeat 0 (Z.to_nat (nth i n 0 + nth i p_ 0 + 1)))
              (seq 0 (length p_)))
         (map (fun i => repeat 0 (Z.to_nat (nth i n 0 + nth i p_ 0 + 1)))
              (seq 0 (length p_)))
         (tensor_prods tm)).
Proof.
  intros Hl. unfold init_knots.
  set (P := fun (k : Z) (st : list (list T) * list (list Z)) =>
              fst st = map (fun i => zeros (nth i n 0 + nth i p_ 0 + 1))
                           (seq 0 (Z.to_nat k)) /\
              snd st = map (fun i => repeat 0 (Z.to_nat (nth i n 0 + nth i p_ 0 + 1)))
                           (seq 0 (Z.to_nat k))).
  match goal with
  | |- bind (for_range _ _ ?body _) _ = _ =>
      destruct (for_range_inv P body 0 (Zlength' p_) ([], []))
        as ([ks ls] & He & P1 & P2)
  end.
  - unfold Zlength'. lia.
  - unfold P. split; reflexivity.
  - intros k [ks ls] Hk [P1 P2]. unfold Zlength' in Hk. cbn [fst snd] in *.
    rewrite (vget_nth 0 n k) by (unfold Zlength'; lia). mret.
    rewrite (vget_nth 0 p_ k) by (unfold Zlength'; lia). mret.
    eexists. split; [reflexivity |]. unfold P. cbn [fst snd].
    replace (Z.to_nat (k + 1)) with (S (Z.to_nat k)) by lia.
    rewrite seq_S, !map_app. cbn [map Nat.add]. now rewrite P1, P2.
  - rewrite He. mret. cbn [fst snd] in *. unfold Zlength' in *.
    rewrite Nat2Z.id in *. now rewrite P1, P2.
Qed.

Lemma degrees_ok_nth (p_ : list Z) (i : nat) :
  degrees_ok p_ = true -> 0 <= nth i p_ 0.
Proof.
  unfold degrees_ok. intros H.
  destruct (Nat.lt_ge_cases i (length p_)) as [Hi | Hi].
  - rewrite forallb_forall in H. apply Z.leb_le, H, nth_In, Hi.
  - rewrite nth_overflow by lia. lia.
Qed.

(** C10. Given a size-0 [nctrl_pts], the constructor sets the number of
    control points of every dimension [i] to [p(i) + 1] and then initialises
    the knots, so that (degrees being non-negative) the knot vector of
    dimension [i] has [2 * (p(i) + 1)] entries. *)
Theorem MFA_Data_default_nctrl_pts (p_ : list Z) (min_dim_ max_dim_ : Z) :
  degrees_ok p_ = true ->
  exists mfa,
    default_nctrl_pts p_ [] = ret (map (fun x => x + 1) p_) /\
    MFA_Data_new p_ [] min_dim_ max_dim_ = ret mfa /\
    p mfa = p_ /\ dom_dim mfa = Zlength' p_ /\
    Zlength' (all_knots (tmesh mfa)) = Zlength' p_ /\
    forall i, 0 <= i < Zlength' p_ ->
      Zlength' (nth (Z.to_nat i) (all_knots (tmesh mfa)) [])
      = 2 * (zthZ p_ i + 1).
Proof.
  intros Hd. unfold MFA_Data_new. cbv zeta.
  rewrite default_nctrl_pts_empty. mret.
  rewrite init_knots_spec by apply length_map. mret.
  eexists. split; [reflexivity |]. split; [reflexivity |].
  cbn [p dom_dim tmesh all_knots]. repeat split.
  - unfold Zlength'. now rewrite length_map, length_seq.
  - intros i Hi. unfold Zlength' in Hi.
    rewrite (nth_map_in _ _ _ _ 0%nat) by (rewrite length_seq; lia).
    rewrite seq_nth by lia. cbn [Nat.add].
    rewrite zeros_length.
    rewrite (nth_map_in _ _ _ _ 0) by lia. unfold zthZ.
    pose proof (degrees_ok_nth p_ (Z.to_nat i) Hd). lia.
Qed.

Lemma MFA_Data_default_nctrl_pts_witness :
  degrees_ok [3; 2] = true /\
  exists mfa,
    default_nctrl_pts [3; 2] [] = ret (map (fun x => x + 1) [3; 2]) /\
    MFA_Data_new [3; 2] [] (-1) (-1) = ret mfa /\
    p mfa = [3; 2] /\ dom_dim mfa = Zlength' [3; 2] /\
    Zlength' (all_knots (tmesh mfa)) = Zlength' [3; 2] /\
    forall i, 0 <= i < Zlength' [3; 2] ->
      Zlength' (nth (Z.to_nat i) (all_knots (tmesh mfa)) [])
      = 2 * (zthZ [3; 2] i + 1).
Proof.
  split; [reflexivity |].
  apply (MFA_Data_default_nctrl_pts [3; 2] (-1) (-1)). reflexivity.
Defined.

Example MFA_Data_new_ex :
  option_map (fun m => map (@length Qc) (all_knots (tmesh m)))
             (value (MFA_Data_new [3; 2] [] (-1) (-1)))
  = Some [8; 6]%nat.
Proof. reflexivity. Qed.

(** ** The span search outside the knot range *)

Lemma FindSpan_loop_above (knots : list T) (u : T) (hi : Z) :
  nondecreasing knots = true -> hi < Zlength' knots ->
  (zth knots hi < u)%Qc ->
  forall (fuel : nat) (low mid : Z),
    0 <= mid < hi -> FindSpan_loop fuel knots u low hi mid = fail Timeout.
Proof.
  intros Hs Hlen Hu. induction fuel as [| fuel IH]; intros low mid Hm.
  - reflexivity.
  - cbn [FindSpan_loop].
    rewrite (vget_zth knots mid) by lia. mret.
    assert (H1 : (zth knots mid <= zth knots hi)%Qc)
      by (apply nondecreasing_zth; auto; lia).
    assert (H2 : (zth knots (mid + 1) <= zth knots hi)%Qc)
      by (apply nondecreasing_zth; auto; lia).
    assert (E1 : Tltb u (zth knots mid) = false)
      by (apply Tltb_false; qc_lra).
    rewrite E1. rewrite (vget_zth knots (mid + 1)) by lia. mret.
    assert (E2 : Tleb (zth knots (mid + 1)) u = true)
      by (apply Tleb_true; qc_lra).
    rewrite E2. apply IH.
    rewrite Z.quot_div_nonneg by lia. Z.div_mod_to_equations. lia.
Qed.

Lemma FindSpan_loop_below (knots : list T) (u : T) (lo : Z) :
  nondecreasing knots = true -> 0 <= lo ->
  (u < zth knots lo)%Qc ->
  forall (fuel : nat) (high mid : Z),
    lo <= mid < Zlength' knots ->
    FindSpan_loop fuel knots u lo high mid = fail Timeout.
Proof.
  intros Hs Hlo Hu. induction fuel as [| fuel IH]; intros high mid Hm.
  - reflexivity.
  - cbn [FindSpan_loop].
    rewrite (vget_zth knots mid) by lia. mret.
    assert (H1 : (zth knots lo <= zth knots mid)%Qc)
      by (apply nondecreasing_zth; auto; lia).
    assert (E1 : Tltb u (zth knots mid) = true)
      by (apply Tltb_true; qc_lra).
    rewrite E1. apply IH.
    rewrite Z.quot_div_nonneg by lia. Z.div_mod_to_equations. lia.
Qed.

(** X1. [FindSpan] has no range check: for a parameter below [knots[p]] or
    above [knots[nctrl]] of a non-decreasing knot vector every read of the
    binary search stays inside the vector, the loop condition never becomes
    false, and the search does not return, whatever the fuel. *)
Theorem FindSpan_outside_never_returns (mfa : MFA_Data) (cur_dim : Z)
        (knots : list T) (pk nctrl : Z) (u : T) :
  vget (all_knots (tmesh mfa)) cur_dim = ret knots ->
  vget (p mfa) cur_dim = ret pk ->
  nondecreasing knots = true ->
  0 <= pk < nctrl -> nctrl < Zlength' knots ->
  (u < zth knots pk)%Qc \/ (zth knots nctrl < u)%Qc ->
  forall fuel, FindSpan fuel mfa cur_dim u nctrl = fail Timeout.
Proof.
  intros Hk Hp Hs Hpk Hlen Hu fuel.
  assert (H1 : (zth knots pk <= zth knots nctrl)%Qc)
    by (apply nondecreasing_zth; auto; lia).
  unfold FindSpan. rewrite Hk. mret.
  rewrite (vget_zth knots nctrl) by lia. mret.
  assert (E : Teqb u (zth knots nctrl) = false).
  { apply Teqb_false. intros ->. destruct Hu as [Hu | Hu]; qc_lra. }
  rewrite E, Hp. mret.
  assert (Hm : pk <= (pk + nctrl) ÷ 2 < nctrl).
  { rewrite Z.quot_div_nonneg by lia. Z.div_mod_to_equations. lia. }
  destruct Hu as [Hu | Hu].
  - apply FindSpan_loop_below; auto; lia.
  - apply FindSpan_loop_above; auto; lia.
Qed.

Lemma FindSpan_outside_never_returns_witness :
  nondecreasing ex_knots7 = true /\
  (zth ex_knots7 7 < Q2Qc 2)%Qc /\
  forall fuel, FindSpan fuel ex_mfa7 0 (Q2Qc 2) 7 = fail Timeout.
Proof.
  split; [reflexivity | split; [qc_dec |]].
  apply (FindSpan_outside_never_returns ex_mfa7 0 ex_knots7 3 7 (Q2Qc 2));
    try reflexivity; try lia.
  right. qc_dec.
Defined.

(** ** The span search of the T-mesh on a mesh of one level *)

Lemma vget_all_equal (levels : list Z) (lev i : Z) :
  forallb (fun l => l =? lev) levels = true ->
  0 <= i < Zlength' levels -> vget levels i = ret lev.
Proof.
  intros Hall Hi. rewrite (vget_nth 0) by lia. f_equal.
  rewrite forallb_forall in Hall. apply Z.eqb_eq, Hall, nth_In.
  unfold Zlength' in Hi. lia.
Qed.

Lemma level_walk_same (n : nat) (levels : list Z) (lev mid : Z) :
  vget levels mid = ret lev ->
  level_walk (S n) levels lev mid = ret mid.
Proof.
  intros H. cbn [level_walk]. rewrite H. mret.
  now rewrite Z.ltb_irrefl.
Qed.

(** X2. On a mesh whose knots all have the level of the tensor product, and
    for a parameter inside both the tensor's knot range and
    [[knots[p], knots[nctrl]]], the T-mesh variant [FindSpan(cur_dim, u,
    tensor)] writes no diagnostic and returns the span the plain
    [FindSpan(cur_dim, u, nctrl)] returns. *)
Theorem FindSpan_tensor_one_level (mfa : MFA_Data) (cur_dim : Z)
        (tensor : TensorProduct) (knots : list T) (levels : list Z)
        (pk nctrl kmin kmax : Z) (u : T) :
  vget (all_knots (tmesh mfa)) cur_dim = ret knots ->
  vget (all_knot_levels (tmesh mfa)) cur_dim = ret levels ->
  vget (p mfa) cur_dim = ret pk ->
  vget (knot_mins tensor) cur_dim = ret kmin ->
  vget (knot_maxs tensor) cur_dim = ret kmax ->
  vget (nctrl_pts tensor) cur_dim = ret nctrl ->
  0 <= kmin < Zlength' knots -> 0 <= kmax < Zlength' knots ->
  Zlength' levels = Zlength' knots ->
  forallb (fun l => l =? level tensor) levels = true ->
  nondecreasing knots = true ->
  clamped pk nctrl knots = true ->
  (zth knots kmin <= u)%Qc -> (u <= zth knots kmax)%Qc ->
  (zth knots pk <= u)%Qc -> (u <= zth knots nctrl)%Qc ->
  exists i,
    pk <= i <= nctrl - 1 /\
    forall fuel, (Z.to_nat (nctrl - pk) <= fuel)%nat ->
      FindSpan_tensor fuel mfa cur_dim u tensor = ret i /\
      FindSpan fuel mfa cur_dim u nctrl = ret i.
Proof.
  intros Hk Hl Hp Hmin Hmax Hn Hkmin Hkmax Hll Hall Hs Hc Hlo1 Hhi1 Hlo Hhi.
  destruct (clamped_facts _ _ _ Hc) as (Hp0 & Hpn & Hlen).
  destruct (Qc_eq_dec u (zth knots nctrl)) as [Heq | Hne].
  - exists (nctrl - 1). split; [lia |]. intros fuel _.
    apply Teqb_true in Heq. split.
    + unfold FindSpan_tensor.
      rewrite Hk. mret. rewrite Hmin. mret.
      rewrite (vget_zth knots kmin) by lia. mret.
      apply Tltb_false in Hlo1. rewrite Hlo1. rewrite Hmax. mret.
      rewrite (vget_zth knots kmax) by lia. mret.
      apply Tltb_false in Hhi1. rewrite Hhi1. mret.
      rewrite Hn. mret. rewrite (vget_zth knots nctrl) by lia. mret.
      rewrite Hl. mret. rewrite Heq.
      rewrite (vget_all_equal levels (level tensor)) by (auto; lia). mret.
      now rewrite Z.eqb_refl.
    + unfold FindSpan. rewrite Hk. mret.
      rewrite (vget_zth knots nctrl) by lia. mret. now rewrite Heq.
  - assert (Hlt : (u < zth knots nctrl)%Qc).
    { destruct (Qcle_lt_or_eq _ _ Hhi); auto. contradiction. }
    destruct (FindSpan_loop_spec knots u pk nctrl
                (Z.to_nat (nctrl - pk)) pk nctrl) as (i & Hi & Hr & _);
      auto; try lia.
    exists i. split; [lia |]. intros fuel Hf.
    apply Teqb_false in Hne. split.
    + unfold FindSpan_tensor.
      rewrite Hk. mret. rewrite Hmin. mret.
      rewrite (vget_zth knots kmin) by lia. mret.
      apply Tltb_false in Hlo1. rewrite Hlo1. rewrite Hmax. mret.
      rewrite (vget_zth knots kmax) by lia. mret.
      apply Tltb_false in Hhi1. rewrite Hhi1. mret.
      rewrite Hn. mret. rewrite (vget_zth knots nctrl) by lia. mret.
      rewrite Hl. mret. rewrite Hne. rewrite Hp. mret.
      rewrite (Hi fuel Hf). mret.
      assert (Hv : vget levels i = ret (level tensor))
        by (apply vget_all_equal; auto; lia).
      replace (Z.to_nat i + 1)%nat with (S (Z.to_nat i)) by lia.
      rewrite level_walk_same by exact Hv. mret.
      rewrite Hv. mret. now rewrite Z.eqb_refl.
    + unfold FindSpan. rewrite Hk. mret.
      rewrite (vget_zth knots nctrl) by lia. mret.
      rewrite Hne, Hp. mret. now apply Hi.
Qed.

Lemma FindSpan_tensor_one_level_witness :
  clamped 3 7 ex_knots7 = true /\
  forallb (fun l => l =? level ex_tensor7) ex_levels7 = true /\
  exists i,
    3 <= i <= 7 - 1 /\
    forall fuel, (Z.to_nat (7 - 3) <= fuel)%nat ->
      FindSpan_tensor fuel ex_mfa7 0 (Q2Qc (3 # 10)) ex_tensor7 = ret i /\
      FindSpan fuel ex_mfa7 0 (Q2Qc (3 # 10)) 7 = ret i.
Proof.
  split; [reflexivity | split; [reflexivity |]].
  apply (FindSpan_tensor_one_level ex_mfa7 0 ex_tensor7 ex_knots7 ex_levels7
           3 7 0 10 (Q2Qc (3 # 10)));
    try reflexivity; try (vm_compute; split; [discriminate | reflexivity]);
    qc_dec.
Defined.

(** ** The basis at a knot of full multiplicity *)

Lemma raise_left_zero (R L : Z -> T) (j : Z) (s : list T) :
  forall r0,
    (forall r, r0 <= r < r0 + Zlength' s ->
               L (j - r) = T0 /\ R (r + 1) <> T0) ->
    raise R L j r0 T0 s = s ++ [T0].
Proof.
  induction s as [| sr s IH]; intros r0 H; [reflexivity |].
  cbn [raise app]. unfold Zlength' in *. cbn [length] in H.
  destruct (H r0) as [HL HR]; [lia |].
  rewrite HL. f_equal.
  - field. exact HR.
  - match goal with
    | |- raise _ _ _ _ ?x _ = _ => replace x with T0 by (unfold Qcdiv; ring)
    end.
    apply IH. intros r Hr. apply H. lia.
Qed.

Lemma raise_right_zero (R L : Z -> T) (j : Z) (s : list T) :
  forall r0 saved,
    (forall r, r0 <= r < r0 + Zlength' s ->
               R (r + 1) = T0 /\ L (j - r) <> T0) ->
    raise R L j r0 saved s = saved :: s.
Proof.
  induction s as [| sr s IH]; intros r0 saved H; [reflexivity |].
  cbn [raise]. unfold Zlength' in *. cbn [length] in H.
  destruct (H r0) as [HR HL]; [lia |].
  rewrite HR. f_equal; [ring |].
  rewrite IH by (intros r Hr; apply H; lia).
  f_equal. field. exact HL.
Qed.

Lemma basis_left_zero (R L : Z -> T) (n : nat) :
  (forall a, 1 <= a <= Z.of_nat n -> L a = T0 /\ R a <> T0) ->
  basis R L n = T1 :: repeat T0 n.
Proof.
  induction n as [| n IH]; intros H; [reflexivity |].
  cbn [basis]. rewrite IH by (intros a Ha; apply H; lia).
  rewrite raise_left_zero.
  - cbn [app]. f_equal. symmetry. apply repeat_cons.
  - unfold Zlength'. cbn [length]. rewrite repeat_length.
    intros r Hr. split; apply H; lia.
Qed.

Lemma basis_right_zero (R L : Z -> T) (n : nat) :
  (forall a, 1 <= a <= Z.of_nat n -> R a = T0 /\ L a <> T0) ->
  basis R L n = repeat T0 n ++ [T1].
Proof.
  induction n as [| n IH]; intros H; [reflexivity |].
  cbn [basis]. rewrite IH by (intros a Ha; apply H; lia).
  rewrite raise_right_zero; [reflexivity |].
  unfold Zlength'. rewrite length_app, repeat_length. cbn [length].
  intros r Hr. split; apply H; lia.
Qed.


(** ** [FastBasisFuns] *)

Lemma vget_cases {A} (v : list A) (i : Z) :
  (exists a, vget v i = ret a /\ 0 <= i < Zlength' v) \/
  (vget v i = fail Undefined /\ ~ 0 <= i < Zlength' v).
Proof.
  unfold vget, Zlength'. destruct (Z.ltb_spec i 0).
  - right. split; [reflexivity | lia].
  - destruct (nth_error v (Z.to_nat i)) as [a |] eqn:E.
    + left. exists a. split; [reflexivity |].
      assert (Z.to_nat i < length v)%nat
        by (apply nth_error_Some; congruence).
      lia.
    + right. split; [reflexivity |]. apply nth_error_None in E. lia.
Qed.

Lemma vat_cases {A} (v : list A) (i : Z) :
  (exists a, vat v i = ret a /\ 0 <= i < Zlength' v) \/
  (vat v i = fail OutOfRange /\ ~ 0 <= i < Zlength' v).
Proof.
  unfold vat, Zlength'. destruct (Z.ltb_spec i 0).
  - right. split; [reflexivity | lia].
  - destruct (nth_error v (Z.to_nat i)) as [a |] eqn:E.
    + left. exists a. split; [reflexivity |].
      assert (Z.to_nat i < length v)%nat
        by (apply nth_error_Some; congruence).
      lia.
    + right. split; [reflexivity |]. apply nth_error_None in E. lia.
Qed.

Ltac vget_in v i :=
  let a := fresh "a" in
  let E := fresh "E" in
  destruct (vget_cases v i) as [(a & E & _) | (_ & E)];
  [rewrite E; mret | exfalso; apply E; lia].



(** X6. The diagnostic output of [FastBasisFuns] reads [N[2]] and
    [bfi.right.at(2)] whatever the degree. With an [N] of fewer than three
    entries (the [p + 1] entries of a degree below 2) the call is undefined
    behaviour; with scratch vectors of fewer than three entries it throws
    [std::out_of_range] unless it is undefined before. In neither case does
    it return. *)
Theorem FastBasisFuns_needs_three (mfa : MFA_Data) (cur_dim : Z) (u : T)
        (span : Z) (N : list T) (bfi : BasisFunInfo) :
  Zlength' N <= 2 \/ Zlength' (right bfi) <= 2 ->
  FastBasisFuns mfa cur_dim u span N bfi = fail Undefined \/
  FastBasisFuns mfa cur_dim u span N bfi = fail OutOfRange.
Proof.
  intros H. unfold FastBasisFuns.
  destruct (Z.eq_dec (Zlength' N) 0) as [H0 | H0].
  { left. unfold vset. rewrite H0. reflexivity. }
  assert (0 < Zlength' N) by (unfold Zlength' in *; lia).
  rewrite vset_ok by lia. mret.
  set (N1 := replace_nth (Z.to_nat 0) N T1).
  assert (HN1 : Zlength' N1 = Zlength' N)
    by (unfold N1; apply Zlength_replace_nth).
  destruct (vget_cases (p mfa) cur_dim) as [(pk & Fp & _) | (Fp & _)];
    rewrite Fp; [mret | now left].
  unfold FastBasisFuns_prints.
  vget_in N1 0.
  destruct (vget_cases N1 1) as [(a1 & F1 & _) | (F1 & _)];
    rewrite F1; [mret | now left].
  destruct (vget_cases N1 2) as [(a2 & F2 & B) | (F2 & _)];
    rewrite F2; [mret | now left].
  destruct (vat_cases (right bfi) 0) as [(b0 & G0 & _) | (G0 & _)];
    rewrite G0; [mret | now right].
  destruct (vat_cases (right bfi) 1) as [(b1 & G1 & _) | (G1 & _)];
    rewrite G1; [mret | now right].
  destruct (vat_cases (right bfi) 2) as [(b2 & G2 & B2) | (G2 & _)];
    [lia | rewrite G2; now right].
Qed.

Lemma FastBasisFuns_needs_three_witness :
  FastBasisFuns ex_mfa3 0 (Q2Qc (1 # 4)) 1 (zeros 2) (BasisFunInfo_new [2])
  = fail Undefined \/
  FastBasisFuns ex_mfa3 0 (Q2Qc (1 # 4)) 1 (zeros 2) (BasisFunInfo_new [2])
  = fail OutOfRange.
Proof.
  apply (FastBasisFuns_needs_three ex_mfa3 0 (Q2Qc (1 # 4)) 1 (zeros 2)
           (BasisFunInfo_new [2])).
  left. vm_compute. discriminate.
Defined.



(** ** Well-formed knot vectors from their entries *)

Lemma nondecreasing_of_nth (v : list T) :
  (forall n, (S n < length v)%nat -> (nth n v T0 <= nth (S n) v T0)%Qc) ->
  nondecreasing v = true.
Proof.
  induction v as [| a v IH]; intros H; [reflexivity |].
  destruct v as [| b v]; [reflexivity |].
  change (Tleb a b && nondecreasing (b :: v) = true).
  apply andb_true_intro. split.
  - apply Tleb_true. apply (H 0%nat). simpl. lia.
  - apply IH. intros n Hn. apply (H (S n)). simpl in *. lia.
Qed.

Lemma nondecreasing_of_zth (v : list T) :
  (forall i, 0 <= i -> i + 1 < Zlength' v ->
             (zth v i <= zth v (i + 1))%Qc) ->
  nondecreasing v = true.
Proof.
  intros H. apply nondecreasing_of_nth. intros n Hn.
  specialize (H (Z.of_nat n)). unfold zth, Zlength' in H.
  replace (Z.to_nat (Z.of_nat n + 1)) with (S n) in H by lia.
  rewrite Nat2Z.id in H. apply H; lia.
Qed.

Lemma forallb_of_nth {A} (f : A -> bool) (d : A) (v : list A) :
  (forall n, (n < length v)%nat -> f (nth n v d) = true) ->
  forallb f v = true.
Proof.
  intros H. apply forallb_forall. intros x Hx.
  destruct (In_nth v x d Hx) as (n & Hn & <-). now apply H.
Qed.

Lemma clamped_of_zth (pk nctrl : Z) (v : list T) :
  0 <= pk < nctrl -> Zlength' v = nctrl + pk + 1 ->
  (forall i, 0 <= i <= pk -> zth v i = zth v 0) ->
  (forall i, nctrl <= i <= nctrl + pk -> zth v i = zth v nctrl) ->
  clamped pk nctrl v = true.
Proof.
  intros Hp Hl H0 H1. unfold clamped.
  repeat (apply andb_true_intro; split);
    try (apply Z.leb_le; lia); try (apply Z.ltb_lt; lia);
    try (apply Z.eqb_eq; lia).
  - apply forallb_of_nth with (d := T0). intros n Hn.
    rewrite length_firstn in Hn. unfold Zlength' in Hl.
    apply Teqb_true. rewrite nth_firstn.
    destruct (Nat.ltb_spec n (Z.to_nat (pk + 1))); [| lia].
    specialize (H0 (Z.of_nat n)). unfold zth in H0 at 1.
    rewrite Nat2Z.id in H0. apply H0. lia.
  - apply forallb_of_nth with (d := T0). intros n Hn.
    rewrite length_skipn in Hn. unfold Zlength' in Hl.
    apply Teqb_true. rewrite nth_skipn.
    specialize (H1 (nctrl + Z.of_nat n)). unfold zth in H1 at 1.
    replace (Z.to_nat (nctrl + Z.of_nat n)) with (Z.to_nat nctrl + n)%nat
      in H1 by lia.
    apply H1. lia.
Qed.

Lemma clamped_ends (pk nctrl : Z) (v : list T) :
  clamped pk nctrl v = true ->
  (forall i, 0 <= i <= pk -> zth v i = zth v 0) /\
  (forall i, nctrl <= i <= nctrl + pk -> zth v i = zth v nctrl).
Proof.
  intros Hc. destruct (clamped_facts _ _ _ Hc) as (Hp0 & Hpn & Hlen).
  unfold clamped in Hc. apply andb_prop in Hc as [Hc H2].
  apply andb_prop in Hc as [_ H1].
  rewrite forallb_forall in H1, H2. unfold Zlength' in Hlen. split.
  - intros i Hi. apply Teqb_true, H1. unfold zth.
    replace (nth (Z.to_nat i) v T0)
      with (nth (Z.to_nat i) (firstn (Z.to_nat (pk + 1)) v) T0).
    + apply nth_In. rewrite length_firstn. lia.
    + rewrite nth_firstn.
      destruct (Nat.ltb_spec (Z.to_nat i) (Z.to_nat (pk + 1))); [auto | lia].
  - intros i Hi. apply Teqb_true, H2. unfold zth.
    replace (nth (Z.to_nat i) v T0)
      with (nth (Z.to_nat (i - nctrl)) (skipn (Z.to_nat nctrl) v) T0).
    + apply nth_In. rewrite length_skipn. lia.
    + rewrite nth_skipn. f_equal. lia.
Qed.

Lemma insert_at_nth {A} (d : A) (l m : list A) (k : nat) (x : A) :
  (k <= length l)%nat -> length m = S (length l) ->
  (forall c, (c < S (length l))%nat ->
     nth c m d = if (c <? k)%nat then nth c l d
                 else if (c =? k)%nat then x else nth (c - 1) l d) ->
  m = firstn k l ++ x :: skipn k l.
Proof.
  intros Hk Hm H.
  assert (Hf : length (firstn k l) = k) by (rewrite length_firstn; lia).
  apply nth_ext with (d := d) (d' := d).
  - rewrite length_app, Hf. cbn [length]. rewrite length_skipn. lia.
  - intros c Hc. rewrite H by lia.
    destruct (Nat.ltb_spec c k) as [C1 | C1].
    + rewrite app_nth1 by lia. rewrite nth_firstn.
      destruct (Nat.ltb_spec c k); [auto | lia].
    + rewrite app_nth2 by lia. rewrite Hf.
      destruct (Nat.eqb_spec c k) as [-> | C2].
      * now rewrite Nat.sub_diag.
      * destruct (c - k)%nat as [| j] eqn:Ej; [lia |].
        cbn [nth]. rewrite nth_skipn. f_equal. lia.
Qed.

(** ** The knot vector after an insertion *)

(** X7. When [NewCurveKnotIns] accepts a value [u], the knot vector it
    returns is the old one with [u] put in after position [span] (the levels
    likewise, with the level of the new knot); it is again non-decreasing
    and clamped, now for one control point more. *)
Theorem NewCurveKnotIns_knot_vector (mfa : MFA_Data) (cur_dim : Z)
        (knots : list T) (klev : list Z) (old : list (list T))
        (oldw : list T) (u : T) (lev pk : Z) :
  let n := Zlength' old in
  vget (all_knots (tmesh mfa)) cur_dim = ret knots ->
  vget (p mfa) cur_dim = ret pk ->
  1 <= pk ->
  nondecreasing knots = true ->
  clamped pk n knots = true ->
  Zlength' klev = n + pk + 1 -> Zlength' oldw = n ->
  (zth knots pk <= u)%Qc -> (u <= zth knots n)%Qc ->
  knot_present knots u = false ->
  exists span nk nl nc nw,
    pk <= span <= n - 1 /\
    (forall fuel, (Z.to_nat (n - pk) <= fuel)%nat ->
       NewCurveKnotIns fuel mfa cur_dim knots klev old oldw u lev
       = ret (nk, nl, nc, nw)) /\
    nk = firstn (Z.to_nat (span + 1)) knots
         ++ u :: skipn (Z.to_nat (span + 1)) knots /\
    nl = firstn (Z.to_nat (span + 1)) klev
         ++ lev :: skipn (Z.to_nat (span + 1)) klev /\
    nondecreasing nk = true /\
    clamped pk (n + 1) nk = true.
Proof.
  intros n Hk Hp Hp1 Hs Hc Hll Hlw Hlo Hhi Hnew.
  destruct (clamped_facts _ _ _ Hc) as (Hp0 & Hpn & Hlen).
  destruct (clamped_ends _ _ _ Hc) as (Hc0 & Hc1).
  pose proof (knot_present_false _ _ Hnew) as Hnk.
  assert (Hhi' : (u < zth knots n)%Qc).
  { destruct (Qcle_lt_or_eq _ _ Hhi) as [? | E]; auto.
    exfalso. apply (Hnk n); auto. lia. }
  destruct (FindSpan_interior mfa cur_dim knots pk n u)
    as (span & Hfs & Hr & Hl & Hu); auto.
  destruct (NewCurveKnotIns_spec (Z.to_nat (n - pk)) mfa cur_dim knots klev
              old oldw u lev pk span)
    as (nk & nl & nc & nw & He & L1 & L2 & _ & _ & Pk & Pl & _);
    auto; try lia.
  { apply Hnk. lia. }
  { apply alpha_denominators with (n := n) (u := u); auto. }
  fold n in L1, L2, Pk, Pl.
  exists span, nk, nl, nc, nw.
  split; [lia |]. split.
  { intros fuel Hf. rewrite <- He.
    apply NewCurveKnotIns_fuel with (span := span); apply Hfs; lia. }
  assert (Hmono : forall i j, 0 <= i <= j -> j < Zlength' knots ->
                              (zth knots i <= zth knots j)%Qc)
    by (apply nondecreasing_zth; auto).
  split; [| split; [| split]].
  - apply insert_at_nth with (d := T0); unfold Zlength' in *; try lia.
    intros c Hc2. specialize (Pk (Z.of_nat c)). unfold zth in Pk.
    rewrite !Nat2Z.id in Pk. rewrite Pk by lia.
    destruct (Nat.ltb_spec c (Z.to_nat (span + 1))),
             (Z.leb_spec (Z.of_nat c) span); try lia; auto.
    destruct (Nat.eqb_spec c (Z.to_nat (span + 1))),
             (Z.eqb_spec (Z.of_nat c) (span + 1)); try lia; auto.
    f_equal. lia.
  - apply insert_at_nth with (d := 0); unfold Zlength' in *; try lia.
    intros c Hc2. specialize (Pl (Z.of_nat c)). unfold zthZ in Pl.
    rewrite !Nat2Z.id in Pl. rewrite Pl by lia.
    destruct (Nat.ltb_spec c (Z.to_nat (span + 1))),
             (Z.leb_spec (Z.of_nat c) span); try lia; auto.
    destruct (Nat.eqb_spec c (Z.to_nat (span + 1))),
             (Z.eqb_spec (Z.of_nat c) (span + 1)); try lia; auto.
    f_equal. lia.
  - apply nondecreasing_of_zth. intros i Hi0 Hi1.
    rewrite !Pk by lia.
    destruct (Z.leb_spec i span), (Z.leb_spec (i + 1) span),
             (Z.eqb_spec i (span + 1)), (Z.eqb_spec (i + 1) (span + 1));
      try lia.
    + apply Hmono; lia.
    + replace i with span by lia. exact Hl.
    + replace (i + 1 - 1) with (span + 1) by lia. now apply Qclt_le_weak.
    + apply Hmono; lia.
  - apply clamped_of_zth; try lia.
    + intros i Hi. rewrite !Pk by lia.
      destruct (Z.leb_spec i span), (Z.leb_spec 0 span); try lia.
      now apply Hc0.
    + intros i Hi. rewrite !Pk by lia.
      destruct (Z.leb_spec i span), (Z.leb_spec (n + 1) span),
               (Z.eqb_spec i (span + 1)), (Z.eqb_spec (n + 1) (span + 1));
        try lia.
      replace (n + 1 - 1) with n by lia. apply Hc1. lia.
Qed.

Lemma NewCurveKnotIns_knot_vector_witness :
  clamped 3 7 ex_knots7 = true /\
  knot_present ex_knots7 (Q2Qc (3 # 10)) = false /\
  exists span nk nl nc nw,
    3 <= span <= 7 - 1 /\
    (forall fuel, (Z.to_nat (7 - 3) <= fuel)%nat ->
       NewCurveKnotIns fuel ex_mfa7 0 ex_knots7 ex_levels7 ex_curve7
                       ex_weights7 (Q2Qc (3 # 10)) 1
       = ret (nk, nl, nc, nw)) /\
    nk = firstn (Z.to_nat (span + 1)) ex_knots7
         ++ Q2Qc (3 # 10) :: skipn (Z.to_nat (span + 1)) ex_knots7 /\
    nl = firstn (Z.to_nat (span + 1)) ex_levels7
         ++ 1 :: skipn (Z.to_nat (span + 1)) ex_levels7 /\
    nondecreasing nk = true /\
    clamped 3 (7 + 1) nk = true.
Proof.
  split; [reflexivity | split; [reflexivity |]].
  apply (NewCurveKnotIns_knot_vector ex_mfa7 0 ex_knots7 ex_levels7 ex_curve7
           ex_weights7 (Q2Qc (3 # 10)) 1 3);
    try reflexivity; try lia; qc_dec.
Defined.

(** ** Weights under knot insertion *)

Lemma ins_alpha_unit (knots : list T) (u : T) (span pk n j : Z) :
  nondecreasing knots = true ->
  Zlength' knots = n + pk + 1 -> pk <= span <= n - 1 ->
  (zth knots span <= u)%Qc -> (u < zth knots (span + 1))%Qc ->
  0 <= j < pk ->
  (T0 <= ins_alpha knots u span pk j /\ ins_alpha knots u span pk j <= T1)%Qc.
Proof.
  intros Hs Hl Hsp Hlo Hhi Hj. unfold ins_alpha.
  assert (H1 : (zth knots (span + 1) <= zth knots (j + span + 1))%Qc)
    by (apply nondecreasing_zth; auto; lia).
  assert (H2 : (zth knots (span - pk + 1 + j) <= zth knots span)%Qc)
    by (apply nondecreasing_zth; auto; lia).
  set (a := zth knots (span - pk + 1 + j)) in *.
  set (b := zth knots (j + span + 1)) in *.
  assert (Hd : (T0 < b - a)%Qc) by qc_lra.
  split.
  - apply Qc_div_nonneg; [qc_lra | exact Hd].
  - assert (E : (T1 - (u - a) / (b - a) = (b - u) / (b - a))%Qc).
    { field. intros E. rewrite E in Hd.
      exact (Qcle_not_lt _ _ (Qcle_refl _) Hd). }
    assert (H3 : (T0 <= (b - u) / (b - a))%Qc)
      by (apply Qc_div_nonneg; [qc_lra | exact Hd]).
    rewrite <- E in H3. qc_lra.
Qed.

Lemma affine_between (alpha x y lo hi : T) :
  (T0 <= alpha -> alpha <= T1 -> lo <= x -> x <= hi -> lo <= y -> y <= hi ->
   lo <= affine alpha x y /\ affine alpha x y <= hi)%Qc.
Proof.
  intros H0 H1 Hx1 Hx2 Hy1 Hy2. unfold affine. split; qc_nra.
Qed.

Lemma affine_nonneg (alpha x y : T) :
  (T0 <= alpha -> alpha <= T1 -> T0 <= x -> T0 <= y ->
   T0 <= affine alpha x y)%Qc.
Proof.
  intros H0 H1 Hx Hy. unfold affine. qc_nra.
Qed.

(** X8. Knot insertion keeps the weights non-negative: every new weight is
    an old weight or the combination [alpha * w1 + (1 - alpha) * w0] of two
    neighbouring old weights with [0 <= alpha <= 1]. (Stated for a curve of
    degree [p >= 1] and a value of the knot range that is not yet a knot.) *)
Theorem NewCurveKnotIns_weights_nonneg (mfa : MFA_Data) (cur_dim : Z)
        (knots : list T) (klev : list Z) (old : list (list T))
        (oldw : list T) (u : T) (lev pk : Z) :
  let n := Zlength' old in
  vget (all_knots (tmesh mfa)) cur_dim = ret knots ->
  vget (p mfa) cur_dim = ret pk ->
  1 <= pk ->
  nondecreasing knots = true ->
  clamped pk n knots = true ->
  Zlength' klev = n + pk + 1 -> Zlength' oldw = n ->
  (zth knots pk <= u)%Qc -> (u <= zth knots n)%Qc ->
  knot_present knots u = false ->
  (forall i, 0 <= i < n -> (T0 <= zth oldw i)%Qc) ->
  exists nk nl nc nw,
    (forall fuel, (Z.to_nat (n - pk) <= fuel)%nat ->
       NewCurveKnotIns fuel mfa cur_dim knots klev old oldw u lev
       = ret (nk, nl, nc, nw)) /\
    Zlength' nw = n + 1 /\
    (forall c, 0 <= c <= n -> (T0 <= zth nw c)%Qc).
Proof.
  intros n Hk Hp Hp1 Hs Hc Hll Hlw Hlo Hhi Hnew Hw.
  destruct (clamped_facts _ _ _ Hc) as (Hp0 & Hpn & Hlen).
  pose proof (knot_present_false _ _ Hnew) as Hnk.
  assert (Hhi' : (u < zth knots n)%Qc).
  { destruct (Qcle_lt_or_eq _ _ Hhi) as [? | E]; auto.
    exfalso. apply (Hnk n); auto. lia. }
  destruct (FindSpan_interior mfa cur_dim knots pk n u)
    as (span & Hfs & Hr & Hl & Hu); auto.
  destruct (NewCurveKnotIns_spec (Z.to_nat (n - pk)) mfa cur_dim knots klev
              old oldw u lev pk span)
    as (nk & nl & nc & nw & He & _ & _ & _ & L4 & _ & _ & _ & Pw);
    auto; try lia.
  { apply Hnk. lia. }
  { apply alpha_denominators with (n := n) (u := u); auto. }
  fold n in L4, Pw.
  exists nk, nl, nc, nw. split; [| split; [exact L4 |]].
  { intros fuel Hf. rewrite <- He.
    apply NewCurveKnotIns_fuel with (span := span); apply Hfs; lia. }
  intros c Hc0. rewrite Pw by lia.
  destruct (Z.leb_spec c (span - pk)); [apply Hw; lia |].
  destruct (Z.leb_spec c span); [| apply Hw; lia].
  destruct (ins_alpha_unit knots u span pk n (c - (span - pk + 1)))
    as [A0 A1]; auto; try lia.
  apply affine_nonneg; auto; apply Hw; lia.
Qed.

Lemma NewCurveKnotIns_weights_nonneg_witness :
  clamped 3 7 ex_knots7 = true /\
  knot_present ex_knots7 (Q2Qc (3 # 10)) = false /\
  exists nk nl nc nw,
    (forall fuel, (Z.to_nat (7 - 3) <= fuel)%nat ->
       NewCurveKnotIns fuel ex_mfa7 0 ex_knots7 ex_levels7 ex_curve7
                       ex_weights7 (Q2Qc (3 # 10)) 1
       = ret (nk, nl, nc, nw)) /\
    Zlength' nw = 7 + 1 /\
    (forall c, 0 <= c <= 7 -> (T0 <= zth nw c)%Qc).
Proof.
  split; [reflexivity | split; [reflexivity |]].
  apply (NewCurveKnotIns_weights_nonneg ex_mfa7 0 ex_knots7 ex_levels7
           ex_curve7 ex_weights7 (Q2Qc (3 # 10)) 1 3);
    try reflexivity; try lia;
    try (intros i Hi; unfold zth, ex_weights7;
         rewrite (nth_repeat_lt T1 T0)
           by (change (Zlength' ex_curve7) with 7 in Hi; lia));
    qc_dec.
Defined.

(** ** [ExistCurveKnotIns] against [NewCurveKnotIns] *)

Lemma New_then_Exist (fuel : nat) (mfa : MFA_Data) (cur_dim : Z)
      (knots : list T) (klev : list Z) (old : list (list T)) (oldw : list T)
      (u : T) (lev pk span : Z) :
  let n := Zlength' old in
  vget (all_knots (tmesh mfa)) cur_dim = ret knots ->
  vget (p mfa) cur_dim = ret pk ->
  FindSpan fuel mfa cur_dim u n = ret span ->
  1 <= pk -> pk <= span <= n - 1 ->
  Zlength' knots = n + pk + 1 -> Zlength' klev = n + pk + 1 ->
  Zlength' oldw = n ->
  zth knots span <> u ->
  (forall i, 0 <= i < pk ->
     (zth knots (i + span + 1) - zth knots (span - pk + 1 + i))%Qc <> T0) ->
  exists nk nl nc nw,
    NewCurveKnotIns fuel mfa cur_dim knots klev old oldw u lev
    = ret (nk, nl, nc, nw) /\
    forall mfa',
      vget (all_knots (tmesh mfa')) cur_dim = ret nk ->
      vget (p mfa') cur_dim = ret pk ->
      ExistCurveKnotIns mfa' cur_dim (span + 1) old oldw u lev = ret (nc, nw).
Proof.
  intros n Hk Hp Hfs Hp1 Hsp Hlk Hll Hlw Hne Hden.
  unfold NewCurveKnotIns. cbv zeta. fold n.
  rewrite Hp. mret. rewrite Hfs. mret. rewrite Hk. mret.
  rewrite (vget_zth knots span) by lia. mret.
  apply Teqb_false in Hne. rewrite Hne.
  rewrite Hlk, Hll, Hlw.
  destruct (copy2_spec T0 0 knots klev (fun i => i) (fun i => i) 0 0 (span + 1)
              (zeros (n + pk + 1 + 1))
              (repeat 0 (Z.to_nat (n + pk + 1 + 1))))
    as (nk1 & nl1 & E1 & Lk1 & Ll1 & Pk1 & Pl1);
    [intros; lia | intros i Hi; zlen |].
  cbv beta in E1. rewrite E1. mret.
  rewrite vset_ok by zlen. mret. rewrite vset_ok by zlen. mret.
  destruct (copy2_spec T0 0 knots klev (fun i => i) (fun i => i + 1) 1
              (span + 1) (n + pk + 1)
              (replace_nth (Z.to_nat (span + 1)) nk1 u)
              (replace_nth (Z.to_nat (span + 1)) nl1 lev))
    as (nk2 & nl2 & E2 & Lk2 & Ll2 & Pk2 & Pl2);
    [intros; lia | intros i Hi; zlen |].
  cbv beta in E2. rewrite E2. mret.
  destruct (copy2_spec [] T0 old oldw (fun i => i) (fun i => i) 0
              0 (span - pk + 1)
              (zero_matrix (n + 1) (mcols old)) (zeros (n + 1)))
    as (nc1 & nw1 & E3 & Lc1 & Lw1 & Pc1 & Pw1);
    [intros; lia | intros i Hi; unfold n in *; zlen |].
  cbv beta in E3. rewrite E3. mret.
  destruct (copy2_spec [] T0 old oldw (fun i => i) (fun i => i + 1) 1
              span n nc1 nw1)
    as (nc2 & nw2 & E4 & Lc2 & Lw2 & Pc2 & Pw2);
    [intros; lia | intros i Hi; unfold n in *; zlen |].
  cbv beta in E4. rewrite E4. mret.
  destruct (copy2_spec [] T0 old oldw (fun i => span - pk + i) (fun i => i) 0
              0 (pk + 1)
              (zero_matrix (pk + 1) (mcols old)) (zeros (pk + 1)))
    as (tc1 & tw1 & E5 & Ltc1 & Ltw1 & Ptc1 & Ptw1);
    [intros; lia | intros i Hi; unfold n in *; zlen |].
  cbv beta in E5. rewrite E5. mret.
  destruct (alpha_loop_spec knots u span pk tc1 tw1)
    as (tc2 & tw2 & E6 & Ltc2 & Ltw2 & _ & _);
    [lia | zlen | zlen | intros i Hi; repeat split; auto; lia |].
  rewrite E6. mret.
  rewrite (vget_nth [] tc2 0) by zlen. mret.
  rewrite vset_ok by (unfold n in *; zlen). mret.
  rewrite (vget_zth tw2 0) by zlen. mret.
  rewrite vset_ok by (unfold n in *; zlen). mret.
  rewrite (vget_nth [] tc2 (pk - 1)) by zlen. mret.
  rewrite vset_ok by (unfold n in *; zlen). mret.
  rewrite (vget_zth tw2 (pk - 1)) by zlen. mret.
  rewrite vset_ok by (unfold n in *; zlen). mret.
  set (nc3 := replace_nth (Z.to_nat (span - pk + 1)) nc2 (nth (Z.to_nat 0) tc2 [])).
  set (nw3 := replace_nth (Z.to_nat (span - pk + 1)) nw2 (zth tw2 0)).
  set (nc4 := replace_nth (Z.to_nat span) nc3 (nth (Z.to_nat (pk - 1)) tc2 [])).
  set (nw4 := replace_nth (Z.to_nat span) nw3 (zth tw2 (pk - 1))).
  assert (Lc4 : length nc4 = length nc2)
    by (unfold nc4, nc3; now rewrite !replace_nth_length).
  assert (Lw4 : length nw4 = length nw2)
    by (unfold nw4, nw3; now rewrite !replace_nth_length).
  destruct (copy2_spec [] T0 tc2 tw2 (fun i => i - (span - pk + 1))
              (fun i => i) 0 (span - pk + 1 + 1) span nc4 nw4)
    as (nc5 & nw5 & E7 & Lc5 & Lw5 & _ & _);
    [intros; lia | intros i Hi; unfold n in *; zlen |].
  cbv beta in E7. rewrite E7. mret.
  exists nk2, nl2, nc5, nw5. split; [reflexivity |].
  (* the knots the second function reads *)
  assert (Hn : 0 <= n) by (unfold n, Zlength'; lia).
  assert (Lnk : Zlength' nk2 = n + pk + 2) by zlen.
  assert (HPk : forall c, 0 <= c <= n + pk + 1 ->
            zth nk2 c = if c <=? span then zth knots c
                        else if c =? span + 1 then u else zth knots (c - 1)).
  { intros c Hc. unfold zth in *. rewrite Pk2 by lia.
    destruct (Z.eq_dec c (span + 1)) as [-> | Hc1].
    - rewrite nth_replace_nth_eq by zlen. zcases.
    - rewrite nth_replace_nth_neq by lia. rewrite Pk1 by lia. zcases. }
  intros mfa' Hk' Hp'.
  unfold ExistCurveKnotIns. cbv zeta. fold n.
  rewrite Hp'. mret. rewrite Hlw.
  replace (span + 1 - 1) with span by lia.
  rewrite E3. mret. rewrite E4. mret. rewrite E5. mret.
  match goal with
  | |- context [for_range 0 pk ?b (tc1, tw1)] =>
      assert (E6' : for_range 0 pk b (tc1, tw1) = ret (tc2, tw2))
  end.
  { rewrite <- E6. unfold for_range. apply for_n_ext.
    intros k [tc tw] Hk0. cbv beta iota.
    rewrite Hk'. mret.
    rewrite (vget_zth nk2 (span - pk + 1 + k)) by lia. mret.
    rewrite (vget_zth nk2 (k + span + 2)) by lia. mret.
    rewrite (vget_zth knots (span - pk + 1 + k)) by lia. mret.
    rewrite (vget_zth knots (k + span + 1)) by lia. mret.
    rewrite !HPk by lia.
    replace (span - pk + 1 + k <=? span) with true by zcases.
    replace (k + span + 2 <=? span) with false by zcases.
    replace (k + span + 2 =? span + 1) with false by zcases.
    replace (k + span + 2 - 1) with (k + span + 1) by lia.
    reflexivity. }
  rewrite E6'. mret.
  rewrite (vget_nth [] tc2 0) by zlen. mret.
  rewrite vset_ok by (unfold n in *; zlen). mret.
  rewrite (vget_zth tw2 0) by zlen. mret.
  rewrite vset_ok by (unfold n in *; zlen). mret.
  rewrite (vget_nth [] tc2 (pk - 1)) by zlen. mret.
  rewrite vset_ok by (unfold n in *; zlen). mret.
  rewrite (vget_zth tw2 (pk - 1)) by zlen. mret.
  rewrite vset_ok by (unfold n in *; zlen). mret.
  fold nc3 nw3. fold nc4 nw4.
  rewrite E7. mret. reflexivity.
Qed.

(** X9. The two curve routines agree. Let [NewCurveKnotIns] insert a new
    value [u] into a curve, giving the knot vector [nk] and the control
    points and weights [nc], [nw]. On any model whose knot vector is [nk]
    (the value is in the T-mesh already, at index [span + 1]),
    [ExistCurveKnotIns] called for that index on the old control points and
    weights returns the same [nc] and [nw]. *)
Theorem ExistCurveKnotIns_agrees (mfa : MFA_Data) (cur_dim : Z)
        (knots : list T) (klev : list Z) (old : list (list T))
        (oldw : list T) (u : T) (lev pk : Z) :
  let n := Zlength' old in
  vget (all_knots (tmesh mfa)) cur_dim = ret knots ->
  vget (p mfa) cur_dim = ret pk ->
  1 <= pk ->
  nondecreasing knots = true ->
  clamped pk n knots = true ->
  Zlength' klev = n + pk + 1 -> Zlength' oldw = n ->
  (zth knots pk <= u)%Qc -> (u <= zth knots n)%Qc ->
  knot_present knots u = false ->
  exists span nk nl nc nw,
    pk <= span <= n - 1 /\
    (forall fuel, (Z.to_nat (n - pk) <= fuel)%nat ->
       NewCurveKnotIns fuel mfa cur_dim knots klev old oldw u lev
       = ret (nk, nl, nc, nw)) /\
    zth nk (span + 1) = u /\
    forall mfa',
      vget (all_knots (tmesh mfa')) cur_dim = ret nk ->
      vget (p mfa') cur_dim = ret pk ->
      ExistCurveKnotIns mfa' cur_dim (span + 1) old oldw u lev = ret (nc, nw).
Proof.
  intros n Hk Hp Hp1 Hs Hc Hll Hlw Hlo Hhi Hnew.
  destruct (clamped_facts _ _ _ Hc) as (Hp0 & Hpn & Hlen).
  pose proof (knot_present_false _ _ Hnew) as Hnk.
  assert (Hhi' : (u < zth knots n)%Qc).
  { destruct (Qcle_lt_or_eq _ _ Hhi) as [? | E]; auto.
    exfalso. apply (Hnk n); auto. lia. }
  destruct (FindSpan_interior mfa cur_dim knots pk n u)
    as (span & Hfs & Hr & Hl & Hu); auto.
  assert (Hden : forall i, 0 <= i < pk ->
            (zth knots (i + span + 1) - zth knots (span - pk + 1 + i))%Qc
            <> T0)
    by (apply alpha_denominators with (n := n) (u := u); auto).
  assert (Hsu : zth knots span <> u) by (apply Hnk; lia).
  destruct (New_then_Exist (Z.to_nat (n - pk)) mfa cur_dim knots klev
              old oldw u lev pk span)
    as (nk & nl & nc & nw & He & Hex); auto; try lia.
  destruct (NewCurveKnotIns_spec (Z.to_nat (n - pk)) mfa cur_dim knots klev
              old oldw u lev pk span)
    as (nk' & nl' & nc' & nw' & He' & _ & _ & _ & _ & Pk & _);
    auto; try lia.
  fold n in Pk. rewrite He in He'. injection He' as <- <- <- <-.
  exists span, nk, nl, nc, nw.
  split; [lia |]. split; [| split; [| exact Hex]].
  - intros fuel Hf. rewrite <- He.
    apply NewCurveKnotIns_fuel with (span := span); apply Hfs; lia.
  - rewrite Pk by lia. zcases.
Qed.

Lemma ExistCurveKnotIns_agrees_witness :
  clamped 3 7 ex_knots7 = true /\
  knot_present ex_knots7 (Q2Qc (3 # 10)) = false /\
  exists span nk nl nc nw,
    3 <= span <= 7 - 1 /\
    (forall fuel, (Z.to_nat (7 - 3) <= fuel)%nat ->
       NewCurveKnotIns fuel ex_mfa7 0 ex_knots7 ex_levels7 ex_curve7
                       ex_weights7 (Q2Qc (3 # 10)) 1
       = ret (nk, nl, nc, nw)) /\
    zth nk (span + 1) = Q2Qc (3 # 10) /\
    forall mfa',
      vget (all_knots (tmesh mfa')) 0 = ret nk ->
      vget (p mfa') 0 = ret 3 ->
      ExistCurveKnotIns mfa' 0 (span + 1) ex_curve7 ex_weights7
                        (Q2Qc (3 # 10)) 1 = ret (nc, nw).
Proof.
  split; [reflexivity | split; [reflexivity |]].
  apply (ExistCurveKnotIns_agrees ex_mfa7 0 ex_knots7 ex_levels7 ex_curve7
           ex_weights7 (Q2Qc (3 # 10)) 1 3);
    try reflexivity; try lia; qc_dec.
Defined.

(** ** Control curves of a tensor product *)

(** The write loop of the source: two vectors are updated in step,
    [dst[g i] = src[i]], at pairwise different places. *)
Lemma scatter2_spec {A B} (dA : A) (dB : B) (srcA : list A) (srcB : list B)
      (g : Z -> Z) (n : Z) (dstA : list A) (dstB : list B) :
  0 <= n ->
  (forall i, 0 <= i < n ->
             i < Zlength' srcA /\ i < Zlength' srcB /\
             0 <= g i < Zlength' dstA /\ 0 <= g i < Zlength' dstB) ->
  (forall i j, 0 <= i < j -> j < n -> g i <> g j) ->
  exists rA rB,
    for_range 0 n
      (fun i '(x, y) =>
         c <- vget srcA i ;; x <- vset x (g i) c ;;
         w <- vget srcB i ;; y <- vset y (g i) w ;;
         ret (x, y))
      (dstA, dstB) = ret (rA, rB) /\
    length rA = length dstA /\ length rB = length dstB /\
    (forall i, 0 <= i < n ->
       nth (Z.to_nat (g i)) rA dA = nth (Z.to_nat i) srcA dA /\
       nth (Z.to_nat (g i)) rB dB = nth (Z.to_nat i) srcB dB) /\
    (forall c, 0 <= c -> (forall i, 0 <= i < n -> g i <> c) ->
       nth (Z.to_nat c) rA dA = nth (Z.to_nat c) dstA dA /\
       nth (Z.to_nat c) rB dB = nth (Z.to_nat c) dstB dB).
Proof.
  intros Hn Hb Hinj.
  set (P := fun (k : Z) (st : list A * list B) =>
    length (fst st) = length dstA /\ length (snd st) = length dstB /\
    (forall i, 0 <= i < k ->
       nth (Z.to_nat (g i)) (fst st) dA = nth (Z.to_nat i) srcA dA /\
       nth (Z.to_nat (g i)) (snd st) dB = nth (Z.to_nat i) srcB dB) /\
    (forall c, 0 <= c -> (forall i, 0 <= i < k -> g i <> c) ->
       nth (Z.to_nat c) (fst st) dA = nth (Z.to_nat c) dstA dA /\
       nth (Z.to_nat c) (snd st) dB = nth (Z.to_nat c) dstB dB)).
  destruct (for_range_inv P
              (fun i '(x, y) =>
                 c <- vget srcA i ;; x <- vset x (g i) c ;;
                 w <- vget srcB i ;; y <- vset y (g i) w ;;
                 ret (x, y))
              0 n (dstA, dstB)) as ([rA rB] & E & HP); auto.
  - unfold P. cbn [fst snd]. repeat split; auto; lia.
  - intros k [x y] Hk (L1 & L2 & P1 & P2). cbn [fst snd] in *.
    destruct (Hb k Hk) as (B1 & B2 & B3 & B4).
    rewrite (vget_nth dA srcA k) by lia. mret.
    rewrite vset_ok by (unfold Zlength' in *; lia). mret.
    rewrite (vget_nth dB srcB k) by lia. mret.
    rewrite vset_ok by (unfold Zlength' in *; lia). mret.
    eexists. split; [reflexivity |]. unfold P. cbn [fst snd].
    rewrite !replace_nth_length. split; [auto |]. split; [auto |]. split.
    + intros i Hi. destruct (Z.eq_dec i k) as [-> | Hik].
      * rewrite !nth_replace_nth_eq by (unfold Zlength' in *; lia). auto.
      * assert (g i <> g k) by (apply Hinj; lia).
        destruct (Hb i) as (_ & _ & B5 & _); [lia |].
        rewrite !nth_replace_nth_neq by lia. apply P1. lia.
    + intros c Hc Hgc.
      assert (g k <> c) by (apply Hgc; lia).
      rewrite !nth_replace_nth_neq by lia. apply P2; auto.
      intros i Hi. apply Hgc. lia.
  - destruct HP as (L1 & L2 & P1 & P2). cbn [fst snd] in *.
    exists rA, rB. repeat split; auto; try apply P1; try apply P2; auto.
Qed.

Lemma replace_nth_same {A} (d : A) (n : nat) (v : list A) :
  replace_nth n v (nth n v d) = v.
Proof.
  revert n. induction v as [| x v IH]; intros [| n]; cbn; auto.
  now rewrite IH.
Qed.

(** The loop of [CtrlCurve2CtrlPts]: rows and weights are written at the
    places [g 0], [g 1], ...; the rows written have the width of the rows
    they replace. *)
Lemma write_curve_spec (cc : list (list T)) (cw : list T) (g : Z -> Z)
      (n cols : Z) (all : list (list T)) (allw : list T) :
  0 <= n ->
  (forall i, 0 <= i < n ->
             i < Zlength' cc /\ i < Zlength' cw /\
             0 <= g i < Zlength' all /\ 0 <= g i < Zlength' allw) ->
  (forall i j, 0 <= i < j -> j < n -> g i <> g j) ->
  rectangular cc cols = true -> rectangular all cols = true ->
  exists rA rB,
    for_range 0 n
      (fun i '(x, y) =>
         c <- vget cc i ;; x <- row_assign x (g i) c ;;
         w <- vget cw i ;; y <- vset y (g i) w ;;
         ret (x, y))
      (all, allw) = ret (rA, rB) /\
    length rA = length all /\ length rB = length allw /\
    rectangular rA cols = true /\
    (forall i, 0 <= i < n ->
       nth (Z.to_nat (g i)) rA [] = nth (Z.to_nat i) cc [] /\
       nth (Z.to_nat (g i)) rB T0 = nth (Z.to_nat i) cw T0) /\
    (forall c, 0 <= c -> (forall i, 0 <= i < n -> g i <> c) ->
       nth (Z.to_nat c) rA [] = nth (Z.to_nat c) all [] /\
       nth (Z.to_nat c) rB T0 = nth (Z.to_nat c) allw T0).
Proof.
  intros Hn Hb Hinj Hrc Hra.
  set (P := fun (k : Z) (st : list (list T) * list T) =>
    length (fst st) = length all /\ length (snd st) = length allw /\
    (forall c, 0 <= c < Zlength' all -> Zlength' (row (fst st) c) = cols) /\
    (forall i, 0 <= i < k ->
       nth (Z.to_nat (g i)) (fst st) [] = nth (Z.to_nat i) cc [] /\
       nth (Z.to_nat (g i)) (snd st) T0 = nth (Z.to_nat i) cw T0) /\
    (forall c, 0 <= c -> (forall i, 0 <= i < k -> g i <> c) ->
       nth (Z.to_nat c) (fst st) [] = nth (Z.to_nat c) all [] /\
       nth (Z.to_nat c) (snd st) T0 = nth (Z.to_nat c) allw T0)).
  destruct (for_range_inv P
              (fun i '(x, y) =>
                 c <- vget cc i ;; x <- row_assign x (g i) c ;;
                 w <- vget cw i ;; y <- vset y (g i) w ;;
                 ret (x, y))
              0 n (all, allw)) as ([rA rB] & E & HP); auto.
  - unfold P. cbn [fst snd]. split; [auto |]. split; [auto |].
    split; [intros c Hc; now apply rectangular_row |].
    split; [intros; lia | auto].
  - intros k [x y] Hk (L1 & L2 & W & P1 & P2). cbn [fst snd] in *.
    destruct (Hb k Hk) as (B1 & B2 & B3 & B4).
    rewrite (vget_nth [] cc k) by lia. mret.
    unfold row_assign.
    rewrite (vget_nth [] x (g k)) by (unfold Zlength' in *; lia). mret.
    fold (row x (g k)) (row cc k).
    rewrite W by lia. rewrite (rectangular_row cc cols k Hrc) by lia.
    rewrite Z.eqb_refl.
    rewrite vset_ok by (unfold Zlength' in *; lia). mret.
    rewrite (vget_nth T0 cw k) by lia. mret.
    rewrite vset_ok by (unfold Zlength' in *; lia). mret.
    eexists. split; [reflexivity |]. unfold P. cbn [fst snd].
    rewrite !replace_nth_length. split; [auto |]. split; [auto |].
    split; [| split].
    + intros c Hc. unfold row at 1.
      destruct (Z.eq_dec c (g k)) as [-> | Nc].
      * rewrite nth_replace_nth_eq by (unfold Zlength' in *; lia).
        apply (rectangular_row cc cols k Hrc). lia.
      * rewrite nth_replace_nth_neq by lia. now apply W.
    + intros i Hi. destruct (Z.eq_dec i k) as [-> | Hik].
      * rewrite !nth_replace_nth_eq by (unfold Zlength' in *; lia). auto.
      * assert (g i <> g k) by (apply Hinj; lia).
        destruct (Hb i) as (_ & _ & B5 & _); [lia |].
        rewrite !nth_replace_nth_neq by lia. apply P1. lia.
    + intros c Hc Hgc.
      assert (g k <> c) by (apply Hgc; lia).
      rewrite !nth_replace_nth_neq by lia. apply P2; auto.
      intros i Hi. apply Hgc. lia.
  - destruct HP as (L1 & L2 & W & P1 & P2). cbn [fst snd] in *.
    exists rA, rB. split; [exact E |]. split; [exact L1 |].
    split; [exact L2 |]. split; [| split; [| exact P2]].
    + unfold rectangular. apply forallb_forall. intros r Hin.
      destruct (In_nth _ _ [] Hin) as (m & Hm & Hnth).
      apply Z.eqb_eq. rewrite <- Hnth.
      specialize (W (Z.of_nat m)). unfold row in W.
      rewrite Nat2Z.id in W. apply W. unfold Zlength'. lia.
    + intros i Hi. now apply P1.
Qed.

(** X10. Writing a control curve into the full set of control points with
    [CtrlCurve2CtrlPts] and reading it back with [CtrlPts2CtrlCurve] (same
    offset and stride) returns the curve that was written, provided the
    points of the curve have as many coordinates as the points of the full
    set (the row assignment of the source requires it); the write keeps the
    size of the full set and changes no point off the curve. *)
Theorem CtrlCurve_write_then_read (cc : list (list T)) (cw : list T)
        (all : list (list T)) (allw : list T) (nctrl : list Z)
        (cur_dim co cs n cols : Z) :
  vget nctrl cur_dim = ret n ->
  1 <= n -> 0 <= co -> 1 <= cs ->
  Zlength' cc = n -> Zlength' cw = n ->
  co + (n - 1) * cs < Zlength' all -> Zlength' allw = Zlength' all ->
  rectangular cc cols = true -> rectangular all cols = true ->
  exists all' allw',
    CtrlCurve2CtrlPts cc cw all allw nctrl cur_dim co cs = ret (all', allw') /\
    Zlength' all' = Zlength' all /\ Zlength' allw' = Zlength' allw /\
    rectangular all' cols = true /\
    CtrlPts2CtrlCurve all' allw' nctrl cur_dim co cs = ret (cc, cw) /\
    (forall c, 0 <= c -> (forall i, 0 <= i < n -> co + i * cs <> c) ->
       row all' c = row all c /\ zth allw' c = zth allw c).
Proof.
  intros Hn Hn1 Hco Hcs Lcc Lcw Hlast Lw Hrc Hra.
  assert (Hin : forall i, 0 <= i < n -> 0 <= co + i * cs < Zlength' all)
    by (intros i Hi; nia).
  destruct (write_curve_spec cc cw (fun i => co + i * cs) n cols all allw)
    as (all' & allw' & E & L1 & L2 & R' & P1 & P2); try lia; auto.
  { intros i Hi. specialize (Hin i Hi). lia. }
  { intros i j Hi Hj. nia. }
  cbv beta in E.
  assert (Hin' : forall i, 0 <= i < n -> 0 <= co + i * cs < Zlength' all').
  { intros i Hi. unfold Zlength'. rewrite L1. now apply Hin. }
  destruct (copy2_spec [] T0 all' allw' (fun i => co + i * cs) (fun i => i)
              0 0 n (zero_matrix n (mcols all')) (zeros n))
    as (rc & rw & E2 & M1 & M2 & Q1 & Q2); [intros; lia | |].
  { intros i Hi. specialize (Hin' i Hi).
    unfold Zlength' in *. rewrite L2. zlen. }
  cbv beta in E2.
  exists all', allw'. split; [| split; [| split; [| split; [| split]]]].
  - unfold CtrlCurve2CtrlPts. rewrite Hn. mret. exact E.
  - unfold Zlength'. now rewrite L1.
  - unfold Zlength'. now rewrite L2.
  - exact R'.
  - unfold CtrlPts2CtrlCurve. rewrite Hn. mret. rewrite E2. do 2 f_equal.
    + apply nth_ext with (d := []) (d' := []); [zlen |].
      intros k Hk. specialize (Q1 (Z.of_nat k)). rewrite Nat2Z.id in Q1.
      rewrite Q1 by lia.
      assert (Hkn : 0 <= Z.of_nat k < n) by zlen.
      replace ((0 + 0 <=? Z.of_nat k) && (Z.of_nat k <? n + 0)) with true
        by zcases.
      replace (Z.of_nat k - 0) with (Z.of_nat k) by lia.
      destruct (P1 (Z.of_nat k) Hkn) as [R1 _]. rewrite R1.
      now rewrite Nat2Z.id.
    + apply nth_ext with (d := T0) (d' := T0); [zlen |].
      intros k Hk. specialize (Q2 (Z.of_nat k)). rewrite Nat2Z.id in Q2.
      rewrite Q2 by lia.
      assert (Hkn : 0 <= Z.of_nat k < n) by zlen.
      replace ((0 + 0 <=? Z.of_nat k) && (Z.of_nat k <? n + 0)) with true
        by zcases.
      replace (Z.of_nat k - 0) with (Z.of_nat k) by lia.
      destruct (P1 (Z.of_nat k) Hkn) as [_ R2]. rewrite R2.
      now rewrite Nat2Z.id.
  - intros c Hc Hoff. unfold row, zth. now apply P2.
Qed.

Lemma CtrlCurve_write_then_read_witness :
  rectangular ex_cc2 1 = true /\ rectangular ex_all6 1 = true /\
  exists all' allw',
    CtrlCurve2CtrlPts ex_cc2 ex_cw2 ex_all6 ex_allw6 [3; 2] 1 1 3
    = ret (all', allw') /\
    Zlength' all' = Zlength' ex_all6 /\ Zlength' allw' = Zlength' ex_allw6 /\
    rectangular all' 1 = true /\
    CtrlPts2CtrlCurve all' allw' [3; 2] 1 1 3 = ret (ex_cc2, ex_cw2) /\
    (forall c, 0 <= c -> (forall i, 0 <= i < 2 -> 1 + i * 3 <> c) ->
       row all' c = row ex_all6 c /\ zth allw' c = zth ex_allw6 c).
Proof.
  split; [reflexivity | split; [reflexivity |]].
  apply (CtrlCurve_write_then_read ex_cc2 ex_cw2 ex_all6 ex_allw6 [3; 2]
           1 1 3 2 1);
    try reflexivity; lia.
Defined.

(** A curve whose points have two coordinates cannot be written into a set
    of points with one coordinate. *)
Example CtrlCurve2CtrlPts_width :
  CtrlCurve2CtrlPts [[T1; T2]; [T1; T2]] ex_cw2 ex_all6 ex_allw6 [3; 2] 1 1 3
  = fail Undefined.
Proof. reflexivity. Qed.

(** X11. Reading a control curve with [CtrlPts2CtrlCurve] and writing it
    back with [CtrlCurve2CtrlPts] leaves the full set of control points and
    weights as it was; the curve read has [nctrl_pts(cur_dim)] points, the
    [i]-th of them being point [co + i * cs] of the full set. *)
Theorem CtrlCurve_read_then_write (all : list (list T)) (allw : list T)
        (nctrl : list Z) (cur_dim co cs n : Z) :
  vget nctrl cur_dim = ret n ->
  1 <= n -> 0 <= co -> 0 <= cs ->
  co + (n - 1) * cs < Zlength' all -> Zlength' allw = Zlength' all ->
  exists cc cw,
    CtrlPts2CtrlCurve all allw nctrl cur_dim co cs = ret (cc, cw) /\
    Zlength' cc = n /\ Zlength' cw = n /\
    (forall i, 0 <= i < n ->
       row cc i = row all (co + i * cs) /\ zth cw i = zth allw (co + i * cs)) /\
    CtrlCurve2CtrlPts cc cw all allw nctrl cur_dim co cs = ret (all, allw).
Proof.
  intros Hn Hn1 Hco Hcs Hlast Lw.
  assert (Hin : forall i, 0 <= i < n -> 0 <= co + i * cs < Zlength' all)
    by (intros i Hi; nia).
  destruct (copy2_spec [] T0 all allw (fun i => co + i * cs) (fun i => i)
              0 0 n (zero_matrix n (mcols all)) (zeros n))
    as (cc & cw & E & M1 & M2 & Q1 & Q2); [intros; lia | |].
  { intros i Hi. specialize (Hin i Hi). zlen. }
  cbv beta in E.
  assert (R : forall i, 0 <= i < n ->
            row cc i = row all (co + i * cs) /\
            zth cw i = zth allw (co + i * cs)).
  { intros i Hi. unfold row, zth. rewrite Q1, Q2 by lia.
    replace ((0 + 0 <=? i) && (i <? n + 0)) with true by zcases.
    now replace (i - 0) with i by lia. }
  exists cc, cw. split; [| split; [| split; [| split]]]; auto.
  - unfold CtrlPts2CtrlCurve. rewrite Hn. mret. exact E.
  - zlen.
  - zlen.
  - unfold CtrlCurve2CtrlPts. rewrite Hn. mret.
    destruct (for_range_inv
                (fun (_ : Z) (st : list (list T) * list T) => st = (all, allw))
                (fun i '(ac, aw) =>
                   c <- vget cc i ;; ac <- row_assign ac (co + i * cs) c ;;
                   w <- vget cw i ;; aw <- vset aw (co + i * cs) w ;;
                   ret (ac, aw))
                0 n (all, allw)) as (st & E2 & ->); auto; try lia.
    intros k st Hk ->. specialize (Hin k Hk). destruct (R k Hk) as [R1 R2].
    rewrite (vget_nth [] cc k) by zlen. mret.
    unfold row_assign. rewrite (vget_nth [] all (co + k * cs)) by lia. mret.
    fold (row cc k) (row all (co + k * cs)). rewrite R1, Z.eqb_refl.
    rewrite vset_ok by lia. mret.
    rewrite (vget_zth cw k) by zlen. mret.
    rewrite vset_ok by lia. mret.
    eexists. split; [reflexivity |].
    rewrite R2. unfold row, zth.
    now rewrite !replace_nth_same.
Qed.

Lemma CtrlCurve_read_then_write_witness :
  exists cc cw,
    CtrlPts2CtrlCurve ex_all6 ex_allw6 [3; 2] 1 1 3 = ret (cc, cw) /\
    Zlength' cc = 2 /\ Zlength' cw = 2 /\
    (forall i, 0 <= i < 2 ->
       row cc i = row ex_all6 (1 + i * 3) /\
       zth cw i = zth ex_allw6 (1 + i * 3)) /\
    CtrlCurve2CtrlPts cc cw ex_all6 ex_allw6 [3; 2] 1 1 3
    = ret (ex_all6, ex_allw6).
Proof.
  apply (CtrlCurve_read_then_write ex_all6 ex_allw6 [3; 2] 1 1 3 2);
    try reflexivity; lia.
Defined.

(** ** Uniform knots *)

Lemma TofZ_this (z : Z) : (this (TofZ z) == inject_Z z)%Q.
Proof. unfold TofZ. apply Qred_correct. Qed.

Lemma TofZ_0 : TofZ 0 = T0.
Proof. apply Qc_is_canon. reflexivity. Qed.

Lemma TofZ_1 : TofZ 1 = T1.
Proof. apply Qc_is_canon. reflexivity. Qed.

Lemma TofZ_plus (a b : Z) : TofZ (a + b) = (TofZ a + TofZ b)%Qc.
Proof.
  apply Qc_eq_this. rewrite this_plus, !TofZ_this.
  rewrite inject_Z_plus. reflexivity.
Qed.

Lemma TofZ_le (a b : Z) : a <= b -> (TofZ a <= TofZ b)%Qc.
Proof.
  intros H. unfold Qcle. rewrite !TofZ_this. now rewrite <- Zle_Qle.
Qed.

Lemma TofZ_lt (a b : Z) : a < b -> (TofZ a < TofZ b)%Qc.
Proof.
  intros H. unfold Qclt. rewrite !TofZ_this. now rewrite <- Zlt_Qlt.
Qed.

Lemma TofZ_pos_neq (d : Z) : 0 < d -> TofZ d <> T0.
Proof.
  intros H E. apply TofZ_lt in H. rewrite TofZ_0, E in H.
  exact (Qcle_not_lt _ _ (Qcle_refl _) H).
Qed.

Lemma replace_nth_twice {A} (n : nat) (v : list A) (a b : A) :
  replace_nth n (replace_nth n v a) b = replace_nth n v b.
Proof.
  revert n. induction v as [| x v IH]; intros [| n]; cbn; auto.
  now rewrite IH.
Qed.

Lemma set_knot_ok (ak : list (list T)) (k i : Z) (v : T) (ks : list T) :
  0 <= k < Zlength' ak -> 0 <= i < Zlength' ks ->
  set_knot (replace_nth (Z.to_nat k) ak ks) k i v
  = ret (replace_nth (Z.to_nat k) ak (replace_nth (Z.to_nat i) ks v)).
Proof.
  intros Hk Hi. unfold set_knot.
  rewrite (vget_nth [] _ k) by (rewrite Zlength_replace_nth; lia). mret.
  rewrite nth_replace_nth_eq by (unfold Zlength' in Hk; lia).
  rewrite vset_ok by lia. mret.
  rewrite vset_ok by (rewrite Zlength_replace_nth; lia).
  now rewrite replace_nth_twice.
Qed.

Lemma get_knot_ok (ak : list (list T)) (k i : Z) (ks : list T) :
  0 <= k < Zlength' ak -> 0 <= i < Zlength' ks ->
  get_knot (replace_nth (Z.to_nat k) ak ks) k i = ret (zth ks i).
Proof.
  intros Hk Hi. unfold get_knot.
  rewrite (vget_nth [] _ k) by (rewrite Zlength_replace_nth; lia). mret.
  rewrite nth_replace_nth_eq by (unfold Zlength' in Hk; lia).
  now apply vget_zth.
Qed.

(** The loop that sets the [pk + 1] knots at each end of vector [k]. *)
Lemma uniform_ends_spec (ak : list (list T)) (k pk nc : Z) (ks0 : list T) :
  0 <= k < Zlength' ak -> 0 <= pk < nc -> Zlength' ks0 = nc + pk + 1 ->
  exists ks1,
    for_range 0 (pk + 1)
      (fun i a =>
         a <- set_knot a k i T0 ;; set_knot a k (nc + pk + 1 - 1 - i) T1)
      (replace_nth (Z.to_nat k) ak ks0)
    = ret (replace_nth (Z.to_nat k) ak ks1) /\
    Zlength' ks1 = nc + pk + 1 /\
    (forall c, 0 <= c <= nc + pk ->
       zth ks1 c = if c <=? pk then T0
                   else if nc <=? c then T1 else zth ks0 c).
Proof.
  intros Hk Hp Hl.
  set (P := fun (i : Z) (a : list (list T)) =>
    exists ks, a = replace_nth (Z.to_nat k) ak ks /\
               Zlength' ks = nc + pk + 1 /\
               forall c, 0 <= c <= nc + pk ->
                 zth ks c = if c <? i then T0
                            else if nc + pk - i <? c then T1 else zth ks0 c).
  destruct (for_range_inv P
              (fun i a =>
                 a <- set_knot a k i T0 ;;
                 set_knot a k (nc + pk + 1 - 1 - i) T1)
              0 (pk + 1) (replace_nth (Z.to_nat k) ak ks0))
    as (a' & E & ks1 & -> & L1 & P1); try lia.
  - exists ks0. repeat split; auto. intros c Hc. zcases.
  - intros i a Hi (ks & -> & L & Pc).
    rewrite set_knot_ok by lia. mret.
    rewrite set_knot_ok by (rewrite ?Zlength_replace_nth; lia).
    eexists. split; [reflexivity |].
    eexists. split; [reflexivity |].
    split; [now rewrite !Zlength_replace_nth |].
    intros c Hc.
    destruct (Z.eq_dec c (nc + pk + 1 - 1 - i)) as [-> | N1].
    + rewrite zth_replace_nth_eq by (rewrite Zlength_replace_nth; lia).
      zcases.
    + rewrite zth_replace_nth_neq by lia.
      destruct (Z.eq_dec c i) as [-> | N2].
      * rewrite zth_replace_nth_eq by lia. zcases.
      * rewrite zth_replace_nth_neq by lia. rewrite Pc by lia. zcases.
  - exists ks1. repeat split; auto. intros c Hc. rewrite P1 by lia. zcases.
Qed.

(** The loop that fills the interior knots of vector [k]. *)
Lemma uniform_interior_spec (ak : list (list T)) (k pk nc : Z)
      (ks1 : list T) (step : T) :
  0 <= k < Zlength' ak -> 0 <= pk < nc -> Zlength' ks1 = nc + pk + 1 ->
  zth ks1 pk = T0 ->
  exists ks2,
    for_range 1 (nc - pk)
      (fun j a =>
         prev <- get_knot a k (pk + j - 1) ;;
         set_knot a k (pk + j) (prev + step)%Qc)
      (replace_nth (Z.to_nat k) ak ks1)
    = ret (replace_nth (Z.to_nat k) ak ks2) /\
    Zlength' ks2 = nc + pk + 1 /\
    (forall c, 0 <= c <= nc + pk ->
       zth ks2 c = if (pk <? c) && (c <? nc) then (TofZ (c - pk) * step)%Qc
                   else zth ks1 c).
Proof.
  intros Hk Hp Hl H0.
  set (P := fun (j : Z) (a : list (list T)) =>
    exists ks, a = replace_nth (Z.to_nat k) ak ks /\
               Zlength' ks = nc + pk + 1 /\
               forall c, 0 <= c <= nc + pk ->
                 zth ks c = if (pk <? c) && (c <? pk + j)
                            then (TofZ (c - pk) * step)%Qc else zth ks1 c).
  destruct (for_range_inv P
              (fun j a =>
                 prev <- get_knot a k (pk + j - 1) ;;
                 set_knot a k (pk + j) (prev + step)%Qc)
              1 (nc - pk) (replace_nth (Z.to_nat k) ak ks1))
    as (a' & E & ks2 & -> & L2 & P2); try lia.
  - exists ks1. repeat split; auto. intros c Hc. zcases.
  - intros j a Hj (ks & -> & L & Pc).
    rewrite get_knot_ok by lia. mret.
    rewrite set_knot_ok by lia.
    eexists. split; [reflexivity |].
    eexists. split; [reflexivity |].
    split; [now rewrite Zlength_replace_nth |].
    intros c Hc.
    destruct (Z.eq_dec c (pk + j)) as [-> | N1].
    + rewrite zth_replace_nth_eq by lia.
      replace ((pk <? pk + j) && (pk + j <? pk + (j + 1))) with true
        by zcases.
      rewrite Pc by lia.
      replace (pk + j - pk) with (j - 1 + 1) by lia.
      rewrite TofZ_plus, TofZ_1.
      destruct (Z.eq_dec j 1) as [-> | Nj].
      * replace ((pk <? pk + 1 - 1) && (pk + 1 - 1 <? pk + 1)) with false
          by zcases.
        replace (pk + 1 - 1) with pk by lia. rewrite H0.
        replace (1 - 1) with 0 by lia. rewrite TofZ_0. ring.
      * replace ((pk <? pk + j - 1) && (pk + j - 1 <? pk + j)) with true
          by zcases.
        replace (pk + j - 1 - pk) with (j - 1) by lia. ring.
    + rewrite zth_replace_nth_neq by lia. rewrite Pc by lia. zcases.
  - exists ks2. repeat split; auto. intros c Hc. rewrite P2 by lia.
    replace (pk + (nc - pk)) with nc by lia. reflexivity.
Qed.

Lemma frac_le (a b d : Z) :
  0 < d -> a <= b -> (TofZ a / TofZ d <= TofZ b / TofZ d)%Qc.
Proof.
  intros Hd Hab. unfold Qcdiv. apply Qcmult_le_compat_r.
  - now apply TofZ_le.
  - assert (H : (T0 <= T1 / TofZ d)%Qc).
    { apply Qc_div_nonneg; [qc_dec |].
      rewrite <- TofZ_0. now apply TofZ_lt. }
    unfold Qcdiv in H. now rewrite Qcmult_1_l in H.
Qed.

Lemma frac_lt_1 (a d : Z) : 0 < d -> a < d -> (TofZ a / TofZ d < T1)%Qc.
Proof.
  intros Hd Had.
  assert (H1 : (TofZ a < TofZ d)%Qc) by now apply TofZ_lt.
  assert (H2 : (T0 < TofZ d)%Qc) by (rewrite <- TofZ_0; now apply TofZ_lt).
  assert (E : (TofZ a / TofZ d * TofZ d = TofZ a)%Qc).
  { field. now apply TofZ_pos_neq. }
  set (x := (TofZ a / TofZ d)%Qc) in *.
  set (A := TofZ a) in *. set (D := TofZ d) in *.
  apply Qcnot_le_lt. intros Hx. qc_nra.
Qed.

Lemma uniform_knot_mono (pk nc c : Z) :
  0 <= pk < nc -> (uniform_knot pk nc c <= uniform_knot pk nc (c + 1))%Qc.
Proof.
  intros Hp. unfold uniform_knot.
  destruct (Z.leb_spec c pk), (Z.leb_spec (c + 1) pk),
           (Z.leb_spec nc c), (Z.leb_spec nc (c + 1));
    try lia; try apply Qcle_refl; try solve [qc_dec].
  - apply Qc_div_nonneg.
    + rewrite <- TofZ_0. apply TofZ_le. lia.
    + rewrite <- TofZ_0. apply TofZ_lt. lia.
  - apply Qclt_le_weak, frac_lt_1; lia.
  - apply frac_le; lia.
Qed.

Lemma uniform_knot_facts (pk nc : Z) (ks : list T) :
  0 <= pk < nc -> Zlength' ks = nc + pk + 1 ->
  (forall c, 0 <= c <= nc + pk -> zth ks c = uniform_knot pk nc c) ->
  nondecreasing ks = true /\ clamped pk nc ks = true /\
  (zth ks (nc - 1) < zth ks nc)%Qc.
Proof.
  intros Hp Hl H. split; [| split].
  - apply nondecreasing_of_zth. intros i Hi0 Hi1.
    rewrite !H by lia. now apply uniform_knot_mono.
  - apply clamped_of_zth; auto.
    + intros i Hi. rewrite !H by lia. unfold uniform_knot. zcases.
    + intros i Hi. rewrite !H by lia. unfold uniform_knot. zcases.
  - rewrite !H by lia. unfold uniform_knot.
    destruct (Z.leb_spec (nc - 1) pk), (Z.leb_spec nc pk),
             (Z.leb_spec nc (nc - 1)), (Z.leb_spec nc nc); try lia.
    + qc_dec.
    + apply frac_lt_1; lia.
Qed.

Lemma knots_allocated_nth (pv ncs : list Z) (ak : list (list T)) :
  knots_allocated pv ncs ak = true ->
  Zlength' ncs = Zlength' pv /\ Zlength' ak = Zlength' pv /\
  forall k, 0 <= k < Zlength' pv ->
    0 <= zthZ pv k < zthZ ncs k /\
    Zlength' (row ak k) = zthZ ncs k + zthZ pv k + 1.
Proof.
  unfold knots_allocated. intros H.
  apply andb_prop in H as [H H3]. apply andb_prop in H as [H1 H2].
  apply Nat.eqb_eq in H1. apply Nat.eqb_eq in H2.
  unfold Zlength'. split; [lia |]. split; [lia |].
  intros k Hk. rewrite forallb_forall in H3.
  specialize (H3 (nth (Z.to_nat k) (combine (combine pv ncs) ak) (0, 0, []))).
  rewrite !combine_nth in H3 by (rewrite ?length_combine; lia).
  cbn [fst snd] in H3.
  assert (Hin : In (nth (Z.to_nat k) pv 0, nth (Z.to_nat k) ncs 0,
                    nth (Z.to_nat k) ak [])
                   (combine (combine pv ncs) ak)).
  { rewrite <- !combine_nth by (rewrite ?length_combine; lia).
    apply nth_In. rewrite !length_combine. lia. }
  specialize (H3 Hin).
  apply andb_prop in H3 as [H3 H6]. apply andb_prop in H3 as [H4 H5].
  apply Z.leb_le in H4. apply Z.ltb_lt in H5. apply Z.eqb_eq in H6.
  unfold zthZ, row, Zlength' in *. lia.
Qed.

(** X12. On knot vectors allocated for degrees [0 <= p(k) < nctrl(k)],
    [uniform_knots_impl_unstructured] writes its three warnings and returns
    knot vectors of the same sizes in which, in every dimension, the first
    [p + 1] knots are 0 and the last [p + 1] knots are 1: the vector is
    clamped. The levels, parameter indices and tensor products are left as
    they were. *)
Theorem uniform_knots_clamped_ends (mfa : MFA_Data) (tm : Tmesh)
        (t0 : TensorProduct) :
  vget (tensor_prods tm) 0 = ret t0 ->
  dom_dim mfa = Zlength' (p mfa) ->
  knots_allocated (p mfa) (nctrl_pts t0) (all_knots tm) = true ->
  exists ak,
    uniform_knots_impl_unstructured mfa tm =
      ([uniform_warn1; uniform_warn2; uniform_warn3],
       Ret (mkTmesh ak (all_knot_levels tm) (all_knot_param_idxs tm)
                    (tensor_prods tm))) /\
    Zlength' ak = dom_dim mfa /\
    forall k, 0 <= k < dom_dim mfa ->
      let pk := zthZ (p mfa) k in
      let nc := zthZ (nctrl_pts t0) k in
      Zlength' (row ak k) = nc + pk + 1 /\
      (forall c, 0 <= c <= pk -> zth (row ak k) c = T0) /\
      (forall c, nc <= c <= nc + pk -> zth (row ak k) c = T1) /\
      clamped pk nc (row ak k) = true.
Proof.
  intros Ht Hd Ha.
  destruct (knots_allocated_nth _ _ _ Ha) as (Ln & Lk & Hall).
  set (good := fun (k : Z) (ks : list T) =>
    Zlength' ks = zthZ (nctrl_pts t0) k + zthZ (p mfa) k + 1 /\
    forall c, 0 <= c <= zthZ (nctrl_pts t0) k + zthZ (p mfa) k ->
      (c <= zthZ (p mfa) k -> zth ks c = T0) /\
      (zthZ (nctrl_pts t0) k <= c -> zth ks c = T1)).
  set (P := fun (k : Z) (a : list (list T)) =>
    Zlength' a = Zlength' (all_knots tm) /\
    (forall k', 0 <= k' < k -> good k' (row a k')) /\
    (forall k', k <= k' -> row a k' = row (all_knots tm) k')).
  assert (Hdim : 0 <= dom_dim mfa) by (rewrite Hd; unfold Zlength'; lia).
  destruct (for_range_inv P
    (fun k ak =>
       t0 <- vget (tensor_prods tm) 0 ;;
       nc <- vget (nctrl_pts t0) k ;;
       pk <- vget (p mfa) k ;;
       ak <- for_range 0 (pk + 1)
               (fun i ak =>
                  ak <- set_knot ak k i T0 ;;
                  set_knot ak k (nc + pk + 1 - 1 - i) T1)
               ak ;;
       step <- Tdiv T1 (TofZ (nc - pk)) ;;
       for_range 1 (nc - pk)
         (fun j ak =>
            prev <- get_knot ak k (pk + j - 1) ;;
            set_knot ak k (pk + j) (prev + step)%Qc)
         ak)
    0 (dom_dim mfa) (all_knots tm)) as (ak & E & L & G & _); auto.
  - unfold P. split; [auto |]. split; [intros; lia | auto].
  - intros k a Hk (La & Ga & Ua).
    destruct (Hall k) as (Hp & Hl); [lia |].
    set (pk := zthZ (p mfa) k) in *. set (nc := zthZ (nctrl_pts t0) k) in *.
    rewrite Ht. mret.
    rewrite (vget_nth 0 (nctrl_pts t0) k) by lia. mret.
    rewrite (vget_nth 0 (p mfa) k) by lia. mret.
    fold (zthZ (nctrl_pts t0) k) (zthZ (p mfa) k). fold pk nc.
    assert (Ea : a = replace_nth (Z.to_nat k) a (row a k))
      by (unfold row; now rewrite replace_nth_same).
    destruct (uniform_ends_spec a k pk nc (row a k))
      as (ks1 & E1 & L1 & P1); try lia.
    { rewrite Ua by lia. exact Hl. }
    rewrite <- Ea in E1. rewrite E1. mret.
    rewrite Tdiv_ok by (apply TofZ_pos_neq; lia). mret.
    destruct (uniform_interior_spec a k pk nc ks1 (T1 / TofZ (nc - pk))%Qc)
      as (ks2 & E2 & L2 & P2); try lia.
    { rewrite P1 by lia. zcases. }
    rewrite E2. eexists. split; [reflexivity |].
    unfold P. split; [now rewrite Zlength_replace_nth |]. split.
    + intros k' Hk'. unfold row.
      destruct (Z.eq_dec k' k) as [-> | Nk].
      * rewrite nth_replace_nth_eq by (unfold Zlength' in *; lia).
        split; [exact L2 |]. intros c Hc. fold pk nc in Hc |- *.
        rewrite P2, P1 by lia.
        split; intros Hc'; zcases.
      * rewrite nth_replace_nth_neq by lia. apply Ga. lia.
    + intros k' Hk'. unfold row.
      rewrite nth_replace_nth_neq by lia. apply Ua. lia.
  - exists ak. split; [| split].
    + unfold uniform_knots_impl_unstructured. rewrite E. reflexivity.
    + lia.
    + intros k Hk pk nc. destruct (G k Hk) as [G1 G2].
      destruct (Hall k) as (Hp & _); [lia |].
      fold pk nc in G1, G2, Hp.
      split; [exact G1 |].
      assert (Z0 : forall c, 0 <= c <= pk -> zth (row ak k) c = T0)
        by (intros c Hc; apply G2; lia).
      assert (Z1 : forall c, nc <= c <= nc + pk -> zth (row ak k) c = T1)
        by (intros c Hc; apply G2; lia).
      split; [exact Z0 |]. split; [exact Z1 |].
      apply clamped_of_zth; auto.
      * intros i Hi. rewrite !Z0 by lia. reflexivity.
      * intros i Hi. rewrite !Z1 by lia. reflexivity.
Qed.

Lemma uniform_knots_clamped_ends_witness :
  knots_allocated (p ex_mfa2) [7; 3] (all_knots ex_tmesh2) = true /\
  exists ak,
    uniform_knots_impl_unstructured ex_mfa2 ex_tmesh2 =
      ([uniform_warn1; uniform_warn2; uniform_warn3],
       Ret (mkTmesh ak (all_knot_levels ex_tmesh2)
                    (all_knot_param_idxs ex_tmesh2)
                    (tensor_prods ex_tmesh2))) /\
    Zlength' ak = dom_dim ex_mfa2 /\
    forall k, 0 <= k < dom_dim ex_mfa2 ->
      let pk := zthZ (p ex_mfa2) k in
      let nc := zthZ [7; 3] k in
      Zlength' (row ak k) = nc + pk + 1 /\
      (forall c, 0 <= c <= pk -> zth (row ak k) c = T0) /\
      (forall c, nc <= c <= nc + pk -> zth (row ak k) c = T1) /\
      clamped pk nc (row ak k) = true.
Proof.
  split; [reflexivity |].
  apply (uniform_knots_clamped_ends ex_mfa2 ex_tmesh2
           (mkTensor [0; 0] [10; 4] [7; 3] [] [] 0));
    reflexivity.
Defined.

Example uniform_knots_ex :
  option_map (fun tm => map raw (all_knots tm))
             (value (uniform_knots_impl_unstructured ex_mfa2 ex_tmesh2))
  = Some [[0; 0; 0; 0; 1 # 4; 1 # 2; 3 # 4; 1; 1; 1; 1];
          [0; 0; 1 # 2; 1; 1]]%Q.
Proof. vm_compute. reflexivity. Qed.

(** ** Decoding a curve point *)

Example Decoder_new_ex7 : Decoder_new ex_mfa7t 0 false = ret ex_dec7.
Proof. vm_compute. reflexivity. Qed.

Lemma sumn_S (n : nat) (f : nat -> T) : sumn (S n) f = (sumn n f + f n)%Qc.
Proof.
  unfold sumn. rewrite seq_S, map_app, Tsum_app. cbn. ring.
Qed.

Lemma sumn_ext (n : nat) (f g : nat -> T) :
  (forall j, (j < n)%nat -> f j = g j) -> sumn n f = sumn n g.
Proof.
  induction n as [| n IH]; intros H; [reflexivity |].
  rewrite !sumn_S, IH by (intros; apply H; lia). now rewrite H by lia.
Qed.

Lemma sumn_zero (n : nat) (f : nat -> T) :
  (forall j, (j < n)%nat -> f j = T0) -> sumn n f = T0.
Proof.
  induction n as [| n IH]; intros H; [reflexivity |].
  rewrite sumn_S, IH, H by (intros; try apply H; lia). ring.
Qed.

Lemma sumn_single (n j0 : nat) (f : nat -> T) :
  (j0 < n)%nat -> (forall j, (j < n)%nat -> j <> j0 -> f j = T0) ->
  sumn n f = f j0.
Proof.
  induction n as [| n IH]; intros Hj H; [lia |].
  rewrite sumn_S. destruct (Nat.eq_dec j0 n) as [-> | Hne].
  - rewrite sumn_zero by (intros; apply H; lia). ring.
  - rewrite IH by (try lia; intros; apply H; lia).
    rewrite (H n) by lia. ring.
Qed.

Lemma sumn_shift (n : nat) (f : nat -> T) :
  sumn (S n) f = (f 0%nat + sumn n (fun j => f (S j)))%Qc.
Proof.
  induction n as [| n IH].
  - unfold sumn. cbn. ring.
  - rewrite sumn_S, IH, sumn_S. ring.
Qed.

Ltac vsimp :=
  unfold vmul, Tsum in *;
  cbn [repeat app combine map fold_right skipn fst snd length nth] in *.

Lemma vmul_zeros_l (n : nat) (w : list T) :
  Tsum (vmul (repeat T0 n) w) = T0.
Proof.
  revert w. induction n as [| n IH]; intros [| w0 w]; vsimp; auto.
  rewrite IH. ring.
Qed.

Lemma vmul_skip_zeros (n : nat) (x w : list T) :
  Tsum (vmul (repeat T0 n ++ x) w) = Tsum (vmul x (skipn n w)).
Proof.
  revert w. induction n as [| n IH]; intros w; [reflexivity |].
  destruct w as [| w0 w]; vsimp.
  - now destruct x.
  - rewrite IH. ring.
Qed.

Lemma vmul_drop_zeros (x w : list T) (n : nat) :
  Tsum (vmul (x ++ repeat T0 n) w) = Tsum (vmul x w).
Proof.
  revert w. induction x as [| a x IH]; intros w.
  - cbn [app]. rewrite vmul_zeros_l. now destruct w.
  - destruct w as [| w0 w]; [reflexivity |].
    vsimp. now rewrite IH.
Qed.

Lemma vmul_sumn (x w : list T) :
  (length x <= length w)%nat ->
  Tsum (vmul x w) = sumn (length x) (fun j => (nth j x T0 * nth j w T0)%Qc).
Proof.
  revert w. induction x as [| a x IH]; intros w H; [reflexivity |].
  destruct w as [| w0 w]; [cbn in H; lia |].
  cbn [length]. rewrite sumn_shift. cbn [nth].
  rewrite <- IH by (cbn in H; lia). reflexivity.
Qed.

(** The denominator [CurvePt] computes from the whole row of [N]. *)
Lemma dot_banded (n c0 : Z) (vals w : list T) :
  0 <= c0 -> c0 + Zlength' vals <= Zlength' w ->
  Tsum (vmul (banded_row n c0 vals) w) = curve_den vals w c0.
Proof.
  intros H0 H1. unfold banded_row, zeros, curve_den.
  rewrite vmul_skip_zeros, vmul_drop_zeros.
  unfold Zlength' in *.
  rewrite vmul_sumn by (rewrite length_skipn; lia).
  apply sumn_ext. intros j Hj. unfold zth.
  rewrite nth_skipn, Nat2Z.id. do 2 f_equal. lia.
Qed.

Lemma vdiv_ok (v : list T) (d : T) :
  d <> T0 -> vdiv v d = ret (map (fun x => (x / d)%Qc) v).
Proof.
  intros Hd. induction v as [| x v IH]; [reflexivity |].
  cbn [vdiv map]. rewrite Tdiv_ok by exact Hd. mret. rewrite IH. now mret.
Qed.

Lemma vadd_length (a b : list T) :
  length a = length b -> length (vadd a b) = length a.
Proof.
  intros H. unfold vadd. rewrite length_map, length_combine. lia.
Qed.

Lemma zth_vadd (a b : list T) (k : Z) :
  length a = length b -> 0 <= k < Zlength' a ->
  zth (vadd a b) k = (zth a k + zth b k)%Qc.
Proof.
  intros H Hk. unfold zth, vadd, Zlength' in *.
  rewrite (nth_map_in _ _ _ T0 (T0, T0)) by (rewrite length_combine; lia).
  rewrite combine_nth by exact H. reflexivity.
Qed.

Lemma zth_map (f : T -> T) (a : list T) (k : Z) :
  0 <= k < Zlength' a -> zth (map f a) k = f (zth a k).
Proof.
  intros Hk. unfold zth, Zlength' in *. apply nth_map_in. lia.
Qed.

Lemma basis_values_length (knots : list T) (u : T) (span pk : Z) :
  0 <= pk -> Zlength' (basis_values knots u span pk) = pk + 1.
Proof.
  intros H. unfold basis_values, Zlength'. rewrite basis_length. lia.
Qed.

(** What [CurvePt] computes once the span is known: each coordinate of the
    result is the weighted sum of the [p + 1] control points of the span
    over the weighted sum of their weights. *)
Lemma CurvePt_spec (fuel : nat) (dec : Decoder) (cur_dim : Z) (u : T)
      (ctrl : list (list T)) (w : list T) (tensor : TensorProduct)
      (knots : list T) (pk span : Z) :
  let md := mfa_data dec in
  let vals := basis_values knots u span pk in
  FindSpan_tensor fuel md cur_dim u tensor = ret span ->
  vget (all_knots (tmesh md)) cur_dim = ret knots ->
  vget (p md) cur_dim = ret pk ->
  nondecreasing knots = true ->
  0 <= pk <= span -> span < Zlength' ctrl -> span + pk < Zlength' knots ->
  (zth knots span <= u)%Qc -> (u <= zth knots (span + 1))%Qc ->
  (zth knots span < zth knots (span + 1))%Qc ->
  Zlength' w = Zlength' ctrl -> rectangular ctrl (mcols ctrl) = true ->
  curve_den vals w (span - pk) <> T0 ->
  exists out,
    CurvePt fuel dec cur_dim u ctrl w tensor = ret out /\
    Zlength' out = mcols ctrl /\
    forall k, 0 <= k < mcols ctrl ->
      zth out k = (curve_num vals ctrl w (span - pk) k
                   / curve_den vals w (span - pk))%Qc.
Proof.
  intros md vals Hfs Hk Hp Hs Hpk Hsp Hlen Hlo Hhi Hlt Hw Hrect Hden.
  set (n := Zlength' ctrl) in *. set (cols := mcols ctrl) in *.
  assert (Hn : 0 <= n) by (unfold n, Zlength'; lia).
  assert (Hcols : 0 <= cols).
  { unfold cols, mcols, Zlength'. destruct ctrl; lia. }
  assert (Lv : Zlength' vals = pk + 1)
    by (apply basis_values_length; lia).
  unfold CurvePt. fold md n cols. rewrite Hfs. mret.
  rewrite (OrigBasisFuns_spec md cur_dim knots pk u span [zeros n] 0
             (zeros n)); auto;
    try (rewrite zeros_length; lia).
  mret. rewrite zeros_length. replace (Z.max 0 n) with n by lia.
  change (replace_nth (Z.to_nat 0) [zeros n]
            (banded_row n (span - pk) (basis_values knots u span pk)))
    with [banded_row n (span - pk) vals].
  rewrite Hp. mret.
  assert (Lb : Zlength' (banded_row n (span - pk) vals) = n)
    by (apply banded_row_length; lia).
  set (P := fun (j : Z) (out : list T) =>
    Zlength' out = cols /\
    forall k, 0 <= k < cols ->
      zth out k =
      sumn (Z.to_nat j)
           (fun i => (zth vals (Z.of_nat i)
                      * zth (row ctrl (span - pk + Z.of_nat i)) k
                      * zth w (span - pk + Z.of_nat i))%Qc)).
  destruct (for_range_inv P
    (fun j out_pt =>
       n0 <- mget [banded_row n (span - pk) vals] 0 (j + span - pk) ;;
       c <- vget ctrl (span - pk + j) ;;
       w0 <- vget w (span - pk + j) ;;
       ret (vadd out_pt (map (fun x => (n0 * x * w0)%Qc) c)))
    0 (pk + 1) (zeros cols)) as (out & E & Lo & Po); try lia.
  - split; [rewrite zeros_length; lia |].
    intros k Hk0. unfold zth, zeros. rewrite nth_repeat. reflexivity.
  - intros j out Hj (Lo & Po).
    unfold mget. rewrite (vget_nth [] _ 0) by (unfold Zlength'; cbn; lia).
    mret. cbn [nth Z.to_nat].
    rewrite (vget_zth _ (j + span - pk)) by lia. mret.
    rewrite zth_banded_row by lia.
    replace ((span - pk <=? j + span - pk)
             && (j + span - pk <? span - pk + Zlength' vals)) with true
      by zcases.
    replace (j + span - pk - (span - pk)) with j by lia.
    rewrite (vget_nth [] ctrl (span - pk + j)) by (fold n; lia). mret.
    rewrite (vget_zth w (span - pk + j)) by lia. mret.
    fold (row ctrl (span - pk + j)).
    assert (Lr : Zlength' (row ctrl (span - pk + j)) = cols)
      by (apply rectangular_row; auto; fold n; lia).
    eexists. split; [reflexivity |]. split.
    + unfold Zlength' in *. rewrite vadd_length; rewrite ?length_map; lia.
    + intros k Hk0.
      rewrite zth_vadd
        by (unfold Zlength' in *; rewrite ?length_map; lia).
      rewrite zth_map by lia. rewrite Po by lia.
      replace (Z.to_nat (j + 1)) with (S (Z.to_nat j)) by lia.
      rewrite sumn_S. rewrite Z2Nat.id by lia. reflexivity.
  - rewrite E. mret.
    rewrite (vget_nth [] _ 0) by (unfold Zlength'; cbn; lia).
    mret. cbn [nth Z.to_nat].
    rewrite dot_banded by lia.
    rewrite vdiv_ok by exact Hden.
    eexists. split; [reflexivity |]. split.
    + unfold Zlength' in *. now rewrite length_map.
    + intros k Hk0. rewrite zth_map by lia. rewrite Po by lia.
      unfold curve_num. f_equal.
      replace (Z.to_nat (pk + 1)) with (length vals)
        by (unfold Zlength' in Lv; lia).
      reflexivity.
Qed.




Lemma sumn_bounds (n : nat) (a x : nat -> T) (lo hi : T) :
  (forall j, (j < n)%nat -> (T0 <= a j)%Qc) ->
  (forall j, (j < n)%nat -> (lo <= x j /\ x j <= hi)%Qc) ->
  (lo * sumn n a <= sumn n (fun j => a j * x j) /\
   sumn n (fun j => a j * x j) <= hi * sumn n a)%Qc.
Proof.
  induction n as [| n IH]; intros Ha Hx.
  - unfold sumn. cbn. split; qc_lra.
  - rewrite !sumn_S.
    destruct IH as [I1 I2]; [intros; apply Ha; lia | intros; apply Hx; lia |].
    specialize (Ha n ltac:(lia)). destruct (Hx n ltac:(lia)) as [X1 X2].
    set (A := sumn n a) in *. set (B := sumn n (fun j => (a j * x j)%Qc)) in *.
    set (an := a n) in *. set (xn := x n) in *.
    split; qc_nra.
Qed.






Lemma quotient_between (num den lo hi : T) :
  (T0 < den -> lo * den <= num -> num <= hi * den ->
   lo <= num / den /\ num / den <= hi)%Qc.
Proof.
  intros Hd H1 H2.
  assert (E : (num / den * den = num)%Qc).
  { field. intros E. rewrite E in Hd.
    exact (Qcle_not_lt _ _ (Qcle_refl _) Hd). }
  set (q := (num / den)%Qc) in *.
  split; apply Qcnot_lt_le; intros C; qc_nra.
Qed.



(** Where a single basis function is 1 and the others are 0, [CurvePt]
    returns the control point of that function. *)
Lemma CurvePt_single (fuel : nat) (dec : Decoder) (cur_dim : Z) (u : T)
      (ctrl : list (list T)) (w : list T) (tensor : TensorProduct)
      (knots : list T) (pk span j0 : Z) :
  let md := mfa_data dec in
  FindSpan_tensor fuel md cur_dim u tensor = ret span ->
  vget (all_knots (tmesh md)) cur_dim = ret knots ->
  vget (p md) cur_dim = ret pk ->
  nondecreasing knots = true ->
  0 <= pk <= span -> span < Zlength' ctrl -> span + pk < Zlength' knots ->
  (zth knots span <= u)%Qc -> (u <= zth knots (span + 1))%Qc ->
  (zth knots span < zth knots (span + 1))%Qc ->
  Zlength' w = Zlength' ctrl -> rectangular ctrl (mcols ctrl) = true ->
  0 <= j0 <= pk ->
  (forall j, 0 <= j <= pk ->
     zth (basis_values knots u span pk) j = if j =? j0 then T1 else T0) ->
  zth w (span - pk + j0) <> T0 ->
  CurvePt fuel dec cur_dim u ctrl w tensor = ret (row ctrl (span - pk + j0)).
Proof.
  intros md Hfs Hk Hp Hs Hpk Hsp Hlen Hlo Hhi Hlt Hw Hrect Hj0 Hv Hw0.
  assert (Lv : Zlength' (basis_values knots u span pk) = pk + 1)
    by (apply basis_values_length; lia).
  set (vals := basis_values knots u span pk) in *.
  assert (Ln : length vals = S (Z.to_nat pk))
    by (unfold Zlength' in Lv; lia).
  assert (Ed : curve_den vals w (span - pk) = zth w (span - pk + j0)).
  { unfold curve_den. rewrite (sumn_single _ (Z.to_nat j0)).
    - rewrite Z2Nat.id by lia. rewrite Hv by lia.
      rewrite Z.eqb_refl. ring.
    - lia.
    - intros j Hj Hne. rewrite Hv by lia.
      replace (Z.of_nat j =? j0) with false by zcases. ring. }
  assert (En : forall k, curve_num vals ctrl w (span - pk) k =
                 (zth (row ctrl (span - pk + j0)) k
                  * zth w (span - pk + j0))%Qc).
  { intros k. unfold curve_num. rewrite (sumn_single _ (Z.to_nat j0)).
    - rewrite Z2Nat.id by lia. rewrite Hv by lia.
      rewrite Z.eqb_refl. ring.
    - lia.
    - intros j Hj Hne. rewrite Hv by lia.
      replace (Z.of_nat j =? j0) with false by zcases. ring. }
  destruct (CurvePt_spec fuel dec cur_dim u ctrl w tensor knots pk span)
    as (out & E & Lo & Po); auto.
  { fold vals. now rewrite Ed. }
  rewrite E. f_equal. apply list_eq_zth.
  - assert (Lr : Zlength' (row ctrl (span - pk + j0)) = mcols ctrl)
      by (apply rectangular_row; auto; lia).
    unfold Zlength' in *. lia.
  - intros k Hk0. rewrite Po by lia. fold vals. rewrite Ed, En.
    field. exact Hw0.
Qed.


(** ** The decoder's tables *)

Lemma Zprod_app (v w : list Z) : Zprod (v ++ w) = Zprod v * Zprod w.
Proof.
  unfold Zprod. induction v as [| x v IH]; cbn [app fold_right]; [lia |].
  rewrite IH. lia.
Qed.

Lemma Zprod_firstn_S (k : nat) (v : list Z) :
  (k < length v)%nat ->
  Zprod (firstn (S k) v) = Zprod (firstn k v) * nth k v 0.
Proof.
  intros H. rewrite (firstn_S_nth k v 0) by lia.
  rewrite Zprod_app. unfold Zprod at 2. cbn [fold_right]. lia.
Qed.

Lemma Zprod_pos (v : list Z) :
  forallb (fun x => 0 <? x) v = true -> 0 < Zprod v.
Proof.
  unfold Zprod. induction v as [| x v IH]; cbn [forallb fold_right];
    intros H; [lia |].
  apply andb_prop in H as [H1 H2]. apply Z.ltb_lt in H1.
  specialize (IH H2). nia.
Qed.

Lemma forallb_firstn {A} (f : A -> bool) (k : nat) (v : list A) :
  forallb f v = true -> forallb f (firstn k v) = true.
Proof.
  intros H. rewrite forallb_forall in *. intros x Hx.
  apply H. rewrite <- (firstn_skipn k v). apply in_or_app. now left.
Qed.

Lemma prefix_prods_length (acc : Z) (v : list Z) :
  length (prefix_prods acc v) = length v.
Proof.
  revert acc. induction v as [| x v IH]; intros acc; cbn; auto.
Qed.

Lemma nth_prefix_prods (v : list Z) :
  forall (acc : Z) (k : nat),
    (k < length v)%nat ->
    nth k (prefix_prods acc v) 0 = acc * Zprod (firstn k v).
Proof.
  induction v as [| x v IH]; intros acc k Hk; [cbn in Hk; lia |].
  destruct k as [| k].
  - cbn. lia.
  - cbn [prefix_prods nth firstn]. rewrite IH by (cbn in Hk; lia).
    unfold Zprod. cbn [fold_right]. lia.
Qed.

Lemma dotZ_cons (a b : Z) (r c : list Z) :
  dotZ (a :: r) (b :: c) = a * b + dotZ r c.
Proof. reflexivity. Qed.

Lemma nth_tl {A} (k : nat) (l : list A) (d : A) :
  nth k (tl l) d = nth (S k) l d.
Proof. destruct l; [now destruct k | reflexivity]. Qed.

(** The first loop of the constructor: orders and strides. *)
Lemma Decoder_strides (pv nc : list Z) :
  Zlength' nc = Zlength' pv ->
  exists cs ds q,
    for_range 0 (Zlength' pv)
      (fun i '(cs, ds, q) =>
         pi <- vget pv i ;;
         q <- vset q i (pi + 1) ;;
         if 0 <? i then
           c <- vget cs (i - 1) ;;
           n <- vget nc (i - 1) ;;
           cs <- vset cs i (c * n) ;;
           d <- vget ds (i - 1) ;;
           qi <- vget q i ;;
           ds <- vset ds i (d * qi) ;;
           ret (cs, ds, q)
         else ret (cs, ds, q))
      (repeat 1 (length pv), repeat 1 (length pv), repeat 0 (length pv))
    = ret (cs, ds, q) /\
    q = map (fun x => x + 1) pv /\
    cs = prefix_prods 1 nc /\
    length ds = length pv /\
    forall j, (j < length pv)%nat ->
      nth j ds 0 = Zprod (firstn j (tl (map (fun x => x + 1) pv))).
Proof.
  intros Hnc.
  set (Q := map (fun x => x + 1) pv).
  set (d := length pv).
  set (P := fun (i : Z) (st : list Z * list Z * list Z) =>
    let '(cs, ds, q) := st in
    length cs = d /\ length ds = d /\ length q = d /\
    (forall j, (Z.of_nat j < i)%Z -> nth j q 0 = nth j pv 0 + 1) /\
    (forall j, (Z.of_nat j < Z.max 1 i)%Z -> (j < d)%nat ->
       nth j cs 0 = Zprod (firstn j nc) /\
       nth j ds 0 = Zprod (firstn j (tl Q)))).
  destruct (for_range_inv P
    (fun i '(cs, ds, q) =>
       pi <- vget pv i ;;
       q <- vset q i (pi + 1) ;;
       if 0 <? i then
         c <- vget cs (i - 1) ;;
         n <- vget nc (i - 1) ;;
         cs <- vset cs i (c * n) ;;
         d <- vget ds (i - 1) ;;
         qi <- vget q i ;;
         ds <- vset ds i (d * qi) ;;
         ret (cs, ds, q)
       else ret (cs, ds, q))
    0 (Zlength' pv)
    (repeat 1 (length pv), repeat 1 (length pv), repeat 0 (length pv)))
    as ([[cs ds] q] & E & L1 & L2 & L3 & Pq & Pc).
  - unfold Zlength'. lia.
  - unfold P. rewrite !repeat_length.
    split; [auto |]. split; [auto |]. split; [auto |]. split.
    + intros j Hj. lia.
    + intros j Hj Hjd. assert (j = 0%nat) by lia. subst j.
      rewrite !(nth_repeat_lt 1 0) by (fold d; lia). split; reflexivity.
  - intros i [[cs ds] q] Hi (L1 & L2 & L3 & Pq & Pc).
    unfold Zlength' in *. fold d in Hi.
    rewrite (vget_nth 0 pv i) by (unfold Zlength'; fold d; lia). mret.
    rewrite vset_ok by (unfold Zlength'; lia). mret.
    destruct (Z.ltb_spec 0 i) as [Hpos | Hz].
    + destruct (Pc (Z.to_nat (i - 1))) as [C1 C2]; try lia.
      rewrite (vget_nth 0 cs (i - 1)) by (unfold Zlength'; lia). mret.
      rewrite (vget_nth 0 nc (i - 1)) by (unfold Zlength'; lia). mret.
      rewrite vset_ok by (unfold Zlength'; lia). mret.
      rewrite (vget_nth 0 ds (i - 1)) by (unfold Zlength'; lia). mret.
      rewrite (vget_nth 0 _ i)
        by (unfold Zlength'; rewrite replace_nth_length; lia).
      mret. rewrite vset_ok by (unfold Zlength'; lia).
      eexists. split; [reflexivity |]. unfold P.
      rewrite !replace_nth_length.
      split; [auto |]. split; [auto |]. split; [auto |]. split.
      * intros j Hj. destruct (Nat.eq_dec j (Z.to_nat i)) as [-> | Nj].
        -- rewrite nth_replace_nth_eq by lia. reflexivity.
        -- rewrite nth_replace_nth_neq by lia. apply Pq. lia.
      * intros j Hj Hjd. destruct (Nat.eq_dec j (Z.to_nat i)) as [-> | Nj].
        -- rewrite !nth_replace_nth_eq by lia.
           rewrite C1, C2.
           replace (Z.to_nat i) with (S (Z.to_nat (i - 1))) by lia.
           rewrite !Zprod_firstn_S
             by (unfold Q; rewrite ?length_tl, ?length_map; lia).
           rewrite nth_tl. unfold Q.
           rewrite (nth_map_in _ _ _ 0 0) by lia. split; reflexivity.
        -- rewrite !nth_replace_nth_neq by lia. apply Pc; lia.
    + eexists. split; [reflexivity |]. unfold P.
      rewrite !replace_nth_length.
      split; [auto |]. split; [auto |]. split; [auto |]. split.
      * intros j Hj. destruct (Nat.eq_dec j (Z.to_nat i)) as [-> | Nj].
        -- rewrite nth_replace_nth_eq by lia. reflexivity.
        -- rewrite nth_replace_nth_neq by lia. apply Pq. lia.
      * intros j Hj Hjd. apply Pc; lia.
  - exists cs, ds, q. split; [exact E |]. unfold Zlength' in *. fold d in Pc.
    split; [| split; [| split; [auto |]]].
    + apply nth_ext with (d := 0) (d' := 0).
      * unfold Q. rewrite length_map. lia.
      * intros j Hj. rewrite Pq by lia. unfold Q.
        now rewrite (nth_map_in _ _ _ 0 0) by lia.
    + apply nth_ext with (d := 0) (d' := 0).
      * rewrite prefix_prods_length. lia.
      * intros j Hj. rewrite nth_prefix_prods by lia.
        destruct (Pc j) as [C1 _]; try lia.
    + intros j Hj. apply Pc; lia.
Qed.

Lemma Zdiv_int_ok (a b : Z) : b <> 0 -> Zdiv_int a b = ret (a ÷ b).
Proof.
  intros H. unfold Zdiv_int. destruct (Z.eqb_spec b 0); [contradiction | auto].
Qed.

(** The inner loop of the constructor writes into row [i] of [ct] the
    digits of [i] in the mixed radix [p(0) + 1, p(1) + 1, ...]. *)
Lemma Decoder_digits (pv : list Z) (ct : list (list Z)) (i : Z) :
  let Q := map (fun x => x + 1) pv in
  forallb (fun x => 0 <? x) Q = true ->
  0 <= i < Zprod Q -> i < Zlength' ct ->
  length (rowZ ct i) = length pv ->
  exists r,
    for_range 0 (Zlength' pv)
      (fun k '(ct, div, i_temp) =>
         let j := Zlength' pv - 1 - k in
         pj <- vget pv j ;;
         div <- Zdiv_int div (pj + 1) ;;
         c <- Zdiv_int i_temp div ;;
         r <- vget ct i ;;
         r <- vset r j c ;;
         ct <- vset ct i r ;;
         ret (ct, div, i_temp - c * div))
      (ct, Zprod Q, i)
    = ret (replace_nth (Z.to_nat i) ct r, 1, 0) /\
    length r = length pv /\
    (forall j, (j < length pv)%nat -> 0 <= nth j r 0 <= nth j pv 0) /\
    dotZ r (prefix_prods 1 Q) = i.
Proof.
  intros Q HQ Hi Hct Hrow.
  set (d := length pv) in *.
  assert (LQ : length Q = d) by (unfold Q; now rewrite length_map).
  set (PP := prefix_prods 1 Q).
  assert (LPP : length PP = d)
    by (unfold PP; now rewrite prefix_prods_length).
  set (P := fun (k : Z) (st : list (list Z) * Z * Z) =>
    let '(ct', div, it) := st in
    exists r,
      ct' = replace_nth (Z.to_nat i) ct r /\ length r = d /\
      div = Zprod (firstn (d - Z.to_nat k) Q) /\ 0 <= it < div /\
      (forall j, (d - Z.to_nat k <= j < d)%nat ->
                 0 <= nth j r 0 <= nth j pv 0) /\
      i = it + dotZ (skipn (d - Z.to_nat k) r) (skipn (d - Z.to_nat k) PP)).
  destruct (for_range_inv P
    (fun k '(ct, div, i_temp) =>
       let j := Zlength' pv - 1 - k in
       pj <- vget pv j ;;
       div <- Zdiv_int div (pj + 1) ;;
       c <- Zdiv_int i_temp div ;;
       r <- vget ct i ;;
       r <- vset r j c ;;
       ct <- vset ct i r ;;
       ret (ct, div, i_temp - c * div))
    0 (Zlength' pv) (ct, Zprod Q, i))
    as ([[ct' div] it] & E & r & -> & Lr & Hdiv & Hit & Hdig & Hsum).
  - unfold Zlength'. lia.
  - unfold P. exists (rowZ ct i).
    replace (d - Z.to_nat 0)%nat with d by lia.
    split; [unfold rowZ; now rewrite replace_nth_same |].
    split; [exact Hrow |].
    split; [rewrite <- LQ; now rewrite firstn_all |].
    split; [lia |]. split; [intros; lia |].
    rewrite !skipn_all2 by lia. cbn. lia.
  - intros k [[ct' div] it] Hk (r & -> & Lr & Hdiv & Hit & Hdig & Hsum).
    unfold Zlength' in Hk. fold d in Hk. cbv zeta.
    unfold Zlength' at 1 2. fold d.
    set (j := Z.of_nat d - 1 - k) in *.
    assert (Hj : (Z.to_nat j < d)%nat) by lia.
    assert (Ej : (d - Z.to_nat k)%nat = S (Z.to_nat j)) by lia.
    assert (Ej' : (d - Z.to_nat (k + 1))%nat = Z.to_nat j) by lia.
    rewrite (vget_nth 0 pv j) by (unfold Zlength'; fold d; lia). mret.
    assert (Qj : nth (Z.to_nat j) Q 0 = nth (Z.to_nat j) pv 0 + 1)
      by (unfold Q; now rewrite (nth_map_in _ _ _ 0 0) by lia).
    assert (Qpos : 0 < nth (Z.to_nat j) Q 0).
    { rewrite forallb_forall in HQ. apply Z.ltb_lt, HQ, nth_In. lia. }
    assert (Dpos : 0 < Zprod (firstn (Z.to_nat j) Q))
      by (apply Zprod_pos, forallb_firstn, HQ).
    set (D := Zprod (firstn (Z.to_nat j) Q)) in *.
    assert (Ediv : div = D * nth (Z.to_nat j) Q 0).
    { rewrite Hdiv, Ej. unfold D. apply Zprod_firstn_S. lia. }
    rewrite Zdiv_int_ok by lia. mret.
    rewrite <- Qj.
    assert (Eq : div ÷ nth (Z.to_nat j) Q 0 = D).
    { rewrite Ediv. apply Z.quot_mul. lia. }
    rewrite Eq. rewrite Zdiv_int_ok by lia. mret.
    rewrite (vget_nth [] _ i) by (rewrite Zlength_replace_nth; lia). mret.
    rewrite nth_replace_nth_eq by (unfold Zlength' in Hct; lia).
    rewrite vset_ok by (unfold Zlength'; lia). mret.
    rewrite vset_ok by (rewrite Zlength_replace_nth; lia).
    rewrite replace_nth_twice.
    eexists. split; [reflexivity |]. unfold P.
    set (c := it ÷ D).
    assert (Ec : c = it / D) by (apply Z.quot_div_nonneg; lia).
    assert (Hc : 0 <= c <= nth (Z.to_nat j) pv 0 /\ 0 <= it - c * D < D).
    { rewrite Ec. clear Ec c. Z.div_mod_to_equations. nia. }
    exists (replace_nth (Z.to_nat j) r c).
    split; [reflexivity |]. split; [now rewrite replace_nth_length |].
    rewrite Ej'. split; [reflexivity |]. split; [lia |]. split.
    + intros j' Hj'. destruct (Nat.eq_dec j' (Z.to_nat j)) as [-> | Nj].
      * rewrite nth_replace_nth_eq by lia. lia.
      * rewrite nth_replace_nth_neq by lia. apply Hdig. lia.
    + rewrite (skipn_nth_cons (Z.to_nat j) _ 0)
        by (rewrite replace_nth_length; lia).
      rewrite (skipn_nth_cons (Z.to_nat j) PP 0) by lia.
      rewrite dotZ_cons. rewrite nth_replace_nth_eq by lia.
      rewrite skipn_replace_nth_lt by lia.
      unfold PP at 1. rewrite nth_prefix_prods by lia. fold D.
      rewrite Ej in Hsum. lia.
  - replace (d - Z.to_nat (Zlength' pv))%nat with 0%nat in *
      by (unfold Zlength'; fold d; lia).
    cbn [firstn skipn] in *. unfold Zprod in Hdiv. cbn in Hdiv. subst div.
    assert (it = 0) by lia. subst it.
    exists r. split; [exact E |]. split; [exact Lr |]. split.
    + intros j Hj. apply Hdig. lia.
    + lia.
Qed.

Lemma orders_positive (pv : list Z) :
  degrees_ok pv = true ->
  forallb (fun x => 0 <? x) (map (fun x => x + 1) pv) = true.
Proof.
  unfold degrees_ok. intros H. rewrite forallb_forall in *.
  intros x Hx. apply in_map_iff in Hx as (y & <- & Hy).
  specialize (H y Hy). apply Z.leb_le in H. apply Z.ltb_lt. lia.
Qed.

(** X15. The tables of a decoder. For a model that has been encoded, with
    non-negative degrees and one number of control points per dimension,
    the constructor returns; [q(k) = p(k) + 1], [tot_iters] is the product
    of the [q(k)], [cs(k)] is the product of the numbers of control points
    of the dimensions before [k], [ds(k)] is the product [q(1) ... q(k)],
    and row [i] of [ct] holds the digits of [i] in the mixed radix
    [q(0), q(1), ...], dimension 0 fastest: each [ct(i, k)] lies in
    [[0, p(k)]] and the digits weighted by the products of the preceding
    [q] sum to [i]. [jumps(i)] is the offset of that multi-index under the
    strides [cs]. *)
Theorem Decoder_tables (md : MFA_Data) (verbose_ : Z) (sb : bool)
        (t0 : TensorProduct) :
  not_encoded md = false ->
  vget (tensor_prods (tmesh md)) 0 = ret t0 ->
  dom_dim md = Zlength' (p md) ->
  Zlength' (nctrl_pts t0) = Zlength' (p md) ->
  degrees_ok (p md) = true ->
  exists dec,
    Decoder_new md verbose_ sb = ret dec /\
    mfa_data dec = md /\
    q dec = map (fun x => x + 1) (p md) /\
    q0 dec = zthZ (p md) 0 + 1 /\
    tot_iters dec = Zprod (q dec) /\
    cs dec = prefix_prods 1 (nctrl_pts t0) /\
    (forall k, 0 <= k < dom_dim md ->
       zthZ (ds dec) k = Zprod (firstn (Z.to_nat k) (tl (q dec)))) /\
    Zlength' (ct dec) = tot_iters dec /\
    forall i, 0 <= i < tot_iters dec ->
      Zlength' (rowZ (ct dec) i) = dom_dim md /\
      (forall k, 0 <= k < dom_dim md ->
         0 <= zthZ (rowZ (ct dec) i) k <= zthZ (p md) k) /\
      dotZ (rowZ (ct dec) i) (prefix_prods 1 (q dec)) = i /\
      zthZ (jumps dec) i = dotZ (rowZ (ct dec) i) (cs dec).
Proof.
  intros Hne Ht Hd Hnc Hdeg.
  assert (Hlen : 0 < Zlength' (p md)).
  { destruct (Z.eqb_spec (Zlength' (p md)) 0) as [E | E].
    - apply Z.eqb_eq in E. unfold not_encoded in Hne. rewrite E in Hne.
      discriminate.
    - unfold Zlength' in *. lia. }
  set (pv := p md) in *. set (Q := map (fun x => x + 1) pv).
  set (d := length pv).
  assert (HQ : forallb (fun x => 0 <? x) Q = true)
    by (apply orders_positive; exact Hdeg).
  assert (Htot : 0 < Zprod Q) by (apply Zprod_pos; exact HQ).
  unfold Decoder_new. cbv zeta. fold pv Q.
  rewrite (vget_nth 0 pv 0) by lia. mret. rewrite Hne, Ht. mret.
  replace (Z.to_nat (dom_dim md)) with (length pv)
    by (rewrite Hd; unfold Zlength'; lia).
  destruct (Decoder_strides pv (nctrl_pts t0) Hnc)
    as (cs1 & ds1 & q1 & E1 & Eq & Ec & Lds & Pds).
  rewrite E1. mret.
  set (O := fun (i : Z) (ct : list (list Z)) =>
    length ct = Z.to_nat (Zprod Q) /\
    (forall i', (i' < length ct)%nat -> length (nth i' ct []) = d) /\
    (forall i', (Z.of_nat i' < i)%Z ->
       (forall j, (j < d)%nat -> 0 <= nth j (nth i' ct []) 0 <= nth j pv 0) /\
       dotZ (nth i' ct []) (prefix_prods 1 Q) = Z.of_nat i')).
  destruct (for_range_inv O
    (fun i ct =>
       ' (ct, _, _) <-
         for_range 0 (Zlength' pv)
           (fun k '(ct, div, i_temp) =>
              pj <- vget pv (Zlength' pv - 1 - k) ;;
              div <- Zdiv_int div (pj + 1) ;;
              c <- Zdiv_int i_temp div ;;
              r <- vget ct i ;;
              r <- vset r (Zlength' pv - 1 - k) c ;;
              ct <- vset ct i r ;;
              ret (ct, div, i_temp - c * div))
           (ct, Zprod Q, i) ;;
       ret ct)
    0 (Zprod Q) (repeat (repeat 0 (length pv)) (Z.to_nat (Zprod Q))))
    as (ct1 & E2 & Lct & Prow & Pdig); try lia.
  - unfold O. rewrite repeat_length. split; [auto |]. split; [| intros; lia].
    intros i' Hi'. rewrite (nth_repeat_lt _ []) by exact Hi'.
    apply repeat_length.
  - intros i ct Hi (Lct & Prow & Pdig).
    destruct (Decoder_digits pv ct i) as (r & E & Lr & Dr & Sr); auto.
    + unfold Zlength'. lia.
    + unfold rowZ. apply Prow. lia.
    + fold Q in E, Sr. cbv zeta in E. rewrite E. mret.
      eexists. split; [reflexivity |]. unfold O.
      rewrite replace_nth_length. split; [auto |]. split.
      * intros i' Hi'. destruct (Nat.eq_dec i' (Z.to_nat i)) as [-> | Ni].
        -- rewrite nth_replace_nth_eq by lia. exact Lr.
        -- rewrite nth_replace_nth_neq by lia. now apply Prow.
      * intros i' Hi'. destruct (Nat.eq_dec i' (Z.to_nat i)) as [-> | Ni].
        -- rewrite nth_replace_nth_eq by lia. split; [exact Dr |]. lia.
        -- rewrite nth_replace_nth_neq by lia. apply Pdig. lia.
  - rewrite E2. mret. eexists. split; [reflexivity |]. cbn [mfa_data q q0
      tot_iters cs ds ct jumps].
    split; [reflexivity |]. split; [exact Eq |].
    split; [reflexivity |]. rewrite Eq. fold Q.
    split; [reflexivity |]. split; [exact Ec |]. split.
    { intros k Hk. unfold zthZ. apply Pds. unfold Zlength' in *. lia. }
    split; [unfold Zlength'; lia |].
    intros i Hi. unfold rowZ, zthZ, Zlength'.
    destruct (Pdig (Z.to_nat i)) as [D1 D2]; [lia |].
    split; [rewrite Prow by lia; unfold Zlength' in *; fold d; lia |].
    split; [intros k Hk; apply D1; unfold Zlength' in *; fold d in Hd; lia |].
    split; [rewrite D2; lia |].
    rewrite (nth_map_in _ _ _ 0 []) by lia. reflexivity.
Qed.

Lemma Decoder_tables_witness :
  exists dec,
    Decoder_new ex_mfa2t 0 false = ret dec /\
    mfa_data dec = ex_mfa2t /\
    q dec = map (fun x => x + 1) (p ex_mfa2t) /\
    q0 dec = zthZ (p ex_mfa2t) 0 + 1 /\
    tot_iters dec = Zprod (q dec) /\
    cs dec = prefix_prods 1 [7; 3] /\
    (forall k, 0 <= k < dom_dim ex_mfa2t ->
       zthZ (ds dec) k = Zprod (firstn (Z.to_nat k) (tl (q dec)))) /\
    Zlength' (ct dec) = tot_iters dec /\
    forall i, 0 <= i < tot_iters dec ->
      Zlength' (rowZ (ct dec) i) = dom_dim ex_mfa2t /\
      (forall k, 0 <= k < dom_dim ex_mfa2t ->
         0 <= zthZ (rowZ (ct dec) i) k <= zthZ (p ex_mfa2t) k) /\
      dotZ (rowZ (ct dec) i) (prefix_prods 1 (q dec)) = i /\
      zthZ (jumps dec) i = dotZ (rowZ (ct dec) i) (cs dec).
Proof.
  apply (Decoder_tables ex_mfa2t 0 false
           (mkTensor [0; 0] [10; 4] [7; 3] (repeat [T0] 21) (repeat T1 21) 0));
    reflexivity.
Defined.

(** ** [Encoder::Quants] *)

Lemma snd_bind {A B} (m : M A) (k : A -> M B) :
  snd (bind m k) = match snd m with
                   | Ret a => snd (k a)
                   | Fail f => Fail f
                   end.
Proof. unfold bind. now destruct (snd m). Qed.

(** The checking loop of [Quants]: it leaves through [exit(1)] at the first
    dimension with too few control points. *)
Lemma Quants_check_loop (mfa : MFA) (t0 : TensorProduct) :
  vget (tensor_prods (tmesh (model mfa))) 0 = ret t0 ->
  Zlength' (nctrl_pts t0) = Zlength' (p (model mfa)) ->
  Zlength' (ndom_pts mfa) = Zlength' (p (model mfa)) ->
  forall (n : nat) (i : Z),
    0 <= i -> i + Z.of_nat n <= Zlength' (p (model mfa)) ->
    snd (for_n n i
           (fun i _ =>
              t0 <- vget (tensor_prods (tmesh (model mfa))) 0 ;;
              nc <- vget (nctrl_pts t0) i ;;
              pi <- vget (p (model mfa)) i ;;
              if nc <=? pi then exit_with quants_nctrl_msg 1
              else
                nd <- vget (ndom_pts mfa) i ;;
                if nd <? nc then warn quants_warn_msg else ret tt)
           tt)
    = if forallb (fun x => snd x <? fst x)
                 (firstn n (skipn (Z.to_nat i)
                                  (combine (nctrl_pts t0) (p (model mfa)))))
      then Ret tt else Fail (Exit 1).
Proof.
  intros Ht Hnc Hnd n.
  match goal with
  | |- forall i, _ -> _ -> snd (for_n _ _ ?b tt) = _ => set (body := b)
  end.
  assert (Hbody : forall i, 0 <= i < Zlength' (p (model mfa)) ->
            snd (body i tt) =
            if nth (Z.to_nat i) (nctrl_pts t0) 0
               <=? nth (Z.to_nat i) (p (model mfa)) 0
            then Fail (Exit 1) else Ret tt).
  { intros i Hi. unfold body. rewrite Ht. mret.
    rewrite (vget_nth 0 (nctrl_pts t0) i) by lia. mret.
    rewrite (vget_nth 0 (p (model mfa)) i) by lia. mret.
    destruct (_ <=? _); [reflexivity |].
    rewrite (vget_nth 0 (ndom_pts mfa) i) by lia. mret.
    destruct (_ <? _); reflexivity. }
  clearbody body. set (pv := p (model mfa)) in *.
  induction n as [| n IH]; intros i Hi0 Hi; [reflexivity |].
  cbn [for_n]. rewrite snd_bind, Hbody by lia.
  rewrite (skipn_nth_cons (Z.to_nat i) _ (0, 0))
    by (rewrite length_combine; unfold Zlength' in *; lia).
  cbn [firstn forallb]. rewrite combine_nth by (unfold Zlength' in *; lia).
  cbn [fst snd].
  destruct (Z.leb_spec (nth (Z.to_nat i) (nctrl_pts t0) 0)
                       (nth (Z.to_nat i) pv 0)) as [Hbad | Hok].
  - replace (nth (Z.to_nat i) pv 0 <? nth (Z.to_nat i) (nctrl_pts t0) 0)
      with false by zcases.
    reflexivity.
  - replace (nth (Z.to_nat i) pv 0 <? nth (Z.to_nat i) (nctrl_pts t0) 0)
      with true by zcases.
    cbn [andb].
    replace (S (Z.to_nat i)) with (Z.to_nat (i + 1)) by lia.
    rewrite <- IH by lia. reflexivity.
Qed.

(** The loop that fills [n] and [m]. *)
Lemma Quants_fill_loop (mfa : MFA) (t0 : TensorProduct) :
  vget (tensor_prods (tmesh (model mfa))) 0 = ret t0 ->
  Zlength' (nctrl_pts t0) = Zlength' (p (model mfa)) ->
  Zlength' (ndom_pts mfa) = Zlength' (p (model mfa)) ->
  for_range 0 (Zlength' (p (model mfa)))
    (fun i '(n, m) =>
       t0 <- vget (tensor_prods (tmesh (model mfa))) 0 ;;
       nc <- vget (nctrl_pts t0) i ;;
       n <- vset n i (nc - 1) ;;
       nd <- vget (ndom_pts mfa) i ;;
       m <- vset m i (nd - 1) ;;
       ret (n, m))
    (repeat 0 (length (p (model mfa))), repeat 0 (length (p (model mfa))))
  = ret (map (fun x => x - 1) (nctrl_pts t0),
         map (fun x => x - 1) (ndom_pts mfa)).
Proof.
  intros Ht Hnc Hnd. set (pv := p (model mfa)) in *.
  set (d := length pv).
  set (P := fun (i : Z) (st : list Z * list Z) =>
    length (fst st) = d /\ length (snd st) = d /\
    forall j, (Z.of_nat j < i)%Z ->
      nth j (fst st) 0 = nth j (nctrl_pts t0) 0 - 1 /\
      nth j (snd st) 0 = nth j (ndom_pts mfa) 0 - 1).
  destruct (for_range_inv P
    (fun i '(n, m) =>
       t0 <- vget (tensor_prods (tmesh (model mfa))) 0 ;;
       nc <- vget (nctrl_pts t0) i ;;
       n <- vset n i (nc - 1) ;;
       nd <- vget (ndom_pts mfa) i ;;
       m <- vset m i (nd - 1) ;;
       ret (n, m))
    0 (Zlength' pv) (repeat 0 d, repeat 0 d))
    as ([n m] & E & L1 & L2 & Pn).
  - unfold Zlength'. lia.
  - unfold P. cbn [fst snd]. rewrite !repeat_length.
    repeat split; auto; lia.
  - intros i [n m] Hi (L1 & L2 & Pn). cbn [fst snd] in *.
    unfold Zlength' in Hi. fold d in Hi.
    rewrite Ht. mret.
    rewrite (vget_nth 0 (nctrl_pts t0) i) by (unfold Zlength' in *; lia).
    mret. rewrite vset_ok by (unfold Zlength'; lia). mret.
    rewrite (vget_nth 0 (ndom_pts mfa) i) by (unfold Zlength' in *; lia).
    mret. rewrite vset_ok by (unfold Zlength'; lia).
    eexists. split; [reflexivity |]. unfold P. cbn [fst snd].
    rewrite !replace_nth_length. split; [auto |]. split; [auto |].
    intros j Hj. destruct (Nat.eq_dec j (Z.to_nat i)) as [-> | Nj].
    + rewrite !nth_replace_nth_eq by lia. split; reflexivity.
    + rewrite !nth_replace_nth_neq by lia. apply Pn. lia.
  - cbn [fst snd] in *. fold d. rewrite E. do 2 f_equal.
    + apply nth_ext with (d := 0) (d' := 0).
      * rewrite length_map. unfold Zlength' in *. lia.
      * intros j Hj. destruct (Pn j) as [R1 _];
          [unfold Zlength'; fold d; lia |].
        rewrite R1. rewrite (nth_map_in _ _ _ 0 0)
          by (unfold Zlength' in *; lia).
        reflexivity.
    + apply nth_ext with (d := 0) (d' := 0).
      * rewrite length_map. unfold Zlength' in *. lia.
      * intros j Hj. destruct (Pn j) as [_ R2];
          [unfold Zlength'; fold d; lia |].
        rewrite R2. rewrite (nth_map_in _ _ _ 0 0)
          by (unfold Zlength' in *; lia).
        reflexivity.
Qed.

(** X16. [Quants] on a model with a tensor product that has one number of
    control points per dimension: when [p] and [ndom_pts] have the same
    size and every dimension has more control points than its degree, it
    returns [n(i) = nctrl_pts(i) - 1] and [m(i) = ndom_pts(i) - 1]
    (warnings do not stop it); otherwise it terminates the process with
    [exit(1)]. *)
Theorem Quants_accepts (mfa : MFA) (t0 : TensorProduct) :
  vget (tensor_prods (tmesh (model mfa))) 0 = ret t0 ->
  Zlength' (nctrl_pts t0) = Zlength' (p (model mfa)) ->
  snd (Quants mfa) =
  if (Zlength' (p (model mfa)) =? Zlength' (ndom_pts mfa)) &&
     forallb (fun x => snd x <? fst x)
             (combine (nctrl_pts t0) (p (model mfa)))
  then Ret (map (fun x => x - 1) (nctrl_pts t0),
            map (fun x => x - 1) (ndom_pts mfa))
  else Fail (Exit 1).
Proof.
  intros Ht Hnc. unfold Quants.
  destruct (Z.eqb_spec (Zlength' (p (model mfa))) (Zlength' (ndom_pts mfa)))
    as [Hsz | Hsz]; cbn [negb andb]; [| reflexivity].
  rewrite snd_bind. unfold for_range at 1.
  rewrite (Quants_check_loop mfa t0 Ht Hnc)
    by (unfold Zlength' in *; lia).
  rewrite firstn_all2
    by (cbn [skipn Z.to_nat]; rewrite length_combine;
        unfold Zlength' in *; lia).
  cbn [skipn Z.to_nat].
  destruct (forallb _ _); [| reflexivity].
  rewrite (Quants_fill_loop mfa t0 Ht Hnc) by lia. reflexivity.
Qed.

Lemma Quants_accepts_witness : snd (Quants ex_enc7) = Ret ([6], [19]).
Proof. apply (Quants_accepts ex_enc7 ex_tensor7); reflexivity. Defined.

(** ** One basis function on local knots *)







Example OneBasisFun_ex7 :
  option_map this (value (OneBasisFun ex_mfa7 0 (Q2Qc (3 # 10)) ex_loc7))
  = Some (16 # 125)%Q.
Proof. vm_compute. reflexivity. Qed.

(** ** The basis functions of the T-mesh version *)







(** ** C1: what the precondition checks do *)





(** ** C6: the closing division of [VolPt] *)

(** C6. On the degree-1 curve [ex_tensor3z], whose weights are all zero, the
    accumulated rational denominator of [VolPt] is zero at every parameter.
    With the decoder constructed on the model and a freshly allocated
    [DecodeInfo], [VolPt] at the parameter 1/4, without derivatives, divides
    by that denominator (decode.hpp 1190-1194): nothing is written to
    [stderr] and no point, scaled or unscaled, is returned, since the
    quotient is not a finite number. This is so whether all coordinates are
    weighed or only the last one. *)
Lemma VolPt_zero_denominator
      (DerBasisFuns :
         MFA_Data -> Z -> T -> Z -> Z -> list (list T) -> M (list (list T)))
      (all_dims unclamped no_weights : bool) :
  Decoder_new ex_mfa3z 0 false = ret ex_dec3z /\
  DecodeInfo_new ex_mfa3z [] = ret ex_di3z /\
  VolPt DerBasisFuns (mkConfig all_dims unclamped no_weights) 2 ex_dec3z
        [Q2Qc (1 # 4)] ex_di3z ex_tensor3z []
  = fail NonFinite.
Proof.
  split; [reflexivity |]. split; [reflexivity |].
  destruct all_dims;
    vm_cast_no_check
      (@eq_refl (M (list T * DecodeInfo)) (fail NonFinite)).
Qed.

(** ** C3: [FastVolPt] on a curve of degree 1 *)

(** C3. On the degree-1 curve [ex_tensor3] (knots 0, 0, 1/2, 1, 1; control
    points 0, 1, 2; unit weights; one science variable), with
    [MFA_NO_WEIGHTS] defined and the decoder and both scratch structures
    constructed on the model, [VolPt] at the parameter 1/4 returns the
    point 1/2, and [FastVolPt] returns nothing: [FastBasisFuns] reads [N[2]]
    of the two-entry vector [N[0]] for its diagnostic output
    (mfa_data.hpp 393), which is undefined. *)
Lemma FastVolPt_degree1
      (DerBasisFuns :
         MFA_Data -> Z -> T -> Z -> Z -> list (list T) -> M (list (list T)))
      (all_dims unclamped : bool) :
  Decoder_new ex_mfa3t 0 false = ret ex_dec3 /\
  FastDecodeInfo_new ex_dec3 = ret ex_fdi3 /\
  DecodeInfo_new ex_mfa3t [] = ret ex_di3z /\
  FastVolPt (mkConfig all_dims unclamped true) 2 ex_dec3 [Q2Qc (1 # 4)] [T0]
            ex_fdi3 ex_tensor3
  = fail Undefined /\
  option_map fst
    (value (VolPt DerBasisFuns (mkConfig all_dims unclamped true) 2 ex_dec3
                  [Q2Qc (1 # 4)] ex_di3z ex_tensor3 []))
  = Some [Q2Qc (1 # 2)].
Proof.
  split; [reflexivity |]. split; [reflexivity |]. split; [reflexivity |].
  split; [reflexivity |].
  destruct all_dims;
    vm_cast_no_check (@eq_refl (option (list T)) (Some [Q2Qc (1 # 2)])).
Qed.
